(** * A shallow embedding of the lexical analyzer of [exam/lab06.py]

    The development follows the Python class [LexicalAnalyzer] method by
    method.  The mutable object [self] becomes a record that is threaded
    through a small state-and-exception monad; every [while] loop of the
    source is an instance of one fuelled loop combinator, and the fuel the
    methods supply is shown to be sufficient, so that every method is total.

    Characters.  A Python [str] holds Unicode code points; the model works
    with the code points below 256, a value [c : ascii] standing for
    U+00nn.  The predicates [str.isspace], [str.isalpha], [str.isdigit] and
    [str.isalnum] are tabulated for that range as CPython computes them.

    Numbers.  [int(result)] is the integer the digits denote, with CPython's
    default limit of 4300 digits on the conversion.  [float(result)] is the
    IEEE 754 binary64 number nearest to the rational the literal denotes,
    ties going to the even mantissa and overflow to [inf]; a finite float is
    held as its exact rational value in lowest terms. *)

From Stdlib Require Import ZArith String Ascii List Bool Lia QArith Qreduction.
From Stdlib Require Import Qabs Qpower Lqa.
From Stdlib Require Import DecimalString DecimalZ.
From Stdlib Require Qcanon.
From stdpp Require Import gmap strings.

Local Open Scope string_scope.
Local Open Scope Z_scope.

(** ** Character classes (code points 0..255) *)

Definition code (c : ascii) : N := N_of_ascii c.

Definition between (lo hi : N) (c : ascii) : bool :=
  ((lo <=? code c) && (code c <=? hi))%N.

(** [str.isspace]: TAB..CR, FS..US, SPACE, NEL (U+0085), NBSP (U+00A0). *)
Definition isspace (c : ascii) : bool :=
  between 9 13 c || between 28 32 c || (code c =? 133)%N || (code c =? 160)%N.

(** The decimal digits accepted by [int()] and [float()]. *)
Definition isdecimal (c : ascii) : bool := between 48 57 c.

(** [str.isdigit]: the decimal digits and the superscripts U+00B2, U+00B3,
    U+00B9. *)
Definition isdigit (c : ascii) : bool :=
  isdecimal c || (code c =? 178)%N || (code c =? 179)%N || (code c =? 185)%N.

(** [str.isalpha]: the letters of Basic Latin and Latin-1. *)
Definition isalpha (c : ascii) : bool :=
  between 65 90 c || between 97 122 c
  || (code c =? 170)%N || (code c =? 181)%N || (code c =? 186)%N
  || between 192 214 c || between 216 246 c || between 248 255 c.

(** [str.isalnum]: alphabetic, or numeric in any sense (this adds the
    vulgar fractions U+00BC..U+00BE). *)
Definition isalnum (c : ascii) : bool :=
  isalpha c || isdigit c || between 188 190 c.

Notation "a =c b" := (Ascii.eqb a b) (at level 70, no associativity).

Definition newline : ascii := "010"%char.
Definition dquote : ascii := "034"%char.
Definition squote : ascii := "'"%char.
Definition backslash : ascii := "\"%char.

(** ** Tokens *)

Inductive TokenType : Set :=
  | IF | ELSE | WHILE | FOR | INT | FLOAT | CHAR | VOID | RETURN
  | IDENTIFIER | INTEGER | FLOAT_LITERAL | STRING | CHAR_LITERAL
  | PLUS | MINUS | MULTIPLY | DIVIDE | ASSIGN | EQ | NE | LT | GT | LE | GE
  | LPAREN | RPAREN | LBRACE | RBRACE | SEMICOLON | COMMA
  | EOF | ERROR.

Definition TokenType_eqb (a b : TokenType) : bool :=
  match a, b with
  | IF, IF | ELSE, ELSE | WHILE, WHILE | FOR, FOR | INT, INT
  | FLOAT, FLOAT | CHAR, CHAR | VOID, VOID | RETURN, RETURN
  | IDENTIFIER, IDENTIFIER | INTEGER, INTEGER
  | FLOAT_LITERAL, FLOAT_LITERAL | STRING, STRING
  | CHAR_LITERAL, CHAR_LITERAL
  | PLUS, PLUS | MINUS, MINUS | MULTIPLY, MULTIPLY | DIVIDE, DIVIDE
  | ASSIGN, ASSIGN | EQ, EQ | NE, NE | LT, LT | GT, GT | LE, LE | GE, GE
  | LPAREN, LPAREN | RPAREN, RPAREN | LBRACE, LBRACE | RBRACE, RBRACE
  | SEMICOLON, SEMICOLON | COMMA, COMMA | EOF, EOF | ERROR, ERROR => true
  | _, _ => false
  end.

(** A Python [float] is an IEEE 754 binary64 number.  The floats that
    [float] returns for a text of digits and points are not negative: a
    finite one is held as its exact rational value, in lowest terms, the
    other one is [inf]. *)
Inductive Float : Type :=
  | Finite (q : Q)
  | Inf.

(** The payload of a token: [None], a [str], an [int] or a [float]. *)
Inductive Value : Type :=
  | VNone
  | VStr (s : string)
  | VInt (n : Z)
  | VFloat (x : Float).

Module Token.
Record t : Type := mk { type : TokenType; value : Value; line : Z; column : Z }.
End Token.
Abbreviation Token := Token.t.

(** ** The analyzer object *)

(** An entry of [self.symbol_table]: the dict with the keys ['first_seen']
    and ['occurrences']. *)
Record SymbolEntry : Type := mkEntry {
  first_seen : Z * Z;
  occurrences : list (Z * Z)
}.

(** [self.keywords] and [self.operators] are assigned once in [__init__]
    and never written again; they are constants of the model. *)
Definition keywords : gmap string TokenType :=
  list_to_map
    [ ("if", IF); ("else", ELSE); ("while", WHILE); ("for", FOR);
      ("int", INT); ("float", FLOAT); ("char", CHAR); ("void", VOID);
      ("return", RETURN) ].

Definition operators : gmap string TokenType :=
  list_to_map
    [ ("+", PLUS); ("-", MINUS); ("*", MULTIPLY); ("/", DIVIDE);
      ("=", ASSIGN); ("==", EQ); ("!=", NE); ("<", LT); (">", GT);
      ("<=", LE); (">=", GE); ("(", LPAREN); (")", RPAREN);
      ("{", LBRACE); ("}", RBRACE); (";", SEMICOLON); (",", COMMA) ].

Record LexicalAnalyzer : Type := mkAnalyzer {
  symbol_table : gmap string SymbolEntry;
  source : string;
  pos : nat;
  line : Z;
  column : Z;
  current_char : option ascii
}.

(** [LexicalAnalyzer()] *)
Definition new : LexicalAnalyzer :=
  {| symbol_table := ∅; source := ""; pos := 0; line := 1; column := 1;
     current_char := None |}.

Definition set_line (l : Z) (self : LexicalAnalyzer) : LexicalAnalyzer :=
  {| symbol_table := symbol_table self; source := source self;
     pos := pos self; line := l; column := column self;
     current_char := current_char self |}.

Definition set_column (c : Z) (self : LexicalAnalyzer) : LexicalAnalyzer :=
  {| symbol_table := symbol_table self; source := source self;
     pos := pos self; line := line self; column := c;
     current_char := current_char self |}.

Definition set_symbol_table (t : gmap string SymbolEntry)
    (self : LexicalAnalyzer) : LexicalAnalyzer :=
  {| symbol_table := t; source := source self;
     pos := pos self; line := line self; column := column self;
     current_char := current_char self |}.

(** ** Exceptions and the state monad *)

Inductive exn : Type :=
  | LexicalError (message : string) (line column : Z)
  | ValueError
  | KeyError.

Inductive outcome (A : Type) : Type :=
  | Ok (a : A) (self : LexicalAnalyzer)
  | Raise (e : exn) (self : LexicalAnalyzer)
  | OutOfFuel.
Arguments Ok {A} a self.
Arguments Raise {A} e self.
Arguments OutOfFuel {A}.

Definition M (A : Type) : Type := LexicalAnalyzer -> outcome A.

Definition ret {A} (a : A) : M A := fun self => Ok a self.

Definition bind {A B} (m : M A) (k : A -> M B) : M B :=
  fun self =>
    match m self with
    | Ok a self' => k a self'
    | Raise e self' => Raise e self'
    | OutOfFuel => OutOfFuel
    end.

Definition raise {A} (e : exn) : M A := fun self => Raise e self.
Definition get : M LexicalAnalyzer := fun self => Ok self self.
Definition modify (f : LexicalAnalyzer -> LexicalAnalyzer) : M unit :=
  fun self => Ok tt (f self).

Notation "'do' x <- m ; k" := (bind m (fun x => k))
  (at level 10, x name, m at level 100, k at level 200).
Notation "m ;; k" := (bind m (fun _ => k))
  (at level 100, k at level 200, right associativity).

(** How a loop body ends: fall through to the next test of the condition,
    or leave the loop ([break], or [return] from the enclosing method). *)
Inductive ctl (A R : Type) : Type :=
  | Next (a : A)
  | Leave (r : R).
Arguments Next {A R} a.
Arguments Leave {A R} r.

(** [while cond: body], with the loop's local variables in [a]. *)
Fixpoint while {A R} (fuel : nat) (cond : LexicalAnalyzer -> bool)
    (body : A -> M (ctl A R)) (a : A) : M (ctl A R) :=
  fun self =>
    match fuel with
    | O => OutOfFuel
    | S fuel' =>
        if cond self then
          match body a self with
          | Ok (Next a') self' => while fuel' cond body a' self'
          | Ok (Leave r) self' => Ok (Leave r) self'
          | Raise e self' => Raise e self'
          | OutOfFuel => OutOfFuel
          end
        else Ok (Next a) self
    end.

(** Every loop of the analyzer consumes a character per iteration, so the
    length of the source plus two bounds the iterations of any of them. *)
Definition fuel_of (self : LexicalAnalyzer) : nat :=
  S (S (String.length (source self))).

(** ** Cursor *)

Definition advance : M unit := fun self =>
  if (String.length (source self) <=? pos self)%nat then
    Ok tt {| symbol_table := symbol_table self; source := source self;
             pos := pos self; line := line self; column := column self;
             current_char := None |}
  else
    Ok tt {| symbol_table := symbol_table self; source := source self;
             pos := S (pos self); line := line self;
             column := column self + 1;
             current_char := String.get (pos self) (source self) |}.

Definition init_scanner (src : string) : M unit := fun self =>
  advance {| symbol_table := symbol_table self; source := src;
             pos := 0; line := 1; column := 1;
             current_char := current_char self |}.

Definition peek (self : LexicalAnalyzer) : option ascii :=
  if (String.length (source self) <=? pos self)%nat then None
  else String.get (pos self) (source self).

(** [self.current_char and p(self.current_char)] *)
Definition cur_is (p : ascii -> bool) (self : LexicalAnalyzer) : bool :=
  match current_char self with
  | Some c => p c
  | None => false
  end.

Definition opt_is (c : ascii) (o : option ascii) : bool :=
  match o with
  | Some d => d =c c
  | None => false
  end.

(** [if b: m] *)
Definition when (b : bool) (m : M unit) : M unit :=
  if b then m else ret tt.

(** The statement pair [self.line += 1; self.column = 1]. *)
Definition count_newline : M unit :=
  modify (fun self => set_column 1 (set_line (line self + 1) self)).

(** ** Skipping whitespace and comments *)

Definition skip_whitespace : M unit := fun self =>
  (while (R := Empty_set) (fuel_of self) (cur_is isspace)
     (fun _ : unit =>
        do s <- get;
        when (opt_is newline (current_char s)) count_newline ;;
        advance ;;
        ret (Next tt))
     tt ;;
   ret tt) self.

Definition skip_comment : M unit := fun self =>
  if opt_is "/" (current_char self) && opt_is "/" (peek self) then
    (* single-line comment *)
    (while (R := Empty_set) (fuel_of self)
       (cur_is (fun c => negb (c =c newline)))
       (fun _ : unit => advance ;; ret (Next tt))
       tt ;;
     ret tt) self
  else if opt_is "/" (current_char self) && opt_is "*" (peek self) then
    (* multi-line comment *)
    (advance ;;
     advance ;;
     while (R := unit) (fuel_of self) (cur_is (fun _ => true))
       (fun _ : unit =>
          do s <- get;
          if opt_is "*" (current_char s) && opt_is "/" (peek s) then
            advance ;;
            advance ;;
            ret (Leave tt)
          else
            when (opt_is newline (current_char s)) count_newline ;;
            advance ;;
            ret (Next tt))
       tt ;;
     ret tt) self
  else Ok tt self.

(** ** Identifiers and keywords *)

(** [result += c] *)
Definition snoc (result : string) (c : ascii) : string :=
  result ++ String c "".

(** The two statements that touch [self.symbol_table]. *)
Definition record_occurrence (result : string) (loc : Z * Z)
    (table : gmap string SymbolEntry) : gmap string SymbolEntry :=
  let table1 :=
    match table !! result with
    | None => <[result := {| first_seen := loc; occurrences := [] |}]> table
    | Some _ => table
    end in
  match table1 !! result with
  | Some e =>
      <[result := {| first_seen := first_seen e;
                     occurrences := occurrences e ++ [loc] |}]> table1
  | None => table1
  end.

Definition read_identifier : M Token := fun self =>
  let start_column := column self in
  (do r <- while (R := Empty_set) (fuel_of self)
             (cur_is (fun c => isalnum c || (c =c "_")))
             (fun result : string =>
                do s <- get;
                match current_char s with
                | Some c => advance ;; ret (Next (snoc result c))
                | None => ret (Next result)
                end)
             "";
   match r with
   | Leave e => match e with end
   | Next result =>
       do s <- get;
       let token_type := default IDENTIFIER (keywords !! result) in
       let token := Token.mk token_type (VStr result) (line s) start_column in
       when (TokenType_eqb token_type IDENTIFIER)
         (modify (fun s' =>
            set_symbol_table
              (record_occurrence result (line s', start_column)
                 (symbol_table s')) s')) ;;
       ret token
   end) self.

(** ** Literals *)

(** The value of a string of decimal digits, most significant first;
    [None] when a character is not a decimal digit. *)
Fixpoint digits_value (acc : Z) (s : string) : option Z :=
  match s with
  | "" => Some acc
  | String c s' =>
      if isdecimal c
      then digits_value (10 * acc + Z.of_N (code c - 48)) s'
      else None
  end.

(** The number that a non-empty string of decimal digits denotes. *)
Definition numeral (s : string) : option Z :=
  match s with
  | "" => None
  | _ => digits_value 0 s
  end.

(** [sys.get_int_max_str_digits()], as CPython sets it by default: [int]
    refuses to convert a text of more digits. *)
Definition int_max_str_digits : nat := 4300.

(** [int(s)] for a string [s] of [isdigit] characters: [None] stands for
    [ValueError], which is raised for a character that is not a decimal
    digit and for a text of more than [int_max_str_digits] digits (leading
    zeros count). *)
Definition py_int (s : string) : option Z :=
  if (int_max_str_digits <? String.length s)%nat then None else numeral s.

(** The text before the first ['.'] and, when there is one, the text after
    it. *)
Fixpoint split_dot (s : string) : string * option string :=
  match s with
  | "" => ("", None)
  | String c s' =>
      if c =c "."
      then ("", Some s')
      else let '(i, f) := split_dot s' in (String c i, f)
  end.

(** The integer nearest to [p / q], for [0 <= p] and [0 < q]; of two that
    are equally near, the even one. *)
Definition round_half_even (p q : Z) : Z :=
  let d := p / q in
  match 2 * (p mod q) ?= q with
  | Lt => d
  | Eq => if Z.even d then d else d + 1
  | Gt => d + 1
  end.

(** Every finite binary64 number is a multiple [m * 2 ^ j] of [2 ^ -1074],
    the smallest positive one, with [m < 2 ^ 53] and [0 <= j].  For the
    number [P / q] of such units, [ulp_exponent P q] is the least [j] with
    [P / q < 2 ^ (53 + j)]: the exponent of the last bit of a 53-bit
    mantissa. *)
Definition ulp_exponent (P q : Z) : Z :=
  let j0 := Z.max 0 (Z.log2 P - Z.log2 q - 53) in
  if P <? q * 2 ^ (53 + j0) then j0 else j0 + 1.

(** The binary64 number nearest to [p / q], for [0 <= p] and [0 < q]: the
    correctly rounded conversion that CPython's [float] performs (round to
    nearest, ties to even, [inf] from [2 ^ 1024] on). *)
Definition binary64 (p q : Z) : Float :=
  let P := p * 2 ^ 1074 in
  let j := ulp_exponent P q in
  let k := round_half_even P (q * 2 ^ j) * 2 ^ j in
  if 2 ^ 2098 <=? k then Inf else Finite (Qred (k # 2 ^ 1074)).

(** [float(s)] for a string [s] of [isdigit] characters and dots: the
    binary64 number nearest to the decimal numeral, [None] for
    [ValueError].  [float] has no limit on the number of digits. *)
Definition py_float (s : string) : option Float :=
  match split_dot s with
  | (i, None) => n ← numeral i; Some (binary64 n 1)
  | (i, Some f) =>
      n ← numeral (i ++ f);
      Some (binary64 n (10 ^ Z.of_nat (String.length f)))
  end.

Definition read_number : M Token := fun self =>
  let start_column := column self in
  (do r <- while (R := Empty_set) (fuel_of self)
             (cur_is (fun c => isdigit c || (c =c ".")))
             (fun st : string * bool =>
                let '(result, is_float) := st in
                do s <- get;
                match current_char s with
                | Some c =>
                    if c =c "." then
                      if is_float then
                        raise (LexicalError "Invalid float literal"
                                 (line s) (column s))
                      else advance ;; ret (Next (snoc result c, true))
                    else advance ;; ret (Next (snoc result c, is_float))
                | None => ret (Next st)
                end)
             ("", false);
   match r with
   | Leave e => match e with end
   | Next (result, is_float) =>
       do s <- get;
       if is_float then
         match py_float result with
         | Some x => ret (Token.mk FLOAT_LITERAL (VFloat x) (line s) start_column)
         | None => raise ValueError
         end
       else
         match py_int result with
         | Some n => ret (Token.mk INTEGER (VInt n) (line s) start_column)
         | None => raise ValueError
         end
   end) self.

(** [c in {'n', 't', q, '\'}], false at the end of the input. *)
Definition is_escape (q : ascii) (o : option ascii) : bool :=
  match o with
  | Some c => (c =c "n") || (c =c "t") || (c =c q) || (c =c backslash)
  | None => false
  end.

Definition read_string : M Token := fun self =>
  let start_column := column self in
  (advance ;;
   do r <- while (R := Empty_set) (fuel_of self)
             (cur_is (fun c => negb (c =c dquote)))
             (fun result : string =>
                do s <- get;
                match current_char s with
                | Some c =>
                    if c =c backslash then
                      advance ;;
                      do s1 <- get;
                      match current_char s1 with
                      | Some e =>
                          if is_escape dquote (Some e) then
                            advance ;;
                            ret (Next (snoc (snoc result backslash) e))
                          else
                            raise (LexicalError "Invalid escape sequence"
                                     (line s1) (column s1))
                      | None =>
                          raise (LexicalError "Invalid escape sequence"
                                   (line s1) (column s1))
                      end
                    else advance ;; ret (Next (snoc result c))
                | None => ret (Next result)
                end)
             "";
   match r with
   | Leave e => match e with end
   | Next result =>
       do s <- get;
       match current_char s with
       | None =>
           raise (LexicalError "Unterminated string literal"
                    (line s) start_column)
       | Some _ =>
           advance ;;
           do s' <- get;
           ret (Token.mk STRING (VStr result) (line s') start_column)
       end
   end) self.

Definition read_char_literal : M Token := fun self =>
  let start_column := column self in
  (advance ;;
   do s <- get;
   match current_char s with
   | None =>
       raise (LexicalError "Unterminated character literal"
                (line s) start_column)
   | Some c =>
       do value <-
         (if c =c backslash then
            advance ;;
            do s1 <- get;
            match current_char s1 with
            | Some e =>
                if is_escape squote (Some e)
                then ret (String backslash (String e ""))
                else raise (LexicalError "Invalid escape sequence"
                              (line s1) (column s1))
            | None =>
                raise (LexicalError "Invalid escape sequence"
                         (line s1) (column s1))
            end
          else ret (String c ""));
       advance ;;
       do s2 <- get;
       if opt_is squote (current_char s2) then
         advance ;;
         do s3 <- get;
         ret (Token.mk CHAR_LITERAL (VStr value) (line s3) start_column)
       else
         raise (LexicalError "Unterminated character literal"
                  (line s2) start_column)
   end) self.

(** ** The scanner *)

Definition char_str (c : ascii) : string := String c "".

(** [self.operators[op]] *)
Definition operator_of (op : string) : M TokenType :=
  match operators !! op with
  | Some t => ret t
  | None => raise KeyError
  end.

Definition get_next_token : M Token := fun self =>
  (do r <- while (R := Token) (fuel_of self) (cur_is (fun _ => true))
             (fun _ : unit =>
                do s <- get;
                match current_char s with
                | None => ret (Next tt)
                | Some c =>
                    (* Skip whitespace and comments *)
                    if isspace c then skip_whitespace ;; ret (Next tt)
                    else if (c =c "/")
                            && (opt_is "/" (peek s) || opt_is "*" (peek s))
                    then skip_comment ;; ret (Next tt)
                    (* Identifier or keyword *)
                    else if isalpha c || (c =c "_") then
                      do t <- read_identifier; ret (Leave t)
                    (* Number *)
                    else if isdigit c then
                      do t <- read_number; ret (Leave t)
                    (* String literal *)
                    else if c =c dquote then
                      do t <- read_string; ret (Leave t)
                    (* Character literal *)
                    else if c =c squote then
                      do t <- read_char_literal; ret (Leave t)
                    (* Multi-character operators *)
                    else if ((c =c "=") || (c =c "!") || (c =c "<")
                             || (c =c ">"))
                            && opt_is "=" (peek s)
                    then
                      let op := snoc (char_str c) "=" in
                      advance ;;
                      advance ;;
                      do ty <- operator_of op;
                      do s' <- get;
                      ret (Leave (Token.mk ty (VStr op) (line s')
                                    (column s' - Z.of_nat (String.length op))))
                    (* Single-character operators and delimiters *)
                    else if bool_decide (is_Some (operators !! char_str c))
                    then
                      advance ;;
                      do ty <- operator_of (char_str c);
                      do s' <- get;
                      ret (Leave (Token.mk ty (VStr (char_str c)) (line s')
                                    (column s' - 1)))
                    (* Invalid character *)
                    else
                      raise (LexicalError ("Invalid character: " ++ char_str c)
                               (line s) (column s))
                end)
             tt;
   match r with
   | Leave t => ret t
   | Next _ =>
       do s <- get;
       ret (Token.mk EOF VNone (line s) (column s))
   end) self.

(** ** The driver *)

(** [str(n)] for an [int]. *)
Definition str_of_int (n : Z) : string := NilZero.string_of_int (Z.to_int n).

(** [str(e)] for a [LexicalError]. *)
Definition str_of_error (message : string) (line column : Z) : string :=
  message ++ " at line " ++ str_of_int line
          ++ ", column " ++ str_of_int column.

(** One round of the [while True] loop of [tokenize]. *)
Definition scan_body (tokens : list Token)
    : M (ctl (list Token) (list Token)) :=
  do token <- get_next_token;
  let tokens := (tokens ++ [token])%list in
  if TokenType_eqb (Token.type token) EOF
  then ret (Leave tokens)
  else ret (Next tokens).

(** The body of the [try] block of [tokenize], after [init_scanner]. *)
Definition scan_all : M (list Token) := fun self =>
  (do r <- while (fuel_of self) (fun _ => true) scan_body [];
   match r with
   | Leave tokens => ret tokens
   | Next tokens => ret tokens
   end) self.

(** [tokenize] returns a list of tokens; what it writes with [print] is
    returned next to it, one string a line.  Only [LexicalError] is caught. *)
Definition tokenize (src : string) : M (list Token * list string) :=
  fun self =>
    match (init_scanner src ;; scan_all) self with
    | Ok tokens self' => Ok (tokens, []) self'
    | Raise (LexicalError message l c) self' =>
        Ok ([], ["Lexical Error: " ++ str_of_error message l c]) self'
    | Raise e self' => Raise e self'
    | OutOfFuel => OutOfFuel
    end.

(** The driver run by a freshly constructed analyzer. *)
Definition tokens_of (src : string) : outcome (list Token * list string) :=
  tokenize src new.

(** What a call hands back, without the final state of the analyzer. *)
Definition result {A} (o : outcome A) : option (A + exn) :=
  match o with
  | Ok a _ => Some (inl a)
  | Raise e _ => Some (inr e)
  | OutOfFuel => None
  end.

Definition final {A} (o : outcome A) : option LexicalAnalyzer :=
  match o with
  | Ok _ self | Raise _ self => Some self
  | OutOfFuel => None
  end.

(** ** Vocabulary of the specification *)

(** The text the cursor has not consumed yet: the current character and
    everything after it. *)
Fixpoint string_drop (n : nat) (s : string) : string :=
  match n, s with
  | O, _ => s
  | S _, "" => ""
  | S n', String _ s' => string_drop n' s'
  end.

Definition pending (self : LexicalAnalyzer) : string :=
  match current_char self with
  | None => ""
  | Some c => String c (string_drop (pos self) (source self))
  end.

Definition shead (s : string) : option ascii :=
  match s with
  | "" => None
  | String c _ => Some c
  end.

Fixpoint string_forall (p : ascii -> bool) (s : string) : bool :=
  match s with
  | "" => true
  | String c t => p c && string_forall p t
  end.

(** Total correctness of one call: it returns or raises, and the result
    and final state satisfy [Q] or [E]. *)
Definition opost {A} (o : outcome A)
    (Q : A -> LexicalAnalyzer -> Prop) (E : exn -> LexicalAnalyzer -> Prop)
    : Prop :=
  match o with
  | Ok a self' => Q a self'
  | Raise e self' => E e self'
  | OutOfFuel => False
  end.

(** Two outcomes that differ at most in analyzer states related by [R]. *)
Definition orel {A} (R : LexicalAnalyzer -> LexicalAnalyzer -> Prop)
    (o1 o2 : outcome A) : Prop :=
  match o1, o2 with
  | Ok a s1, Ok b s2 => a = b /\ R s1 s2
  | Raise e s1, Raise e' s2 => e = e' /\ R s1 s2
  | OutOfFuel, OutOfFuel => True
  | _, _ => False
  end.

(** Equal cursors, and symbol tables related by [P]. *)
Definition same_cursor (P : relation (gmap string SymbolEntry))
    (s1 s2 : LexicalAnalyzer) : Prop :=
  source s1 = source s2 /\ pos s1 = pos s2 /\ line s1 = line s2
  /\ column s1 = column s2 /\ current_char s1 = current_char s2
  /\ P (symbol_table s1) (symbol_table s2).

(** [t'] keeps every entry of [t], with its [first_seen], and only extends
    occurrence lists. *)
Definition table_grows (t t' : gmap string SymbolEntry) : Prop :=
  forall w e, t !! w = Some e ->
    exists e', t' !! w = Some e' /\ first_seen e' = first_seen e
               /\ exists more, occurrences e' = (occurrences e ++ more)%list.

(** Successive calls of [get_next_token] that return the tokens [ts], none
    of them [EOF]. *)
Inductive scanned : LexicalAnalyzer -> list Token -> LexicalAnalyzer -> Prop :=
  | scanned_nil self : scanned self [] self
  | scanned_cons self t self1 ts self2 :
      get_next_token self = Ok t self1 ->
      Token.type t <> EOF ->
      scanned self1 ts self2 ->
      scanned self (t :: ts) self2.

(** The source with whitespace and comments removed, for text without
    string and character literals: one pass that remembers whether it is in
    code, in a [//] comment, or in a [/* */] comment (just opened, inside,
    or closing). *)
Inductive strip_mode : Set :=
  | Code | LineComment | BlockOpen | BlockComment | BlockClose.

Fixpoint strip (m : strip_mode) (s : string) : string :=
  match s with
  | "" => ""
  | String c t =>
      match m with
      | Code =>
          if isspace c then strip Code t
          else if (c =c "/") && opt_is "/" (shead t) then strip LineComment t
          else if (c =c "/") && opt_is "*" (shead t) then strip BlockOpen t
          else String c (strip Code t)
      | LineComment =>
          if c =c newline then strip Code t else strip LineComment t
      | BlockOpen => strip BlockComment t
      | BlockComment =>
          if (c =c "*") && opt_is "/" (shead t) then strip BlockClose t
          else strip BlockComment t
      | BlockClose => strip Code t
      end
  end.

(** [s] contains the two-character sequence that closes a block comment. *)
Fixpoint has_close (s : string) : bool :=
  match s with
  | "" => false
  | String c t => ((c =c "*") && opt_is "/" (shead t)) || has_close t
  end.

(** Text made of whitespace and well-formed comments only: a [//] comment
    runs to a newline or to the end of the text, a [/* */] comment to the
    first closing sequence. *)
Inductive blank : string -> Prop :=
  | blank_empty : blank ""
  | blank_space c rest :
      isspace c = true -> blank rest -> blank (String c rest)
  | blank_line body rest :
      string_forall (fun c => negb (c =c newline)) body = true ->
      rest = "" \/ shead rest = Some newline ->
      blank rest ->
      blank ("//" ++ body ++ rest)
  | blank_block body rest :
      has_close body = false ->
      blank rest ->
      blank ("/*" ++ body ++ "*/" ++ rest).

(** Keywords, identifiers, operators and delimiters: the tokens whose
    [value] is the text they were read from. *)
Definition verbatim (ty : TokenType) : bool :=
  match ty with
  | INTEGER | FLOAT_LITERAL | STRING | CHAR_LITERAL | EOF | ERROR => false
  | _ => true
  end.

Definition lexeme (t : Token) : string :=
  match Token.value t with
  | VStr w => w
  | _ => ""
  end.

(** What the symbol table becomes when the tokens [ts] are scanned. *)
Definition record_token (table : gmap string SymbolEntry) (t : Token)
    : gmap string SymbolEntry :=
  match Token.type t with
  | IDENTIFIER =>
      record_occurrence (lexeme t) (Token.line t, Token.column t) table
  | _ => table
  end.

(** The characters an identifier continues with. *)
Definition identchar (c : ascii) : bool := isalnum c || (c =c "_").

(** The messages of the lexical errors: invalid float literal, invalid
    escape sequence, unterminated string literal, unterminated character
    literal, invalid character. *)
Inductive lexical_error_kind : string -> Prop :=
  | InvalidFloatLiteral : lexical_error_kind "Invalid float literal"
  | InvalidEscapeSequence : lexical_error_kind "Invalid escape sequence"
  | UnterminatedStringLiteral :
      lexical_error_kind "Unterminated string literal"
  | UnterminatedCharLiteral :
      lexical_error_kind "Unterminated character literal"
  | InvalidCharacter c :
      lexical_error_kind ("Invalid character: " ++ char_str c).

(** The exceptions a scan can end with. *)
Definition scan_error (e : exn) : Prop :=
  match e with
  | LexicalError message _ _ => lexical_error_kind message
  | ValueError => True
  | KeyError => False
  end.

(** What one successful call of [get_next_token] guarantees, from [self]
    to [self']. *)
Definition token_post (self : LexicalAnalyzer) (tok : Token)
    (self' : LexicalAnalyzer) : Prop :=
  source self' = source self
  /\ symbol_table self' = record_token (symbol_table self) tok
  /\ (String.length (pending self') <= String.length (pending self))%nat
  /\ (Token.type tok = EOF ->
      strip Code (pending self) = "" /\ pending self' = ""
      /\ Token.value tok = VNone)
  /\ (Token.type tok <> EOF ->
      (String.length (pending self') < String.length (pending self))%nat
      /\ strip Code (pending self) <> "")
  /\ (verbatim (Token.type tok) = true ->
      strip Code (pending self) = lexeme tok ++ strip Code (pending self'))
  /\ Token.type tok <> ERROR.

(** What a call of [get_next_token] that raises guarantees. *)
Definition error_post (self : LexicalAnalyzer) (e : exn)
    (self' : LexicalAnalyzer) : Prop :=
  source self' = source self
  /\ symbol_table self' = symbol_table self
  /\ strip Code (pending self) <> ""
  /\ scan_error e.

(** The state [self1] is reached from [self] by skipping whitespace and
    comments. *)
Definition skipped (self self1 : LexicalAnalyzer) : Prop :=
  source self1 = source self
  /\ symbol_table self1 = symbol_table self
  /\ strip Code (pending self1) = strip Code (pending self)
  /\ (String.length (pending self1) <= String.length (pending self))%nat.

(** The concatenation of the values of the tokens [ts]. *)
Definition lexemes (ts : list Token) : string :=
  fold_right (fun t acc => lexeme t ++ acc) "" ts.

(** A source of blanks and comments only. *)
Definition sample_blank : string :=
  String " " ("// note" ++ String newline ("/* a" ++ String newline " * b */")).

(** The symbol table an outcome leaves behind. *)
Definition table_of {A} (o : outcome A) : option (gmap string SymbolEntry) :=
  symbol_table <$> final o.

(** How many occurrences the table has for the lexeme [w]. *)
Definition occurrence_count (self : LexicalAnalyzer) (w : string) : option nat :=
  (fun e => length (occurrences e)) <$> symbol_table self !! w.

(** The list [tokenize] returns, when it returns. *)
Definition returned (o : outcome (list Token * list string))
    : option (list Token) :=
  match o with
  | Ok (tokens, _) _ => Some tokens
  | _ => None
  end.

(** [init_scanner] followed by the [try] block: what [tokenize] runs before
    its [except] clause. *)
Definition scanning (src : string) : M (list Token) :=
  init_scanner src ;; scan_all.

(** The analyzer right after [init_scanner src], run by a fresh analyzer. *)
Definition start (src : string) : LexicalAnalyzer :=
  match init_scanner src new with
  | Ok _ self => self
  | _ => new
  end.

(** The scenario of the specification: a comment line, then [int y;]. *)
Definition comment_then_int_y : string :=
  "// comment" ++ String newline "int y;".

(** How the text after an opening quote is read as a literal: the value of
    the token and the text after the closing quote, or one of the two
    failures. *)
Inductive literal_scan : Type :=
  | Closed (value rest : string)
  | BadEscape
  | Unterminated.

Definition with_prefix (p : string) (r : literal_scan) : literal_scan :=
  match r with
  | Closed value rest => Closed (p ++ value) rest
  | _ => r
  end.

(** A string literal, from the character after the opening quote. *)
Fixpoint string_literal (l : string) : literal_scan :=
  match l with
  | "" => Unterminated
  | String c t =>
      if c =c dquote then Closed "" t
      else if c =c backslash then
        match t with
        | "" => BadEscape
        | String e t' =>
            if is_escape dquote (Some e)
            then with_prefix (String backslash (String e ""))
                   (string_literal t')
            else BadEscape
        end
      else with_prefix (String c "") (string_literal t)
  end.

(** A character literal, from the character after the opening quote: one
    character or one escape, then the closing quote. *)
Definition char_literal (l : string) : literal_scan :=
  match l with
  | "" => Unterminated
  | String c t =>
      if c =c backslash then
        match t with
        | "" => BadEscape
        | String e t' =>
            if is_escape squote (Some e) then
              match t' with
              | String q rest =>
                  if q =c squote
                  then Closed (String backslash (String e "")) rest
                  else Unterminated
              | "" => Unterminated
              end
            else BadEscape
        end
      else
        match t with
        | String q rest =>
            if q =c squote then Closed (String c "") rest else Unterminated
        | "" => Unterminated
        end
  end.

(** The outcome [o] of reading a literal of type [ty] from the analyzer
    [self] is the one described by [r]. *)
Definition literal_outcome (ty : TokenType) (unterminated : string)
    (self : LexicalAnalyzer) (r : literal_scan) (o : outcome Token) : Prop :=
  match r with
  | Closed value rest =>
      exists self',
        o = Ok (Token.mk ty (VStr value) (line self) (column self)) self'
        /\ pending self' = rest /\ line self' = line self
  | BadEscape =>
      exists l c self',
        o = Raise (LexicalError "Invalid escape sequence" l c) self'
  | Unterminated =>
      exists self',
        o = Raise (LexicalError unterminated (line self) (column self)) self'
  end.

(** Characters that stand for themselves inside a string literal. *)
Definition string_char (c : ascii) : bool :=
  negb (c =c dquote) && negb (c =c backslash).

(** A string literal with a raw newline in it, a newline, and [x]. *)
Definition string_over_two_lines_then_x : string :=
  String dquote ("a" ++ String newline ("b" ++ String dquote (String newline "x"))).

(** The characters [read_number] consumes. *)
Definition number_char (c : ascii) : bool := isdigit c || (c =c ".").

(** The string literal ["a"], quotes included, as a source. *)
Definition quoted_a : string := String dquote ("a" ++ String dquote "").

(** A source without literals, with blanks and both kinds of comment. *)
Definition sample_code : string :=
  "if (x<=y) /* c */ x = y; // done".

(** The tokens [tokenize] returns for [src], run by a fresh analyzer. *)
Definition returned_tokens (src : string) : list Token :=
  default [] (returned (tokenize src new)).

(** The locations at which the tokens [ts] have the identifier [w]. *)
Definition locations_of (w : string) (ts : list Token) : list (Z * Z) :=
  map (fun t => (Token.line t, Token.column t))
    (List.filter (fun t => TokenType_eqb (Token.type t) IDENTIFIER
                           && String.eqb (lexeme t) w) ts).

(** An entry, or none, after the locations [locs] are recorded in order. *)
Definition extend_entry (o : option SymbolEntry) (locs : list (Z * Z))
    : option SymbolEntry :=
  match locs, o with
  | [], _ => o
  | L :: _, None => Some {| first_seen := L; occurrences := locs |}
  | _, Some e =>
      Some {| first_seen := first_seen e;
              occurrences := occurrences e ++ locs |}
  end.

(** The finite binary64 numbers that are not negative: [m * 2 ^ e] with a
    mantissa [m] of at most 53 bits and an exponent [e] from -1074 to
    971. *)
Definition binary64_number (m e : Z) (y : Q) : Prop :=
  0 <= m < 2 ^ 53 /\ -1074 <= e <= 971
  /\ (y == inject_Z m * Qpower 2 e)%Q.

(** The mantissa is as large as the exponent range allows: this is the
    writing of a number whose mantissa decides a tie. *)
Definition normal (m e : Z) : Prop := 2 ^ 52 <= m \/ e = -1074.

(** Rounding to nearest, ties to even: [v] is the float of the rational
    [x >= 0].  It is [inf] from [2 ^ 1024 - 2 ^ 970] on, half way between
    the largest finite number and [2 ^ 1024]; below, it is a binary64 number
    than which none is nearer to [x], and if another is as near, the one
    with the even mantissa. *)
Definition rounds_to (x : Q) (v : Float) : Prop :=
  match v with
  | Inf => (inject_Z (2 ^ 1024 - 2 ^ 970) <= x)%Q
  | Finite y =>
      (x < inject_Z (2 ^ 1024 - 2 ^ 970))%Q
      /\ Qred y = y
      /\ exists m e,
           binary64_number m e y /\ normal m e
           /\ forall m' e' z,
                binary64_number m' e' z ->
                (Qabs (y - x) <= Qabs (z - x))%Q
                /\ ((Qabs (y - x) == Qabs (z - x))%Q ->
                    (z == y)%Q \/ Z.even m = true)
  end.

(** ** Vocabulary of further properties *)

(** An entry whose occurrence list starts with its [first_seen]. *)
Definition entry_ok (e : SymbolEntry) : Prop :=
  hd_error (occurrences e) = Some (first_seen e).

Definition table_ok (t : gmap string SymbolEntry) : Prop :=
  forall w e, t !! w = Some e -> entry_ok e.

(** The analyzer a fresh analyzer has become after [tokenize src]. *)
Definition final_state (src : string) : LexicalAnalyzer :=
  default new (final (tokenize src new)).

(** The text [c :: rest] starts a comment. *)
Definition opens_comment (c : ascii) (rest : string) : bool :=
  (c =c "/") && (opt_is "/" (shead rest) || opt_is "*" (shead rest)).

(** The text [c :: rest] starts one of [==], [!=], [<=], [>=]. *)
Definition opens_comparison (c : ascii) (rest : string) : bool :=
  ((c =c "=") || (c =c "!") || (c =c "<") || (c =c ">"))
  && opt_is "=" (shead rest).

(** The type of the two-character operator that starts with [c]. *)
Definition comparison_of (c : ascii) : TokenType :=
  if c =c "=" then EQ
  else if c =c "!" then NE
  else if c =c "<" then LE
  else GE.

(** The column the scanner reports for an operator that starts at column
    [col] and is followed by [rest]. *)
Definition operator_column (col : Z) (rest : string) : Z :=
  match rest with
  | "" => col - 1
  | _ => col
  end.

(** A character with which no token, blank or comment starts, given the
    character after it. *)
Definition starts_nothing (c : ascii) (rest : string) : bool :=
  negb (isspace c)
  && negb (isalpha c || (c =c "_"))
  && negb (isdigit c)
  && negb (c =c dquote) && negb (c =c squote)
  && negb (opens_comparison c rest)
  && bool_decide (operators !! char_str c = None).

(** How [read_number] reads the text at the cursor: the characters it
    takes, whether a point is among them, and the text it leaves; or the
    number of characters before a second point. *)
Inductive number_run : Type :=
  | NumberText (text : string) (is_float : bool) (rest : string)
  | SecondPoint (before : nat).

Definition number_push (c : ascii) (r : number_run) : number_run :=
  match r with
  | NumberText text is_float rest => NumberText (String c text) is_float rest
  | SecondPoint before => SecondPoint (S before)
  end.

Fixpoint number_scan (is_float : bool) (l : string) : number_run :=
  match l with
  | "" => NumberText "" is_float ""
  | String c t =>
      if c =c "." then
        if is_float then SecondPoint 0
        else number_push c (number_scan true t)
      else if isdigit c then number_push c (number_scan is_float t)
      else NumberText "" is_float l
  end.

(** [number_push] for a whole prefix. *)
Fixpoint number_pushes (p : string) (r : number_run) : number_run :=
  match p with
  | "" => r
  | String c p' => number_push c (number_pushes p' r)
  end.

(** The number of newline characters of a text. *)
Fixpoint newlines (l : string) : Z :=
  match l with
  | "" => 0
  | String c t => (if c =c newline then 1 else 0) + newlines t
  end.

(** From [self] to [self'] the scanner has consumed a prefix of the pending
    text and has counted the newlines in it. *)
Definition counted (self self' : LexicalAnalyzer) : Prop :=
  exists consumed,
    pending self = consumed ++ pending self'
    /\ line self' = line self + newlines consumed.

(** Tokens other than string and character literals. *)
Definition no_quotes (t : Token) : Prop :=
  Token.type t <> STRING /\ Token.type t <> CHAR_LITERAL.

(** What one successful call of [get_next_token] guarantees about lines and
    about the identifiers it reports. *)
Definition line_post (self : LexicalAnalyzer) (tok : Token)
    (self' : LexicalAnalyzer) : Prop :=
  Token.line tok = line self'
  /\ (no_quotes tok -> counted self self')
  /\ (Token.type tok = IDENTIFIER -> keywords !! lexeme tok = None).

(** Two lines with a comment and blank lines between the words. *)
Definition words_on_lines_1_and_4 : string :=
  "a // one" ++ String newline ("/* two" ++ String newline ("three */"
    ++ String newline "b")).

(** * Properties *)

(** ** Running the model *)

Example scenario_int_x :
  exists self,
    tokens_of "int x = 10;" =
      Ok ([ Token.mk INT (VStr "int") 1 2;
            Token.mk IDENTIFIER (VStr "x") 1 6;
            Token.mk ASSIGN (VStr "=") 1 8;
            Token.mk INTEGER (VInt 10) 1 10;
            Token.mk SEMICOLON (VStr ";") 1 11;
            Token.mk EOF VNone 1 12 ], []) self.
Proof. eexists. vm_compute. reflexivity. Qed.

(** ** The cursor in terms of the pending text *)

Lemma get_string_drop n s : String.get n s = shead (string_drop n s).
Proof.
  revert n; induction s as [|c s IH]; intros [|n]; simpl; auto.
Qed.

Lemma string_drop_end n s :
  (String.length s <=? n)%nat = true -> string_drop n s = "".
Proof.
  revert n; induction s as [|c s IH]; intros [|n]; simpl; auto; discriminate.
Qed.

Lemma string_drop_inside n s :
  (String.length s <=? n)%nat = false ->
  exists c, string_drop n s = String c (string_drop (S n) s).
Proof.
  revert n; induction s as [|c s IH]; intros [|n]; simpl; try discriminate.
  - intros _. exists c. reflexivity.
  - intros H. apply (IH n H).
Qed.

Lemma length_string_drop n s :
  (String.length (string_drop n s) <= String.length s)%nat.
Proof.
  revert n; induction s as [|c s IH]; intros [|n]; simpl; auto.
  all: try (specialize (IH n); lia).
Qed.

Lemma length_pending self :
  (String.length (pending self) <= S (String.length (source self)))%nat.
Proof.
  unfold pending. destruct (current_char self); simpl; [|lia].
  pose proof (length_string_drop (pos self) (source self)). lia.
Qed.

Lemma current_char_pending self : current_char self = shead (pending self).
Proof. unfold pending. now destruct (current_char self). Qed.

Lemma cur_is_pending p self :
  cur_is p self = match pending self with "" => false | String c _ => p c end.
Proof. unfold cur_is, pending. now destruct (current_char self). Qed.

Lemma peek_pending self c rest :
  pending self = String c rest -> peek self = shead rest.
Proof.
  unfold pending, peek. destruct (current_char self); [|discriminate].
  intros [= _ <-].
  destruct (String.length (source self) <=? pos self)%nat eqn:E.
  - now rewrite string_drop_end.
  - apply get_string_drop.
Qed.

(** [advance] at a current character: the pending text loses its head; the
    column moves on unless the end of the source has been reached. *)
Lemma advance_pending self c rest :
  pending self = String c rest ->
  exists self',
    advance self = Ok tt self' /\ pending self' = rest
    /\ source self' = source self /\ line self' = line self
    /\ symbol_table self' = symbol_table self
    /\ column self' = match rest with "" => column self | _ => column self + 1 end.
Proof.
  unfold pending at 1. destruct (current_char self); [|discriminate].
  intros [= _ <-]. unfold advance.
  destruct (String.length (source self) <=? pos self)%nat eqn:E.
  - eexists; split; [reflexivity|]. unfold pending; simpl.
    rewrite string_drop_end by exact E. auto.
  - eexists; split; [reflexivity|]. unfold pending; simpl.
    destruct (string_drop_inside _ _ E) as [d Hd].
    rewrite get_string_drop, Hd. simpl. auto.
Qed.

(** ** Rules for total correctness *)

Lemma opost_mono {A} (o : outcome A) (Q Q' : A -> LexicalAnalyzer -> Prop)
    (E E' : exn -> LexicalAnalyzer -> Prop) :
  opost o Q E ->
  (forall a s, Q a s -> Q' a s) -> (forall e s, E e s -> E' e s) ->
  opost o Q' E'.
Proof. destruct o; simpl; auto. Qed.

Lemma opost_bind {A B} (m : M A) (k : A -> M B) self Q E :
  opost (m self) (fun a s => opost (k a s) Q E) E ->
  opost (bind m k self) Q E.
Proof. unfold bind. destruct (m self); simpl; auto. Qed.

Lemma opost_advance self c rest (Q : unit -> LexicalAnalyzer -> Prop) E :
  pending self = String c rest ->
  (forall self',
      pending self' = rest -> source self' = source self ->
      line self' = line self -> symbol_table self' = symbol_table self ->
      column self' = match rest with "" => column self | _ => column self + 1 end ->
      Q tt self') ->
  opost (advance self) Q E.
Proof.
  intros Hp HQ. destruct (advance_pending _ _ _ Hp) as (s' & -> & H).
  simpl. apply HQ; tauto.
Qed.

Lemma opost_while {A R} (I : A -> LexicalAnalyzer -> Prop)
    (Q : ctl A R -> LexicalAnalyzer -> Prop) E cond (body : A -> M (ctl A R)) :
  (forall a s, I a s -> cond s = true ->
     opost (body a s)
       (fun r s' =>
          match r with
          | Next a' =>
              I a' s'
              /\ (String.length (pending s') < String.length (pending s))%nat
          | Leave _ => Q r s'
          end) E) ->
  (forall a s, I a s -> cond s = false -> Q (Next a) s) ->
  forall fuel a s,
    I a s -> (String.length (pending s) < fuel)%nat ->
    opost (while fuel cond body a s) Q E.
Proof.
  intros Hbody Hexit. induction fuel as [|fuel IH]; intros a s HI Hf; [lia|].
  simpl. destruct (cond s) eqn:Hc.
  - specialize (Hbody a s HI Hc). destruct (body a s) as [[a'|r] s'|e s'|];
      simpl in *; auto.
    destruct Hbody as [HI' Hlt]. apply IH; [exact HI'|lia].
  - simpl. now apply Hexit.
Qed.

Lemma fuel_of_enough s0 s :
  source s = source s0 -> (String.length (pending s) < fuel_of s0)%nat.
Proof.
  intros H. pose proof (length_pending s). unfold fuel_of. rewrite <- H. lia.
Qed.

Arguments while : simpl never.
Arguments fuel_of : simpl never.
Arguments advance : simpl never.

Lemma opost_ret {A} (a : A) s (Q : A -> LexicalAnalyzer -> Prop) E :
  Q a s -> opost (ret a s) Q E.
Proof. auto. Qed.

Lemma opost_raise {A} e s (Q : A -> LexicalAnalyzer -> Prop)
    (E : exn -> LexicalAnalyzer -> Prop) :
  E e s -> opost (raise (A := A) e s) Q E.
Proof. auto. Qed.

Lemma opost_bind_get {B} (k : LexicalAnalyzer -> M B) s Q E :
  opost (k s s) Q E -> opost (bind get k s) Q E.
Proof. auto. Qed.

Lemma opost_bind_modify {B} f (k : unit -> M B) s Q E :
  opost (k tt (f s)) Q E -> opost (bind (modify f) k s) Q E.
Proof. auto. Qed.

Lemma opost_bind_ret {A B} (a : A) (k : A -> M B) s Q E :
  opost (k a s) Q E -> opost (bind (ret a) k s) Q E.
Proof. auto. Qed.

Lemma opost_bind_when {B} (b : bool) (m : M unit) (k : unit -> M B) s Q E :
  (b = true -> opost (bind m k s) Q E) ->
  (b = false -> opost (k tt s) Q E) ->
  opost (bind (when b m) k s) Q E.
Proof. destruct b; simpl; auto. Qed.

Ltac splits := repeat match goal with |- _ /\ _ => split end.

Ltac ostep :=
  lazymatch goal with
  | |- opost (bind get _ _) _ _ => apply opost_bind_get
  | |- opost (bind (ret _) _ _) _ _ => apply opost_bind_ret
  | |- opost (bind (modify _) _ _) _ _ => apply opost_bind_modify
  | |- opost (ret _ _) _ _ => apply opost_ret; cbv beta iota
  | |- opost (raise _ _) _ _ => apply opost_raise; cbv beta iota
  | |- opost (Ok _ _) _ _ => unfold opost; cbv beta iota
  | |- opost (Raise _ _) _ _ => unfold opost; cbv beta iota
  end.

Lemma strip_space c rest :
  isspace c = true -> strip Code (String c rest) = strip Code rest.
Proof. intros H. simpl. now rewrite H. Qed.

Lemma skip_whitespace_spec s :
  opost (skip_whitespace s)
    (fun _ s' =>
       source s' = source s /\ symbol_table s' = symbol_table s
       /\ strip Code (pending s') = strip Code (pending s)
       /\ (String.length (pending s') <= String.length (pending s))%nat
       /\ (cur_is isspace s = true ->
           (String.length (pending s') < String.length (pending s))%nat))
    (fun _ _ => False).
Proof.
  unfold skip_whitespace. apply opost_bind.
  eapply opost_mono;
    [ apply (opost_while
        (fun _ s' =>
           source s' = source s /\ symbol_table s' = symbol_table s
           /\ strip Code (pending s') = strip Code (pending s)
           /\ (String.length (pending s') <= String.length (pending s))%nat
           /\ (s' = s \/ (String.length (pending s') < String.length (pending s))%nat))
        (fun _ s' =>
           source s' = source s /\ symbol_table s' = symbol_table s
           /\ strip Code (pending s') = strip Code (pending s)
           /\ (String.length (pending s') <= String.length (pending s))%nat
           /\ (cur_is isspace s = true ->
               (String.length (pending s') < String.length (pending s))%nat))
        (fun _ _ => False))
    | | ].
  - intros [] s1 (Hs & Ht & Hst & Hle & Hor) Hc.
    rewrite cur_is_pending in Hc.
    destruct (pending s1) as [|c rest] eqn:Hp; [discriminate|].
    ostep. apply opost_bind_when; intros Hnl.
    + unfold count_newline. ostep.
      apply opost_bind. eapply opost_advance; [exact Hp|].
      intros s2 Hp2 Hs2 Hl2 Ht2 Hc2. ostep.
      rewrite strip_space in Hst by exact Hc. simpl in *. rewrite Hp2.
      repeat split; try congruence; simpl; lia.
    + apply opost_bind. eapply opost_advance; [exact Hp|].
      intros s2 Hp2 Hs2 Hl2 Ht2 Hc2. ostep.
      rewrite strip_space in Hst by exact Hc. simpl in *. rewrite Hp2.
      repeat split; try congruence; simpl; lia.
  - intros [] s1 (Hs & Ht & Hst & Hle & Hor) Hc. repeat split; auto.
    intros Hc0. destruct Hor as [->|]; [congruence|auto].
  - auto 10.
  - apply fuel_of_enough. reflexivity.
  - intros [[]|[]] s1 H. ostep. exact H.
  - auto.
Qed.

Tactic Notation "oadvance" constr(Hp) "as" ident(s) ident(Hp') ident(Hs)
    ident(Hl) ident(Ht) ident(Hc) :=
  apply opost_bind; eapply opost_advance;
  [ exact Hp | intros s Hp' Hs Hl Ht Hc ].

Lemma opt_is_true c o : opt_is c o = true <-> o = Some c.
Proof.
  destruct o as [d|]; simpl; [|split; discriminate].
  rewrite Ascii.eqb_eq. split; congruence.
Qed.

Lemma skip_comment_spec s c2 rest :
  pending s = String "/" (String c2 rest) ->
  c2 = "/"%char \/ c2 = "*"%char ->
  opost (skip_comment s)
    (fun _ s' =>
       source s' = source s /\ symbol_table s' = symbol_table s
       /\ strip Code (pending s') = strip Code (pending s)
       /\ (String.length (pending s') < String.length (pending s))%nat)
    (fun _ _ => False).
Proof.
  intros Hp Hc2. unfold skip_comment.
  match goal with |- opost _ ?Q _ => set (post := Q) end.
  rewrite current_char_pending, (peek_pending _ _ _ Hp), Hp. simpl.
  destruct Hc2 as [-> | ->]; simpl; subst post.
  - (* single-line comment *)
    apply opost_bind.
    eapply opost_mono;
      [ apply (opost_while
          (fun _ s' =>
             source s' = source s /\ symbol_table s' = symbol_table s
             /\ strip LineComment (pending s') = strip Code (pending s)
             /\ (s' = s \/ (String.length (pending s') < String.length (pending s))%nat))
          (fun _ s' =>
             source s' = source s /\ symbol_table s' = symbol_table s
             /\ strip Code (pending s') = strip Code (pending s)
             /\ (String.length (pending s') < String.length (pending s))%nat)
          (fun _ _ => False))
      | | ].
    + intros [] s1 (Hs & Ht & Hst & Hor) Hc.
      rewrite cur_is_pending in Hc.
      destruct (pending s1) as [|c r1] eqn:Hp1; [discriminate|].
      oadvance Hp1 as s2 Hp2 Hs2 Hl2 Ht2 Hc2. ostep.
      simpl in Hst. apply negb_true_iff in Hc. rewrite Hc in Hst.
      simpl. rewrite Hp2. repeat split; try congruence.
      * right. destruct Hor as [->|Hlt]; [rewrite Hp1|]; simpl; [lia|].
        simpl in Hlt. lia.
      * simpl. lia.
    + intros [] s1 (Hs & Ht & Hst & Hor) Hc.
      rewrite cur_is_pending in Hc.
      assert (Hnot : s1 <> s).
      { intros ->. rewrite Hp in Hc. discriminate. }
      destruct Hor as [?|Hlt]; [contradiction|].
      repeat split; auto.
      rewrite <- Hst. destruct (pending s1) as [|c r1]; [reflexivity|].
      apply negb_false_iff in Hc. apply Ascii.eqb_eq in Hc. subst c.
      reflexivity.
    + rewrite Hp. simpl. auto 10.
    + apply fuel_of_enough. reflexivity.
    + intros [[]|[]] s1 H. ostep. exact H.
    + auto.
  - (* multi-line comment *)
    oadvance Hp as s1 Hp1 Hs1 Hl1 Ht1 Hc1.
    oadvance Hp1 as s2 Hp2 Hs2 Hl2 Ht2 Hc2.
    apply opost_bind.
    eapply opost_mono;
      [ apply (opost_while
          (fun _ s' =>
             source s' = source s /\ symbol_table s' = symbol_table s
             /\ strip BlockComment (pending s') = strip Code (pending s)
             /\ (String.length (pending s') < String.length (pending s))%nat)
          (fun _ s' =>
             source s' = source s /\ symbol_table s' = symbol_table s
             /\ strip Code (pending s') = strip Code (pending s)
             /\ (String.length (pending s') < String.length (pending s))%nat)
          (fun _ _ => False))
      | | ].
    + intros [] s3 (Hs & Ht & Hst & Hlt) Hc.
      rewrite cur_is_pending in Hc.
      destruct (pending s3) as [|c r3] eqn:Hp3; [discriminate|].
      ostep. rewrite current_char_pending, (peek_pending _ _ _ Hp3), Hp3.
      simpl in Hst. simpl.
      destruct ((c =c "*") && opt_is "/" (shead r3)) eqn:Hclose.
      * apply andb_true_iff in Hclose. destruct Hclose as [_ Hsl].
        apply opt_is_true in Hsl.
        destruct r3 as [|c' r4]; [discriminate|]. injection Hsl as ->.
        oadvance Hp3 as s4 Hp4 Hs4 Hl4 Ht4 Hc4.
        oadvance Hp4 as s5 Hp5 Hs5 Hl5 Ht5 Hc5. ostep.
        simpl in Hst, Hlt. simpl. rewrite Hp5.
        repeat split; try congruence. lia.
      * apply opost_bind_when; intros Hnl.
        -- unfold count_newline. ostep.
           oadvance Hp3 as s4 Hp4 Hs4 Hl4 Ht4 Hc4. ostep.
           simpl in *. rewrite Hp4. repeat split; try congruence; lia.
        -- oadvance Hp3 as s4 Hp4 Hs4 Hl4 Ht4 Hc4. ostep.
           simpl in *. rewrite Hp4. repeat split; try congruence; lia.
    + intros [] s3 (Hs & Ht & Hst & Hlt) Hc.
      rewrite cur_is_pending in Hc.
      destruct (pending s3) as [|c r3] eqn:Hp3; [|discriminate].
      repeat split; auto.
    + rewrite Hp2, Hp. simpl. repeat split; try congruence. lia.
    + apply fuel_of_enough. congruence.
    + intros [[]|[]] s3 H; ostep; exact H.
    + auto.
Qed.

Lemma append_nil s : "" ++ s = s.
Proof. reflexivity. Qed.

Lemma append_cons c s t : String c s ++ t = String c (s ++ t).
Proof. reflexivity. Qed.

Lemma append_snoc r c rest : snoc r c ++ rest = r ++ String c rest.
Proof.
  unfold snoc. induction r as [|d r IH];
    repeat (rewrite append_cons || rewrite append_nil); congruence.
Qed.

Lemma string_forall_snoc p r c :
  string_forall p (snoc r c) = string_forall p r && p c.
Proof.
  unfold snoc. induction r as [|d r IH];
    repeat (rewrite append_cons || rewrite append_nil); simpl.
  - now rewrite andb_true_r.
  - rewrite IH. now rewrite andb_assoc.
Qed.

Lemma record_token_identifier table ty w l c :
  (if TokenType_eqb ty IDENTIFIER
   then record_occurrence w (l, c) table else table)
  = record_token table (Token.mk ty (VStr w) l c).
Proof. unfold record_token, lexeme. destruct ty; reflexivity. Qed.

Lemma read_identifier_spec s :
  opost (read_identifier s)
    (fun tok s' =>
       source s' = source s /\ line s' = line s
       /\ symbol_table s' = record_token (symbol_table s) tok
       /\ cur_is identchar s' = false
       /\ exists w,
            pending s = w ++ pending s'
            /\ string_forall identchar w = true
            /\ tok = Token.mk (default IDENTIFIER (keywords !! w)) (VStr w)
                       (line s) (column s))
    (fun _ _ => False).
Proof.
  unfold read_identifier. apply opost_bind.
  eapply opost_mono;
    [ apply (opost_while
        (fun res s' =>
           source s' = source s /\ line s' = line s
           /\ symbol_table s' = symbol_table s
           /\ pending s = res ++ pending s'
           /\ string_forall identchar res = true)
        (fun (r : ctl string Empty_set) s' =>
           match r with
           | Next res =>
               source s' = source s /\ line s' = line s
               /\ symbol_table s' = symbol_table s
               /\ pending s = res ++ pending s'
               /\ string_forall identchar res = true
               /\ cur_is identchar s' = false
           | Leave e => False
           end)
        (fun _ _ => False))
    | | ].
  - intros res s1 (Hs & Hl & Ht & Hp & Hall) Hc.
    change (cur_is identchar s1 = true) in Hc.
    rewrite cur_is_pending in Hc.
    destruct (pending s1) as [|c r1] eqn:Hp1; [discriminate|].
    ostep. rewrite current_char_pending, Hp1. simpl.
    oadvance Hp1 as s2 Hp2 Hs2 Hl2 Ht2 Hc2. ostep. simpl.
    rewrite Hp2, append_snoc, string_forall_snoc, Hall, Hc.
    repeat split; try congruence. lia.
  - intros res s1 (Hs & Hl & Ht & Hp & Hall) Hc. auto 10.
  - simpl. auto.
  - apply fuel_of_enough. reflexivity.
  - intros [res|[]] s1 (Hs & Hl & Ht & Hp & Hall & Hc).
    ostep. apply opost_bind_when; intros Hty.
    + ostep. ostep. simpl. rewrite <- record_token_identifier, Hty.
      splits; try congruence; try exact Hc.
      exists res. splits; auto. congruence.
    + ostep. simpl. rewrite <- record_token_identifier, Hty.
      splits; try congruence.
      exists res. splits; auto. congruence.
  - auto.
Qed.

Lemma read_number_spec s :
  opost (read_number s)
    (fun tok s' =>
       source s' = source s /\ symbol_table s' = symbol_table s
       /\ line s' = line s
       /\ (cur_is isdigit s = true ->
           (String.length (pending s') < String.length (pending s))%nat)
       /\ (Token.type tok = INTEGER \/ Token.type tok = FLOAT_LITERAL)
       /\ Token.line tok = line s /\ Token.column tok = column s)
    (fun e s' =>
       source s' = source s /\ symbol_table s' = symbol_table s
       /\ scan_error e).
Proof.
  unfold read_number. apply opost_bind.
  eapply opost_mono;
    [ apply (opost_while
        (fun (_ : string * bool) s' =>
           source s' = source s /\ symbol_table s' = symbol_table s
           /\ line s' = line s
           /\ (s' = s
               \/ (String.length (pending s') < String.length (pending s))%nat))
        (fun (r : ctl (string * bool) Empty_set) s' =>
           source s' = source s /\ symbol_table s' = symbol_table s
           /\ line s' = line s
           /\ (cur_is isdigit s = true ->
               (String.length (pending s') < String.length (pending s))%nat))
        (fun e s' =>
           source s' = source s /\ symbol_table s' = symbol_table s
           /\ scan_error e))
    | | ].
  - intros [res isf] s1 (Hs & Ht & Hl & Hor) Hc.
    rewrite cur_is_pending in Hc.
    destruct (pending s1) as [|c r1] eqn:Hp1; [discriminate|].
    ostep. rewrite current_char_pending, Hp1. simpl.
    assert (Hdec : forall s2, pending s2 = r1 ->
              s2 = s \/ (String.length (pending s2) < String.length (pending s))%nat).
    { intros s2 Hp2. right. rewrite Hp2.
      destruct Hor as [->|Hlt]; [rewrite Hp1|]; simpl in *; lia. }
    destruct (c =c ".").
    + destruct isf.
      * ostep. simpl. splits; auto. constructor.
      * oadvance Hp1 as s2 Hp2 Hs2 Hl2 Ht2 Hc2. ostep. simpl.
        splits; try congruence; auto. rewrite Hp2. lia.
    + oadvance Hp1 as s2 Hp2 Hs2 Hl2 Ht2 Hc2. ostep. simpl.
      splits; try congruence; auto. rewrite Hp2. lia.
  - intros [res isf] s1 (Hs & Ht & Hl & Hor) Hc. splits; auto.
    intros Hd. destruct Hor as [->|]; [|assumption].
    unfold cur_is in Hc, Hd. destruct (current_char s); [|discriminate].
    rewrite Hd in Hc. discriminate.
  - simpl. auto.
  - apply fuel_of_enough. reflexivity.
  - intros [[res isf]|[]] s1 (Hs & Ht & Hl & Hlt).
    ostep. destruct isf.
    + destruct (py_float res); [ostep|ostep]; simpl; splits; auto.
    + destruct (py_int res); [ostep|ostep]; simpl; splits; auto.
  - auto.
Qed.

Arguments is_escape : simpl never.

Ltac oraise := try ostep; simpl; splits; try congruence; constructor.

Lemma read_string_spec s c rest :
  pending s = String c rest ->
  opost (read_string s)
    (fun tok s' =>
       source s' = source s /\ symbol_table s' = symbol_table s
       /\ line s' = line s
       /\ (String.length (pending s') < String.length (pending s))%nat
       /\ Token.type tok = STRING
       /\ Token.line tok = line s /\ Token.column tok = column s)
    (fun e s' =>
       source s' = source s /\ symbol_table s' = symbol_table s
       /\ line s' = line s /\ scan_error e).
Proof.
  intros Hp. unfold read_string.
  oadvance Hp as s0 Hp0 Hs0 Hl0 Ht0 Hc0.
  apply opost_bind.
  eapply opost_mono;
    [ apply (opost_while
        (fun (_ : string) s' =>
           source s' = source s /\ symbol_table s' = symbol_table s
           /\ line s' = line s
           /\ (String.length (pending s') < String.length (pending s))%nat)
        (fun (r : ctl string Empty_set) s' =>
           source s' = source s /\ symbol_table s' = symbol_table s
           /\ line s' = line s
           /\ (String.length (pending s') < String.length (pending s))%nat)
        (fun e s' =>
           source s' = source s /\ symbol_table s' = symbol_table s
           /\ line s' = line s /\ scan_error e))
    | | ].
  - intros res s1 (Hs & Ht & Hl & Hlt) Hc.
    rewrite cur_is_pending in Hc.
    destruct (pending s1) as [|d r1] eqn:Hp1; [discriminate|].
    ostep. rewrite current_char_pending, Hp1. simpl.
    simpl in Hlt.
    destruct (d =c backslash).
    + oadvance Hp1 as s2 Hp2 Hs2 Hl2 Ht2 Hc2. ostep.
      rewrite current_char_pending.
      destruct (pending s2) as [|e r2] eqn:Hp2'; simpl.
      * oraise.
      * destruct (is_escape dquote (Some e)).
        -- oadvance Hp2' as s3 Hp3 Hs3 Hl3 Ht3 Hc3. ostep. simpl.
           subst r1. simpl in Hlt.
           splits; try congruence; rewrite Hp3; simpl; lia.
        -- oraise.
    + oadvance Hp1 as s2 Hp2 Hs2 Hl2 Ht2 Hc2. ostep. simpl.
      splits; try congruence; rewrite Hp2; simpl; lia.
  - intros res s1 H Hc. exact H.
  - rewrite Hp0, Hp. simpl. splits; try congruence. lia.
  - apply fuel_of_enough. congruence.
  - intros [res|[]] s1 (Hs & Ht & Hl & Hlt).
    ostep. rewrite current_char_pending.
    destruct (pending s1) as [|d r1] eqn:Hp1; simpl.
    + oraise.
    + oadvance Hp1 as s2 Hp2 Hs2 Hl2 Ht2 Hc2. ostep. ostep. simpl.
      simpl in Hlt. splits; try congruence. rewrite Hp2. lia.
  - auto.
Qed.

Lemma read_char_literal_spec s c rest :
  pending s = String c rest ->
  opost (read_char_literal s)
    (fun tok s' =>
       source s' = source s /\ symbol_table s' = symbol_table s
       /\ line s' = line s
       /\ (String.length (pending s') < String.length (pending s))%nat
       /\ Token.type tok = CHAR_LITERAL
       /\ Token.line tok = line s /\ Token.column tok = column s)
    (fun e s' =>
       source s' = source s /\ symbol_table s' = symbol_table s
       /\ line s' = line s /\ scan_error e).
Proof.
  intros Hp. unfold read_char_literal.
  oadvance Hp as s0 Hp0 Hs0 Hl0 Ht0 Hc0.
  ostep. rewrite current_char_pending.
  destruct (pending s0) as [|d r0] eqn:Hp0'; simpl.
  { oraise. }
  assert (Hfinish : forall (value : string) s1 r1,
            pending s1 = r1 -> source s1 = source s ->
            symbol_table s1 = symbol_table s -> line s1 = line s ->
            (String.length r1 < String.length (pending s))%nat ->
            opost
              ((do s2 <- get;
                if opt_is squote (current_char s2) then
                  advance ;;
                  do s3 <- get;
                  ret (Token.mk CHAR_LITERAL (VStr value) (line s3) (column s))
                else
                  raise (LexicalError "Unterminated character literal"
                           (line s2) (column s))) s1)
              (fun tok s' =>
                 source s' = source s /\ symbol_table s' = symbol_table s
                 /\ line s' = line s
                 /\ (String.length (pending s') < String.length (pending s))%nat
                 /\ Token.type tok = CHAR_LITERAL
                 /\ Token.line tok = line s /\ Token.column tok = column s)
              (fun e s' =>
                 source s' = source s /\ symbol_table s' = symbol_table s
                 /\ line s' = line s /\ scan_error e)).
  { intros value s1 r1 Hp1 Hs1 Ht1 Hl1 Hlt. ostep.
    rewrite current_char_pending, Hp1.
    destruct r1 as [|q r2]; simpl.
    - oraise.
    - destruct (q =c squote).
      + oadvance Hp1 as s2 Hp2 Hs2 Hl2 Ht2 Hc2. ostep. ostep. simpl.
        simpl in Hlt. splits; try congruence. rewrite Hp2. lia.
      + oraise. }
  assert (Hlen : (String.length r0 < String.length (pending s))%nat).
  { rewrite Hp. subst rest. simpl. lia. }
  destruct (d =c backslash).
  - apply opost_bind.
    oadvance Hp0' as s1 Hp1 Hs1 Hl1 Ht1 Hc1. ostep.
    rewrite current_char_pending.
    destruct (pending s1) as [|e r1] eqn:Hp1'; simpl.
    + oraise.
    + destruct (is_escape squote (Some e)).
      * ostep.
        oadvance Hp1' as s2 Hp2 Hs2 Hl2 Ht2 Hc2.
        apply (Hfinish _ s2 r1); try congruence.
        subst r0. simpl in Hlen. lia.
      * oraise.
  - ostep.
    oadvance Hp0' as s1 Hp1 Hs1 Hl1 Ht1 Hc1.
    apply (Hfinish _ s1 r0); try congruence.
Qed.

(** ** Character classes and the tables *)

Lemma identchar_plain c :
  identchar c = true -> isspace c = false /\ (c =c "/") = false.
Proof.
  destruct c as [[] [] [] [] [] [] [] []]; vm_compute; intros H;
    (discriminate H || (split; reflexivity)).
Qed.

Lemma isalpha_identchar c :
  isalpha c || (c =c "_") = true -> identchar c = true.
Proof.
  unfold identchar, isalnum. destruct (isalpha c); simpl; [reflexivity|].
  intros ->. apply orb_true_r.
Qed.

Lemma keywords_types w ty :
  keywords !! w = Some ty -> verbatim ty = true /\ ty <> IDENTIFIER.
Proof.
  unfold keywords. intros H. apply elem_of_list_to_map_2 in H.
  repeat (apply elem_of_cons in H; destruct H as [[= -> ->]|H];
          [split; [reflexivity|discriminate]|]).
  now apply elem_of_nil in H.
Qed.

Lemma operators_types op ty :
  operators !! op = Some ty -> verbatim ty = true /\ ty <> IDENTIFIER.
Proof.
  unfold operators. intros H. apply elem_of_list_to_map_2 in H.
  repeat (apply elem_of_cons in H; destruct H as [[= -> ->]|H];
          [split; [reflexivity|discriminate]|]).
  now apply elem_of_nil in H.
Qed.

Lemma identifier_type w :
  verbatim (default IDENTIFIER (keywords !! w)) = true.
Proof.
  destruct (keywords !! w) as [ty|] eqn:E; simpl; [|reflexivity].
  now apply keywords_types in E.
Qed.

Lemma verbatim_not_special ty :
  verbatim ty = true -> ty <> EOF /\ ty <> ERROR.
Proof. destruct ty; simpl; intros H; split; congruence. Qed.

Lemma record_token_other table tok :
  Token.type tok <> IDENTIFIER -> record_token table tok = table.
Proof. unfold record_token. destruct (Token.type tok); congruence. Qed.

(** ** Stripping *)

Lemma strip_code_keep c r :
  isspace c = false ->
  (c =c "/") && (opt_is "/" (shead r) || opt_is "*" (shead r)) = false ->
  strip Code (String c r) = String c (strip Code r).
Proof.
  intros Hsp Hcm. simpl. rewrite Hsp.
  destruct (c =c "/"); simpl in *; [|reflexivity].
  apply orb_false_iff in Hcm. destruct Hcm as [-> ->]. reflexivity.
Qed.

Lemma strip_code_identchars w rest :
  string_forall identchar w = true ->
  strip Code (w ++ rest) = w ++ strip Code rest.
Proof.
  induction w as [|c w IH]; intros H; [reflexivity|].
  simpl in H. apply andb_true_iff in H. destruct H as [Hc Hw].
  rewrite !append_cons. destruct (identchar_plain c Hc) as [Hsp Hsl].
  rewrite strip_code_keep, IH; auto. now rewrite Hsl.
Qed.

(** ** One call of the scanner *)

Lemma length_append (a b : string) :
  String.length (a ++ b) = (String.length a + String.length b)%nat.
Proof.
  induction a as [|c a IH]; [reflexivity|].
  rewrite append_cons. simpl. now rewrite IH.
Qed.

Lemma token_post_skipped s s1 tok s' :
  skipped s s1 -> token_post s1 tok s' -> token_post s tok s'.
Proof.
  intros (Hs & Ht & Hst & Hle) (Qs & Qt & Qle & Qeof & Qne & Qv & Qerr).
  unfold token_post. rewrite <- Hst, <- Ht. splits; auto; try congruence.
  - lia.
  - intros H. destruct (Qne H). split; [lia|assumption].
Qed.

Lemma error_post_skipped s s1 e s' :
  skipped s s1 -> error_post s1 e s' -> error_post s e s'.
Proof.
  intros (Hs & Ht & Hst & Hle) (Qs & Qt & Qne & Qe).
  unfold error_post. rewrite <- Hst. splits; auto; congruence.
Qed.

Lemma operator_of_two c :
  (c =c "=") || (c =c "!") || (c =c "<") || (c =c ">") = true ->
  exists ty, operators !! String c "=" = Some ty.
Proof.
  intros H. repeat (apply orb_true_iff in H; destruct H as [H|H]);
    apply Ascii.eqb_eq in H; subst c; eexists; reflexivity.
Qed.

Lemma opost_operator_of op ty s (Q : TokenType -> LexicalAnalyzer -> Prop) E :
  operators !! op = Some ty -> Q ty s -> opost (operator_of op s) Q E.
Proof. intros H HQ. unfold operator_of. rewrite H. exact HQ. Qed.

(** The dispatch on a character that starts a token. *)
Lemma scan_token_spec s c rest :
  pending s = String c rest ->
  isspace c = false ->
  (c =c "/") && (opt_is "/" (shead rest) || opt_is "*" (shead rest)) = false ->
  opost
    ((if isalpha c || (c =c "_") then
        do t <- read_identifier; ret (Leave (A := unit) t)
      else if isdigit c then
        do t <- read_number; ret (Leave t)
      else if c =c dquote then
        do t <- read_string; ret (Leave t)
      else if c =c squote then
        do t <- read_char_literal; ret (Leave t)
      else if ((c =c "=") || (c =c "!") || (c =c "<") || (c =c ">"))
              && opt_is "=" (peek s)
      then
        let op := snoc (char_str c) "=" in
        advance ;;
        advance ;;
        do ty <- operator_of op;
        do s' <- get;
        ret (Leave (Token.mk ty (VStr op) (line s')
                      (column s' - Z.of_nat (String.length op))))
      else if bool_decide (is_Some (operators !! char_str c))
      then
        advance ;;
        do ty <- operator_of (char_str c);
        do s' <- get;
        ret (Leave (Token.mk ty (VStr (char_str c)) (line s')
                      (column s' - 1)))
      else
        raise (LexicalError ("Invalid character: " ++ char_str c)
                 (line s) (column s))) s)
    (fun r s' =>
       match r with
       | Leave tok => token_post s tok s'
       | Next _ => False
       end)
    (error_post s).
Proof.
  intros Hp Hsp Hcm.
  pose proof (strip_code_keep c rest Hsp Hcm) as Hkeep.
  assert (Hne : strip Code (pending s) <> "").
  { rewrite Hp, Hkeep. discriminate. }
  destruct (isalpha c || (c =c "_")) eqn:Hid.
  { (* identifier or keyword *)
    apply opost_bind. eapply opost_mono; [apply read_identifier_spec| |intros ? ? []].
    intros tok s' (Hs & Hl & Ht & Hcur & w & Hw & Hall & ->). ostep.
    pose proof (identifier_type w) as Hv.
    destruct (verbatim_not_special _ Hv) as [Heof Herr].
    assert (Hlt : (String.length (pending s') < String.length (pending s))%nat).
    { rewrite Hw. destruct w as [|d w].
      - exfalso. rewrite append_nil in Hw. rewrite cur_is_pending, <- Hw, Hp in Hcur.
        apply isalpha_identchar in Hid. congruence.
      - rewrite append_cons. simpl. rewrite length_append. lia. }
    unfold token_post. simpl. splits; auto; try lia; try congruence.
    intros _. rewrite Hw at 1. now apply strip_code_identchars. }
  destruct (isdigit c) eqn:Hdg.
  { apply opost_bind. eapply opost_mono; [apply read_number_spec| |].
    - intros tok s' (Hs & Ht & Hl & Hlt & Hty & _). ostep.
      assert (Hd : cur_is isdigit s = true)
        by (rewrite cur_is_pending, Hp; exact Hdg).
      specialize (Hlt Hd).
      unfold token_post. rewrite record_token_other by (destruct Hty; congruence).
      splits; auto; try lia;
        try (destruct Hty as [Hty|Hty]; rewrite Hty; simpl; congruence).
      all: try (intros _; split; [lia|assumption]).
    - intros e s' (Hs & Ht & He). unfold error_post. auto. }
  destruct (c =c dquote) eqn:Hdq.
  { apply opost_bind. eapply opost_mono; [apply (read_string_spec _ _ _ Hp)| |].
    - intros tok s' (Hs & Ht & Hl & Hlt & Hty & _). ostep.
      unfold token_post. rewrite record_token_other by congruence.
      rewrite Hty. splits; auto; try lia; simpl; try congruence.
      all: try (intros _; split; [lia|assumption]).
    - intros e s' (Hs & Ht & Hl & He). unfold error_post. auto. }
  destruct (c =c squote) eqn:Hsq.
  { apply opost_bind.
    eapply opost_mono; [apply (read_char_literal_spec _ _ _ Hp)| |].
    - intros tok s' (Hs & Ht & Hl & Hlt & Hty & _). ostep.
      unfold token_post. rewrite record_token_other by congruence.
      rewrite Hty. splits; auto; try lia; simpl; try congruence.
      all: try (intros _; split; [lia|assumption]).
    - intros e s' (Hs & Ht & Hl & He). unfold error_post. auto. }
  rewrite (peek_pending _ _ _ Hp).
  destruct (((c =c "=") || (c =c "!") || (c =c "<") || (c =c ">"))
            && opt_is "=" (shead rest)) eqn:Htwo.
  { (* two-character operator *)
    apply andb_true_iff in Htwo. destruct Htwo as [Hc Heq].
    apply opt_is_true in Heq.
    destruct rest as [|d r2]; [discriminate|]. injection Heq as ->.
    destruct (operator_of_two c Hc) as [ty Hty].
    destruct (operators_types _ _ Hty) as [Hv Hni].
    destruct (verbatim_not_special _ Hv) as [Heof Herr].
    cbv zeta.
    oadvance Hp as s1 Hp1 Hs1 Hl1 Ht1 Hc1.
    oadvance Hp1 as s2 Hp2 Hs2 Hl2 Ht2 Hc2.
    apply opost_bind. apply (opost_operator_of _ ty); [exact Hty|].
    ostep. ostep. unfold token_post.
    rewrite record_token_other by (simpl; congruence).
    rewrite Hp, Hp2. simpl Token.type.
    splits; try congruence; simpl String.length; try lia.
    - intros _. split; [lia|]. rewrite Hkeep. discriminate.
    - intros _. rewrite Hkeep. unfold lexeme. simpl Token.value.
      rewrite (strip_code_keep "=" r2); reflexivity. }
  destruct (bool_decide (is_Some (operators !! char_str c))) eqn:Hop.
  { (* single-character operator or delimiter *)
    apply bool_decide_eq_true in Hop. destruct Hop as [ty Hty].
    destruct (operators_types _ _ Hty) as [Hv Hni].
    destruct (verbatim_not_special _ Hv) as [Heof Herr].
    oadvance Hp as s1 Hp1 Hs1 Hl1 Ht1 Hc1.
    apply opost_bind. apply (opost_operator_of _ ty); [exact Hty|].
    ostep. ostep. unfold token_post.
    rewrite record_token_other by (simpl; congruence).
    rewrite Hp, Hp1. simpl Token.type.
    splits; try congruence; simpl String.length; try lia.
    - intros _. split; [lia|]. rewrite Hkeep. discriminate.
    - intros _. rewrite Hkeep. reflexivity. }
  (* invalid character *)
  ostep. unfold error_post. splits; auto. simpl. constructor.
Qed.

Lemma skipped_refl s : skipped s s.
Proof. unfold skipped. auto. Qed.

Theorem get_next_token_spec s :
  opost (get_next_token s) (token_post s) (error_post s).
Proof.
  unfold get_next_token. apply opost_bind.
  eapply opost_mono;
    [ apply (opost_while
        (fun (_ : unit) s1 => skipped s s1)
        (fun (r : ctl unit Token) s' =>
           match r with
           | Leave tok => token_post s tok s'
           | Next _ => skipped s s' /\ pending s' = ""
           end)
        (error_post s))
    | | ].
  - intros [] s1 Hsk Hc. rewrite cur_is_pending in Hc.
    destruct (pending s1) as [|c r1] eqn:Hp1; [discriminate|].
    ostep. rewrite current_char_pending, Hp1. cbv beta iota delta [shead].
    destruct (isspace c) eqn:Hsp.
    { apply opost_bind.
      eapply opost_mono; [apply skip_whitespace_spec| |intros ? ? []].
      intros [] s2 (Hs & Ht & Hst & Hle & Hlt). ostep.
      rewrite cur_is_pending, Hp1 in Hlt. specialize (Hlt Hsp).
      split; [|exact Hlt].
      destruct Hsk as (Ks & Kt & Kst & Kle).
      unfold skipped. rewrite Hp1 in *. splits; try congruence. lia. }
    destruct ((c =c "/") && (opt_is "/" (peek s1) || opt_is "*" (peek s1)))
      eqn:Hcm.
    { rewrite (peek_pending _ _ _ Hp1) in Hcm.
      apply andb_true_iff in Hcm. destruct Hcm as [Hsl Hnext].
      apply Ascii.eqb_eq in Hsl. subst c.
      destruct r1 as [|c2 r2]; [discriminate|].
      assert (Hc2 : c2 = "/"%char \/ c2 = "*"%char).
      { simpl in Hnext. apply orb_true_iff in Hnext.
        destruct Hnext as [H|H]; apply Ascii.eqb_eq in H; auto. }
      apply opost_bind.
      eapply opost_mono;
        [apply (skip_comment_spec _ _ _ Hp1 Hc2)| |intros ? ? []].
      intros [] s2 (Hs & Ht & Hst & Hlt). ostep.
      split; [|rewrite Hp1 in Hlt; exact Hlt].
      destruct Hsk as (Ks & Kt & Kst & Kle).
      unfold skipped. rewrite Hp1 in *. splits; try congruence. lia. }
    rewrite (peek_pending _ _ _ Hp1) in Hcm.
    eapply opost_mono; [apply (scan_token_spec _ _ _ Hp1 Hsp Hcm)| |].
    + intros [[]|tok] s2 H; [contradiction|].
      eapply token_post_skipped; eassumption.
    + intros e s2 H. eapply error_post_skipped; eassumption.
  - intros [] s1 Hsk Hc. split; [assumption|].
    rewrite cur_is_pending in Hc. now destruct (pending s1).
  - apply skipped_refl.
  - apply fuel_of_enough. reflexivity.
  - intros [[]|tok] s1 H.
    + destruct H as [Hsk Hp1]. ostep. ostep.
      eapply token_post_skipped; [exact Hsk|].
      unfold token_post. rewrite Hp1. simpl.
      splits; auto; try congruence; discriminate.
    + ostep. exact H.
  - auto.
Qed.

(** ** The driver *)

Lemma init_scanner_spec src a :
  exists s0,
    init_scanner src a = Ok tt s0
    /\ pending s0 = src /\ source s0 = src
    /\ symbol_table s0 = symbol_table a
    /\ line s0 = 1
    /\ column s0 = match src with "" => 1 | _ => 2 end.
Proof.
  unfold init_scanner, advance. cbn [source pos].
  destruct src as [|c t]; eexists; (split; [reflexivity|]); cbn; auto.
Qed.

Lemma token_post_of s tok s' :
  get_next_token s = Ok tok s' -> token_post s tok s'.
Proof. intros H. pose proof (get_next_token_spec s) as P. now rewrite H in P. Qed.

Lemma error_post_of s e s' :
  get_next_token s = Raise e s' -> error_post s e s'.
Proof. intros H. pose proof (get_next_token_spec s) as P. now rewrite H in P. Qed.

Lemma get_next_token_total s : get_next_token s <> OutOfFuel.
Proof.
  intros H. pose proof (get_next_token_spec s) as P. now rewrite H in P.
Qed.

Lemma TokenType_eqb_eq a b : TokenType_eqb a b = true <-> a = b.
Proof. destruct a, b; simpl; split; congruence. Qed.

Lemma TokenType_eqb_neq a b : TokenType_eqb a b = false <-> a <> b.
Proof. destruct a, b; simpl; split; congruence. Qed.

Lemma scan_loop_scanned s ts s1 :
  scanned s ts s1 ->
  forall fuel acc,
    (String.length (pending s) < fuel)%nat ->
    exists fuel',
      (String.length (pending s1) < fuel')%nat
      /\ while fuel (fun _ => true) scan_body acc s
         = while fuel' (fun _ => true) scan_body (acc ++ ts)%list s1.
Proof.
  induction 1 as [s|s t s1 ts s2 Hget Hty Hsc IH]; intros fuel acc Hf.
  - exists fuel. rewrite app_nil_r. auto.
  - destruct fuel as [|fuel]; [lia|].
    destruct (token_post_of _ _ _ Hget) as (_ & _ & _ & _ & Hlt & _).
    destruct (Hlt Hty) as [Hlt' _].
    destruct (IH fuel (acc ++ [t])%list) as (fuel' & Hf' & Heq); [lia|].
    exists fuel'. split; [exact Hf'|].
    rewrite <- app_assoc in Heq. simpl in Heq. rewrite <- Heq.
    unfold while at 1; fold (@while (list Token) (list Token)).
    unfold scan_body at 1, bind. rewrite Hget.
    apply TokenType_eqb_neq in Hty. rewrite Hty. reflexivity.
Qed.

Lemma scan_all_ok s ts s1 eof s' :
  scanned s ts s1 ->
  get_next_token s1 = Ok eof s' -> Token.type eof = EOF ->
  scan_all s = Ok (ts ++ [eof])%list s'.
Proof.
  intros Hsc Hget Hty. unfold scan_all, bind.
  destruct (scan_loop_scanned _ _ _ Hsc (fuel_of s) [])
    as (fuel' & Hf' & Heq); [apply fuel_of_enough; reflexivity|].
  rewrite Heq. destruct fuel' as [|fuel']; [lia|].
  unfold while, scan_body at 1, bind. rewrite Hget.
  apply TokenType_eqb_eq in Hty. rewrite Hty. reflexivity.
Qed.

Lemma scan_all_raise s ts s1 e s' :
  scanned s ts s1 ->
  get_next_token s1 = Raise e s' ->
  scan_all s = Raise e s'.
Proof.
  intros Hsc Hget. unfold scan_all, bind.
  destruct (scan_loop_scanned _ _ _ Hsc (fuel_of s) [])
    as (fuel' & Hf' & Heq); [apply fuel_of_enough; reflexivity|].
  rewrite Heq. destruct fuel' as [|fuel']; [lia|].
  unfold while, scan_body at 1, bind. rewrite Hget. reflexivity.
Qed.

(** Every scan ends: after finitely many tokens the scanner returns [EOF]
    or raises. *)
Lemma scan_ends s :
  exists ts s1,
    scanned s ts s1
    /\ ((exists eof s', get_next_token s1 = Ok eof s' /\ Token.type eof = EOF)
        \/ (exists e s', get_next_token s1 = Raise e s')).
Proof.
  remember (String.length (pending s)) as n eqn:Hn.
  revert s Hn. induction n as [n IH] using lt_wf_ind. intros s Hn.
  destruct (get_next_token s) as [tok s'|e s'|] eqn:Hget.
  - destruct (TokenType_eqb (Token.type tok) EOF) eqn:Hty.
    + apply TokenType_eqb_eq in Hty.
      exists [], s. split; [constructor|]. left. eauto.
    + apply TokenType_eqb_neq in Hty.
      destruct (token_post_of _ _ _ Hget) as (_ & _ & _ & _ & Hlt & _).
      destruct (Hlt Hty) as [Hlt' _].
      destruct (IH (String.length (pending s')) ltac:(lia) s' eq_refl)
        as (ts & s1 & Hsc & Hend).
      exists (tok :: ts), s1. split; [|exact Hend].
      econstructor; eassumption.
  - exists [], s. split; [constructor|]. right. eauto.
  - now apply get_next_token_total in Hget.
Qed.

Lemma tokenize_unfold src a s0 :
  init_scanner src a = Ok tt s0 ->
  tokenize src a =
    match scan_all s0 with
    | Ok tokens s' => Ok (tokens, []) s'
    | Raise (LexicalError message l c) s' =>
        Ok ([], ["Lexical Error: " ++ str_of_error message l c]) s'
    | Raise e s' => Raise e s'
    | OutOfFuel => OutOfFuel
    end.
Proof. intros H. unfold tokenize, bind. now rewrite H. Qed.

(** The fuel is always enough: [tokenize] returns, or raises the
    [ValueError] of a number made of digits that are not decimal. *)
Theorem tokenize_total src a :
  exists a',
    (exists tokens out, tokenize src a = Ok (tokens, out) a')
    \/ tokenize src a = Raise ValueError a'.
Proof.
  destruct (init_scanner_spec src a) as (s0 & Hinit & _).
  rewrite (tokenize_unfold _ _ _ Hinit).
  destruct (scan_ends s0) as (ts & s1 & Hsc & [(eof & s' & Hget & Hty)
                                               |(e & s' & Hget)]).
  - rewrite (scan_all_ok _ _ _ _ _ Hsc Hget Hty). eauto.
  - rewrite (scan_all_raise _ _ _ _ _ Hsc Hget).
    destruct (error_post_of _ _ _ Hget) as (_ & _ & _ & He).
    destruct e; simpl in He; [eauto|eauto|contradiction].
Qed.

(** ** Whitespace and comments only *)

Lemma strip_line_body body rest :
  string_forall (fun c => negb (c =c newline)) body = true ->
  strip LineComment (body ++ rest) = strip LineComment rest.
Proof.
  induction body as [|c body IH]; intros H; [reflexivity|].
  simpl in H. apply andb_true_iff in H. destruct H as [Hc Hb].
  rewrite append_cons. simpl. apply negb_true_iff in Hc. rewrite Hc. auto.
Qed.

Lemma strip_block_body body rest :
  has_close body = false ->
  strip BlockComment (body ++ "*/" ++ rest) = strip Code rest.
Proof.
  induction body as [|c body IH]; intros H.
  - reflexivity.
  - simpl in H. apply orb_false_iff in H. destruct H as [Hc Hb].
    rewrite append_cons. simpl strip.
    replace ((c =c "*") && opt_is "/" (shead (body ++ "*/" ++ rest)))
      with false; [auto|].
    destruct (c =c "*"); [|reflexivity]. rewrite andb_true_l in *.
    destruct body as [|b body]; [reflexivity|].
    rewrite append_cons. simpl in Hc |- *. congruence.
Qed.

Lemma blank_strip src : blank src -> strip Code src = "".
Proof.
  induction 1 as [|c rest Hc _ IH|body rest Hb Hrest _ IH|body rest Hb _ IH].
  - reflexivity.
  - now rewrite strip_space.
  - change ("//" ++ body ++ rest) with (String "/" (String "/" (body ++ rest))).
    cbn [strip isspace]. change (isspace "/") with false. cbn.
    rewrite strip_line_body by exact Hb.
    destruct Hrest as [->|Hnl]; [reflexivity|].
    destruct rest as [|d rest]; [discriminate|]. injection Hnl as ->.
    rewrite <- IH. reflexivity.
  - change ("/*" ++ body ++ "*/" ++ rest)
      with (String "/" (String "*" (body ++ "*/" ++ rest))).
    cbn [strip]. change (isspace "/") with false. cbn.
    rewrite strip_block_body by exact Hb. exact IH.
Qed.

Lemma only_eof_when_stripped_empty s :
  strip Code (pending s) = "" ->
  exists eof s',
    get_next_token s = Ok eof s' /\ Token.type eof = EOF
    /\ Token.value eof = VNone.
Proof.
  intros Hst. pose proof (get_next_token_spec s) as P.
  destruct (get_next_token s) as [tok s'|e s'|]; simpl in P.
  - destruct P as (_ & _ & _ & Heof & Hne & _).
    destruct (TokenType_eqb (Token.type tok) EOF) eqn:Hty.
    + apply TokenType_eqb_eq in Hty. destruct (Heof Hty) as (_ & _ & Hv).
      eauto.
    + apply TokenType_eqb_neq in Hty. destruct (Hne Hty) as [_ Hn].
      contradiction.
  - destruct P as (_ & _ & Hn & _). contradiction.
  - contradiction.
Qed.

(** C8: for every input made of whitespace characters and well-formed
    comments only, [tokenize] succeeds, prints nothing, and returns exactly
    one token, the [EOF] token. *)
Theorem C8_blank_source_yields_only_eof src a :
  blank src ->
  exists eof a',
    tokenize src a = Ok ([eof], []) a'
    /\ Token.type eof = EOF /\ Token.value eof = VNone.
Proof.
  intros Hb. destruct (init_scanner_spec src a) as (s0 & Hinit & Hp & _).
  rewrite (tokenize_unfold _ _ _ Hinit).
  destruct (only_eof_when_stripped_empty s0) as (eof & s' & Hget & Hty & Hv).
  { rewrite Hp. now apply blank_strip. }
  rewrite (scan_all_ok s0 [] s0 eof s' (scanned_nil s0) Hget Hty).
  exists eof, s'. auto.
Qed.

Lemma sample_blank_is_blank : blank sample_blank.
Proof.
  unfold sample_blank. apply blank_space; [reflexivity|].
  apply (blank_line " note" (String newline ("/* a" ++ String newline " * b */")));
    [reflexivity|right; reflexivity|].
  apply blank_space; [reflexivity|].
  apply (blank_block (" a" ++ String newline " * b ") ""); [reflexivity|].
  apply blank_empty.
Qed.

Lemma C8_witness :
  blank sample_blank
  /\ exists eof a',
       tokenize sample_blank new = Ok ([eof], []) a'
       /\ Token.type eof = EOF /\ Token.value eof = VNone.
Proof.
  split; [apply sample_blank_is_blank|].
  apply (C8_blank_source_yields_only_eof sample_blank new).
  apply sample_blank_is_blank.
Defined.

(** ** Round trip *)

Lemma append_assoc (a b c : string) : (a ++ b) ++ c = a ++ b ++ c.
Proof.
  induction a as [|d a IH]; [reflexivity|].
  rewrite !append_cons. now rewrite IH.
Qed.

Lemma append_nil_r (a : string) : a ++ "" = a.
Proof.
  induction a as [|d a IH]; [reflexivity|].
  rewrite append_cons. now rewrite IH.
Qed.

Lemma scanned_strip s ts s1 :
  scanned s ts s1 ->
  Forall (fun t => verbatim (Token.type t) = true) ts ->
  strip Code (pending s) = lexemes ts ++ strip Code (pending s1).
Proof.
  induction 1 as [s|s t s1 ts s2 Hget Hty Hsc IH]; intros Hall.
  - reflexivity.
  - inversion Hall as [|? ? Hv Hrest]; subst.
    destruct (token_post_of _ _ _ Hget) as (_ & _ & _ & _ & _ & Hstrip & _).
    rewrite (Hstrip Hv), (IH Hrest). simpl.
    now rewrite append_assoc.
Qed.

Lemma lexemes_app ts us : lexemes (ts ++ us) = lexemes ts ++ lexemes us.
Proof.
  induction ts as [|t ts IH]; [reflexivity|].
  simpl. now rewrite IH, append_assoc.
Qed.

Lemma tokenize_success src a toks a' :
  tokenize src a = Ok (toks, []) a' ->
  exists s0 ts s1 eof,
    init_scanner src a = Ok tt s0
    /\ scanned s0 ts s1
    /\ get_next_token s1 = Ok eof a'
    /\ Token.type eof = EOF
    /\ toks = (ts ++ [eof])%list.
Proof.
  intros H. destruct (init_scanner_spec src a) as (s0 & Hinit & _).
  rewrite (tokenize_unfold _ _ _ Hinit) in H.
  destruct (scan_ends s0) as (ts & s1 & Hsc & [(eof & s' & Hget & Hty)
                                               |(e & s' & Hget)]).
  - rewrite (scan_all_ok _ _ _ _ _ Hsc Hget Hty) in H.
    injection H as <- <-. exists s0, ts, s1, eof. auto.
  - rewrite (scan_all_raise _ _ _ _ _ Hsc Hget) in H.
    destruct e; discriminate.
Qed.

(** C3, as the code has it: when a source tokenizes successfully into
    keywords, identifiers, operators and delimiters only, concatenating the
    values of the tokens in order (the [EOF] token contributes nothing)
    gives the source with all whitespace and comments removed. *)
Theorem C3_round_trip_of_verbatim_tokens src a toks a' :
  tokenize src a = Ok (toks, []) a' ->
  Forall (fun t => verbatim (Token.type t) = true \/ Token.type t = EOF) toks ->
  lexemes toks = strip Code src.
Proof.
  intros Htok Hall.
  destruct (tokenize_success _ _ _ _ Htok)
    as (s0 & ts & s1 & eof & Hinit & Hsc & Hget & Hty & ->).
  destruct (init_scanner_spec src a) as (s0' & Hinit' & Hp & _).
  rewrite Hinit in Hinit'. injection Hinit' as <-.
  apply Forall_app in Hall. destruct Hall as [Hts _].
  assert (Hv : Forall (fun t => verbatim (Token.type t) = true) ts).
  { clear -Hsc Hts. induction Hsc as [|s t s1 ts s2 Hget Hty Hsc IH].
    - constructor.
    - inversion Hts as [|? ? [Hv|He] Hrest]; subst; [|contradiction].
      constructor; auto. }
  rewrite <- Hp, (scanned_strip _ _ _ Hsc Hv), lexemes_app.
  destruct (token_post_of _ _ _ Hget) as (_ & _ & _ & Heof & _).
  destruct (Heof Hty) as (-> & _ & Hval).
  unfold lexemes at 2, lexeme. simpl. now rewrite Hval.
Qed.

(** ** The scanner does not read the symbol table *)

Section SameCursor.

Variable P : relation (gmap string SymbolEntry).
Hypothesis P_record :
  forall w loc t1 t2,
    P t1 t2 -> P (record_occurrence w loc t1) (record_occurrence w loc t2).

Let R := same_cursor P.

Lemma orel_bind {A B} (m1 m2 : M A) (k1 k2 : A -> M B) s1 s2 :
  orel R (m1 s1) (m2 s2) ->
  (forall a s1' s2', R s1' s2' -> orel R (k1 a s1') (k2 a s2')) ->
  orel R (bind m1 k1 s1) (bind m2 k2 s2).
Proof.
  unfold bind. destruct (m1 s1), (m2 s2); simpl; try tauto.
  intros [-> HR] Hk. now apply Hk.
Qed.

Lemma orel_ret {A} (a : A) s1 s2 : R s1 s2 -> orel R (ret a s1) (ret a s2).
Proof. simpl. auto. Qed.

Lemma orel_raise {A} e s1 s2 :
  R s1 s2 -> orel R (raise (A := A) e s1) (raise e s2).
Proof. simpl. auto. Qed.

Lemma orel_while {A B} cond (body : A -> M (ctl A B)) :
  (forall s1 s2, R s1 s2 -> cond s1 = cond s2) ->
  (forall a s1 s2, R s1 s2 -> orel R (body a s1) (body a s2)) ->
  forall fuel a s1 s2,
    R s1 s2 ->
    orel R (while fuel cond body a s1) (while fuel cond body a s2).
Proof.
  intros Hcond Hbody. induction fuel as [|fuel IH]; intros a s1 s2 HR.
  - exact I.
  - unfold while; fold (@while A B). rewrite (Hcond _ _ HR).
    destruct (cond s2); [|simpl; auto].
    specialize (Hbody a _ _ HR).
    destruct (body a s1) as [[a1|r1] s1'|e1 s1'|],
             (body a s2) as [[a2|r2] s2'|e2 s2'|]; simpl in Hbody;
      try tauto; destruct Hbody as [Heq HR']; try discriminate.
    + injection Heq as ->. now apply IH.
    + injection Heq as ->. simpl. auto.
    + subst. simpl. auto.
Qed.

Lemma same_cursor_fuel s1 s2 : R s1 s2 -> fuel_of s1 = fuel_of s2.
Proof. intros (H & _). unfold fuel_of. now rewrite H. Qed.

Lemma same_cursor_peek s1 s2 : R s1 s2 -> peek s1 = peek s2.
Proof. intros (H1 & H2 & _). unfold peek. now rewrite H1, H2. Qed.

Lemma same_cursor_cur_is p s1 s2 : R s1 s2 -> cur_is p s1 = cur_is p s2.
Proof. intros (_ & _ & _ & _ & H & _). unfold cur_is. now rewrite H. Qed.

Lemma orel_advance s1 s2 : R s1 s2 -> orel R (advance s1) (advance s2).
Proof.
  intros (H1 & H2 & H3 & H4 & H5 & H6). unfold advance.
  rewrite H1, H2, H3, H4. destruct (_ <=? _)%nat; simpl;
    (split; [reflexivity|]); unfold R, same_cursor; simpl; auto 10.
Qed.

Lemma orel_count_newline s1 s2 :
  R s1 s2 -> orel R (count_newline s1) (count_newline s2).
Proof.
  intros (H1 & H2 & H3 & H4 & H5 & H6). simpl. split; [reflexivity|].
  unfold R, same_cursor; simpl. rewrite H3. auto 10.
Qed.

Lemma orel_when b (m : M unit) s1 s2 :
  (orel R (m s1) (m s2)) -> R s1 s2 -> orel R (when b m s1) (when b m s2).
Proof. destruct b; simpl; auto. Qed.

Lemma orel_bind_get {B} (k1 k2 : LexicalAnalyzer -> M B) s1 s2 :
  orel R (k1 s1 s1) (k2 s2 s2) -> orel R (bind get k1 s1) (bind get k2 s2).
Proof. auto. Qed.

Lemma orel_bind_modify {B} f (k1 k2 : unit -> M B) s1 s2 :
  orel R (k1 tt (f s1)) (k2 tt (f s2)) ->
  orel R (bind (modify f) k1 s1) (bind (modify f) k2 s2).
Proof. auto. Qed.

(* Enter [do s <- get; ...] on both sides and identify what the two
   continuations read from the cursor. *)
Ltac enter :=
  lazymatch goal with
  | |- orel _ (bind get _ ?t1) (bind get _ ?t2) =>
      lazymatch goal with
      | H : R t1 t2 |- _ =>
          apply orel_bind_get; cbv beta;
          let Hline := fresh "Hline" in
          let Hcol := fresh "Hcol" in
          let Hcur := fresh "Hcur" in
          pose proof H as (_ & _ & Hline & Hcol & Hcur & _);
          rewrite ?Hcur, ?Hline, ?Hcol, ?(same_cursor_peek _ _ H)
      end
  end.

(* Straight-line code. *)
Ltac rel :=
  repeat lazymatch goal with
    | |- R _ _ => assumption
    | |- orel _ (ret _ _) (ret _ _) => apply orel_ret
    | |- orel _ (raise _ _) (raise _ _) => apply orel_raise
    | |- orel _ (advance _) (advance _) => apply orel_advance
    | |- orel _ (count_newline _) (count_newline _) =>
        apply orel_count_newline
    | |- orel _ (when _ _ _) (when _ _ _) => apply orel_when
    | |- orel _ (bind advance _ _) (bind advance _ _) =>
        apply orel_bind; [|intros ? ? ? ?]
    | |- orel _ (bind (when _ _) _ _) (bind (when _ _) _ _) =>
        apply orel_bind; [|intros ? ? ? ?]
    | |- orel _ (bind get _ _) (bind get _ _) => enter
    end.

Lemma skip_whitespace_rel s1 s2 :
  R s1 s2 -> orel R (skip_whitespace s1) (skip_whitespace s2).
Proof.
  intros HR. unfold skip_whitespace. rewrite (same_cursor_fuel _ _ HR).
  apply orel_bind; [|intros; rel].
  apply orel_while; [apply same_cursor_cur_is| |exact HR].
  intros [] t1 t2 HT. rel.
Qed.

Lemma skip_comment_rel s1 s2 :
  R s1 s2 -> orel R (skip_comment s1) (skip_comment s2).
Proof.
  intros HR. unfold skip_comment. rewrite (same_cursor_fuel _ _ HR).
  pose proof HR as (_ & _ & _ & _ & Hcur & _).
  rewrite Hcur, (same_cursor_peek _ _ HR).
  destruct (_ && _).
  { apply orel_bind; [|intros; rel].
    apply orel_while; [apply same_cursor_cur_is| |exact HR].
    intros [] t1 t2 HT. rel. }
  destruct (_ && _); [|simpl; auto].
  rel. apply orel_bind; [|intros; rel].
  apply orel_while; [apply same_cursor_cur_is| |assumption].
  intros [] t1 t2 HT. rel. destruct (_ && _); rel.
Qed.

Lemma read_identifier_rel s1 s2 :
  R s1 s2 -> orel R (read_identifier s1) (read_identifier s2).
Proof.
  intros HR. unfold read_identifier. rewrite (same_cursor_fuel _ _ HR).
  pose proof HR as (_ & _ & _ & Hcol & _). rewrite Hcol.
  apply orel_bind.
  { apply orel_while; [apply same_cursor_cur_is| |exact HR].
    intros res t1 t2 HT. rel. destruct (current_char t2); rel. }
  intros [res|[]] t1 t2 HT. rel.
  simpl. split; [reflexivity|].
  destruct HT as (H1 & H2 & H3 & H4 & H5 & H6).
  unfold R, same_cursor. simpl. rewrite H3. splits; auto.
Qed.

Lemma read_number_rel s1 s2 :
  R s1 s2 -> orel R (read_number s1) (read_number s2).
Proof.
  intros HR. unfold read_number. rewrite (same_cursor_fuel _ _ HR).
  pose proof HR as (_ & _ & _ & Hcol & _). rewrite Hcol.
  apply orel_bind.
  { apply orel_while; [apply same_cursor_cur_is| |exact HR].
    intros [res isf] t1 t2 HT. rel.
    destruct (current_char t2) as [c|]; [|rel].
    destruct (c =c "."); [destruct isf|]; rel. }
  intros [[res isf]|[]] t1 t2 HT. rel.
  destruct isf; [destruct (py_float res)|destruct (py_int res)]; rel.
Qed.

Lemma read_string_rel s1 s2 :
  R s1 s2 -> orel R (read_string s1) (read_string s2).
Proof.
  intros HR. unfold read_string. rewrite (same_cursor_fuel _ _ HR).
  pose proof HR as (_ & _ & _ & Hcol & _). rewrite Hcol.
  rel. apply orel_bind.
  { apply orel_while; [apply same_cursor_cur_is| |assumption].
    intros res t1 t2 HT. rel.
    destruct (current_char t2) as [c|]; [|rel].
    destruct (c =c backslash); rel.
    match goal with |- context [current_char ?t] => destruct (current_char t) as [e|] end; [|rel].
    destruct (is_escape dquote (Some e)); rel. }
  intros [res|[]] t1 t2 HT. rel.
  destruct (current_char t2); rel.
Qed.

Lemma read_char_literal_rel s1 s2 :
  R s1 s2 -> orel R (read_char_literal s1) (read_char_literal s2).
Proof.
  intros HR. unfold read_char_literal.
  pose proof HR as (_ & _ & _ & Hcol & _). rewrite Hcol.
  rel.
  match goal with
  | |- context [current_char ?t] => destruct (current_char t) as [c|]
  end; [|rel].
  apply orel_bind.
  { destruct (c =c backslash); rel.
    match goal with
    | |- context [current_char ?t] => destruct (current_char t) as [e|]
    end; [|rel].
    destruct (is_escape squote (Some e)); rel. }
  intros value t1 t2 HT. rel.
  destruct (opt_is squote _); rel.
Qed.

Lemma get_next_token_rel s1 s2 :
  R s1 s2 -> orel R (get_next_token s1) (get_next_token s2).
Proof.
  intros HR. unfold get_next_token. rewrite (same_cursor_fuel _ _ HR).
  apply orel_bind.
  { apply orel_while; [apply same_cursor_cur_is| |exact HR].
    intros [] t1 t2 HT. rel.
    destruct (current_char t2) as [c|]; [|rel].
    destruct (isspace c).
    { apply orel_bind; [now apply skip_whitespace_rel|intros; rel]. }
    destruct (_ && _).
    { apply orel_bind; [now apply skip_comment_rel|intros; rel]. }
    destruct (_ || _).
    { apply orel_bind; [now apply read_identifier_rel|intros; rel]. }
    destruct (isdigit c).
    { apply orel_bind; [now apply read_number_rel|intros; rel]. }
    destruct (c =c dquote).
    { apply orel_bind; [now apply read_string_rel|intros; rel]. }
    destruct (c =c squote).
    { apply orel_bind; [now apply read_char_literal_rel|intros; rel]. }
    destruct (_ && _).
    { cbv zeta. rel. unfold operator_of.
      destruct (operators !! _); (apply orel_bind; [rel|intros; rel]). }
    destruct (bool_decide _); [|rel].
    rel. unfold operator_of.
    destruct (operators !! _); (apply orel_bind; [rel|intros; rel]). }
  intros [[]|tok] t1 t2 HT; rel.
Qed.

Lemma scan_all_rel s1 s2 : R s1 s2 -> orel R (scan_all s1) (scan_all s2).
Proof.
  intros HR. unfold scan_all. rewrite (same_cursor_fuel _ _ HR).
  apply orel_bind.
  { apply orel_while; [reflexivity| |exact HR].
    intros acc t1 t2 HT. unfold scan_body.
    apply orel_bind; [now apply get_next_token_rel|].
    intros tok u1 u2 HU. cbv zeta. destruct (TokenType_eqb _ _); rel. }
  intros [acc|acc] t1 t2 HT; rel.
Qed.

Lemma init_scanner_rel src s1 s2 :
  P (symbol_table s1) (symbol_table s2) ->
  orel R (init_scanner src s1) (init_scanner src s2).
Proof.
  intros HP. unfold init_scanner, advance. cbn [source pos].
  destruct (_ <=? _)%nat; simpl; (split; [reflexivity|]);
    unfold R, same_cursor; simpl; splits; auto.
Qed.

Lemma tokenize_rel src s1 s2 :
  P (symbol_table s1) (symbol_table s2) ->
  orel R (tokenize src s1) (tokenize src s2).
Proof.
  intros HP. unfold tokenize.
  assert (H : orel R ((init_scanner src ;; scan_all) s1)
                     ((init_scanner src ;; scan_all) s2)).
  { apply orel_bind; [now apply init_scanner_rel|].
    intros [] t1 t2 HT. now apply scan_all_rel. }
  destruct ((init_scanner src ;; scan_all) s1) as [a1 t1|e1 t1|],
           ((init_scanner src ;; scan_all) s2) as [a2 t2|e2 t2|];
    simpl in H; try tauto; destruct H as [<- HT].
  - simpl. auto.
  - destruct e1; simpl; auto.
Qed.
End SameCursor.

(** ** The symbol table *)

Lemma record_occurrence_new w loc (table : gmap string SymbolEntry) :
  table !! w = None ->
  record_occurrence w loc table
  = <[w := {| first_seen := loc; occurrences := [loc] |}]> table.
Proof.
  intros H. unfold record_occurrence. rewrite H, lookup_insert_eq.
  simpl. apply insert_insert_eq.
Qed.

Lemma record_occurrence_old w loc (table : gmap string SymbolEntry) e :
  table !! w = Some e ->
  record_occurrence w loc table
  = <[w := {| first_seen := first_seen e;
              occurrences := occurrences e ++ [loc] |}]> table.
Proof. intros H. unfold record_occurrence. now rewrite H, H. Qed.

Lemma table_grows_refl t : table_grows t t.
Proof. intros w e H. exists e. splits; auto. exists []. now rewrite app_nil_r. Qed.

Lemma table_grows_trans t1 t2 t3 :
  table_grows t1 t2 -> table_grows t2 t3 -> table_grows t1 t3.
Proof.
  intros H12 H23 w e H.
  destruct (H12 w e H) as (e2 & H2 & Hf2 & m2 & Ho2).
  destruct (H23 w e2 H2) as (e3 & H3 & Hf3 & m3 & Ho3).
  exists e3. splits; [assumption|congruence|].
  exists (m2 ++ m3)%list. rewrite Ho3, Ho2. now rewrite app_assoc.
Qed.

Lemma record_occurrence_grows w loc t :
  table_grows t (record_occurrence w loc t).
Proof.
  intros w' e H. destruct (decide (w' = w)) as [->|Hne].
  - rewrite (record_occurrence_old _ _ _ _ H), lookup_insert_eq.
    eexists. splits; [reflexivity|reflexivity|]. now exists [loc].
  - destruct (t !! w) as [e0|] eqn:E.
    + rewrite (record_occurrence_old _ _ _ _ E), lookup_insert_ne by auto.
      exists e. splits; auto. exists []. now rewrite app_nil_r.
    + rewrite (record_occurrence_new _ _ _ E), lookup_insert_ne by auto.
      exists e. splits; auto. exists []. now rewrite app_nil_r.
Qed.

Lemma record_token_grows t tok : table_grows t (record_token t tok).
Proof.
  unfold record_token.
  destruct (Token.type tok); try apply table_grows_refl.
  apply record_occurrence_grows.
Qed.

Lemma fold_record_token_grows toks t :
  table_grows t (fold_left record_token toks t).
Proof.
  revert t. induction toks as [|tok toks IH]; intros t; simpl.
  - apply table_grows_refl.
  - eapply table_grows_trans; [apply record_token_grows|apply IH].
Qed.

Lemma scanned_table s ts s1 :
  scanned s ts s1 ->
  symbol_table s1 = fold_left record_token ts (symbol_table s).
Proof.
  induction 1 as [s|s t s1 ts s2 Hget Hty Hsc IH]; [reflexivity|].
  destruct (token_post_of _ _ _ Hget) as (_ & Ht & _).
  simpl. now rewrite IH, Ht.
Qed.

Lemma tokenize_table_success src a toks a' :
  tokenize src a = Ok (toks, []) a' ->
  symbol_table a' = fold_left record_token toks (symbol_table a).
Proof.
  intros H. destruct (tokenize_success _ _ _ _ H)
    as (s0 & ts & s1 & eof & Hinit & Hsc & Hget & Hty & ->).
  destruct (init_scanner_spec src a) as (s0' & Hinit' & _ & _ & Ht0 & _).
  rewrite Hinit in Hinit'. injection Hinit' as <-.
  destruct (token_post_of _ _ _ Hget) as (_ & Ht & _).
  rewrite fold_left_app. simpl.
  rewrite <- Ht0, <- (scanned_table _ _ _ Hsc). exact Ht.
Qed.

Lemma tokenize_table_grows src a a' :
  final (tokenize src a) = Some a' ->
  table_grows (symbol_table a) (symbol_table a').
Proof.
  destruct (init_scanner_spec src a) as (s0 & Hinit & _ & _ & Ht0 & _).
  rewrite (tokenize_unfold _ _ _ Hinit).
  destruct (scan_ends s0) as (ts & s1 & Hsc & [(eof & s' & Hget & Hty)
                                               |(e & s' & Hget)]).
  - rewrite (scan_all_ok _ _ _ _ _ Hsc Hget Hty). simpl. intros [= <-].
    destruct (token_post_of _ _ _ Hget) as (_ & Ht & _).
    rewrite Ht, (scanned_table _ _ _ Hsc), Ht0.
    eapply table_grows_trans;
      [apply fold_record_token_grows|apply record_token_grows].
  - rewrite (scan_all_raise _ _ _ _ _ Hsc Hget).
    destruct (error_post_of _ _ _ Hget) as (_ & Ht & _).
    assert (Hg : table_grows (symbol_table a) (symbol_table s')).
    { rewrite Ht, (scanned_table _ _ _ Hsc), Ht0.
      apply fold_record_token_grows. }
    destruct e; simpl; intros [= <-]; exact Hg.
Qed.

Lemma result_of_orel {A} R (o1 o2 : outcome A) :
  orel R o1 o2 -> result o1 = result o2.
Proof.
  destruct o1, o2; simpl; try tauto; intros [-> _]; reflexivity.
Qed.

Lemma table_of_orel {A} (o1 o2 : outcome A) :
  orel (same_cursor eq) o1 o2 -> table_of o1 = table_of o2.
Proof.
  unfold table_of.
  destruct o1, o2; simpl; try tauto;
    intros (_ & _ & _ & _ & _ & _ & ->); reflexivity.
Qed.

(** C1, as the code has it: [tokenize] initialises the cursor but not the
    symbol table, which belongs to the analyzer and persists from one call
    to the next.  The token sequence (or the exception) does not depend on
    the analyzer the source is given to, so re-tokenizing yields the same
    tokens; two analyzers with equal tables, such as two fresh ones, end
    with equal tables; a successful call leaves the table it found with
    every [IDENTIFIER] token recorded on top; and whatever the call does,
    the entries it found are still there, with their [first_seen] and with
    occurrence lists that were only extended. *)
Theorem C1_sessions_share_the_symbol_table src a :
  (forall b, result (tokenize src a) = result (tokenize src b))
  /\ (forall b, symbol_table a = symbol_table b ->
        table_of (tokenize src a) = table_of (tokenize src b))
  /\ (forall toks a', tokenize src a = Ok (toks, []) a' ->
        symbol_table a' = fold_left record_token toks (symbol_table a))
  /\ (forall a', final (tokenize src a) = Some a' ->
        table_grows (symbol_table a) (symbol_table a')).
Proof.
  splits.
  - intros b. eapply result_of_orel.
    apply (tokenize_rel (fun _ _ => True)); auto.
  - intros b Hab. apply table_of_orel.
    apply (tokenize_rel eq); [congruence|exact Hab].
  - apply tokenize_table_success.
  - apply tokenize_table_grows.
Qed.

(** C1 fails as stated: the second tokenization of ["x"] by the same
    analyzer returns the same tokens, but starts from the table of the first
    one, and ends with two occurrences of [x] where the first ended with
    one. *)
Lemma C1_second_session_inherits_the_table :
  exists toks a1 a2,
    tokenize "x" new = Ok (toks, []) a1
    /\ tokenize "x" a1 = Ok (toks, []) a2
    /\ occurrence_count a1 "x" = Some 1%nat
    /\ occurrence_count a2 "x" = Some 2%nat.
Proof.
  destruct (tokenize "x" new) as [[toks out] a1|e a1|] eqn:H1;
    [|vm_compute in H1; discriminate..].
  destruct (tokenize "x" a1) as [[toks2 out2] a2|e a2|] eqn:H2.
  all: revert H2; vm_compute in H1; injection H1 as <- <- <-; intros H2;
    vm_compute in H2; try discriminate.
  injection H2 as <- <- <-.
  eexists _, _, _. splits; reflexivity.
Qed.

(** ** Lexical errors *)

(** C2, as the code has it: when, after any number of tokens, the scanner
    raises a [LexicalError], [tokenize] stops, drops the tokens collected so
    far, prints one line made of the message and the location of the error,
    and returns the empty list; the message is one of the five kinds.  The
    error itself is caught: the caller gets the empty list and nothing
    else. *)
Theorem C2_lexical_error_is_printed_and_swallowed
    src a s0 ts s1 message l c s2 :
  init_scanner src a = Ok tt s0 ->
  scanned s0 ts s1 ->
  get_next_token s1 = Raise (LexicalError message l c) s2 ->
  tokenize src a =
    Ok ([], [ "Lexical Error: " ++ message ++ " at line " ++ str_of_int l
              ++ ", column " ++ str_of_int c ]) s2
  /\ lexical_error_kind message.
Proof.
  intros Hinit Hsc Hget. split.
  - rewrite (tokenize_unfold _ _ _ Hinit).
    rewrite (scan_all_raise _ _ _ _ _ Hsc Hget). reflexivity.
  - destruct (error_post_of _ _ _ Hget) as (_ & _ & _ & He). exact He.
Qed.

Lemma C2_witness :
  exists s2,
    tokenize "x = 1.2.3" new =
      Ok ([], [ "Lexical Error: " ++ "Invalid float literal" ++ " at line "
                ++ str_of_int 1 ++ ", column " ++ str_of_int 9 ]) s2
    /\ lexical_error_kind "Invalid float literal".
Proof.
  eexists.
  eapply (C2_lexical_error_is_printed_and_swallowed "x = 1.2.3" new).
  - vm_compute. reflexivity.
  - eapply scanned_cons; [vm_compute; reflexivity|discriminate|].
    eapply scanned_cons; [vm_compute; reflexivity|discriminate|].
    apply scanned_nil.
  - vm_compute. reflexivity.
Defined.

(** C2 fails as stated: the two sources below make the scanner raise
    different errors at different places, and [tokenize] returns the same
    value for both, the empty list. *)
Lemma C2_returned_value_carries_no_error :
  result (scanning "1.2.3" new)
    = Some (inr (LexicalError "Invalid float literal" 1 5))
  /\ result (scanning "@" new)
    = Some (inr (LexicalError "Invalid character: @" 1 2))
  /\ returned (tokenize "1.2.3" new) = Some []
  /\ returned (tokenize "@" new) = Some [].
Proof. vm_compute. auto. Qed.

(** ** Positions *)

Lemma pending_start src : pending (start src) = src.
Proof.
  unfold start. destruct (init_scanner_spec src new) as (s0 & -> & H & _).
  exact H.
Qed.

(** C4: what the code reports.  The columns are one too large: the first
    character of a source gets column 2, because [init_scanner] sets the
    column to 1 and then loads the first character with [advance], which
    counts it.  An operator that ends the source is the exception (column
    1 for ["+"], but 2 for ["+ "]), because [advance] does not count at the
    end of the input.  Lines are right in the scenario of the comment
    line: [y] is reported on line 2 (at column 6, not 5). *)
Theorem C4_reported_columns :
  returned (tokenize "x" new)
    = Some [ Token.mk IDENTIFIER (VStr "x") 1 2; Token.mk EOF VNone 1 2 ]
  /\ returned (tokenize "+" new)
    = Some [ Token.mk PLUS (VStr "+") 1 1; Token.mk EOF VNone 1 2 ]
  /\ returned (tokenize "+ " new)
    = Some [ Token.mk PLUS (VStr "+") 1 2; Token.mk EOF VNone 1 3 ]
  /\ returned (tokenize comment_then_int_y new)
    = Some [ Token.mk INT (VStr "int") 2 2;
             Token.mk IDENTIFIER (VStr "y") 2 6;
             Token.mk SEMICOLON (VStr ";") 2 6;
             Token.mk EOF VNone 2 7 ].
Proof. vm_compute. auto. Qed.

(** C5, as the code has it: [advance] loads the character at the scan
    position into [current_char], moves the position one on and increments
    the column; at the end of the source it only sets [current_char] to
    the end sentinel.  It never changes the line and never resets the
    column, whatever the consumed character was. *)
Theorem C5_advance self :
  exists self',
    advance self = Ok tt self'
    /\ source self' = source self
    /\ symbol_table self' = symbol_table self
    /\ line self' = line self
    /\ ((pos self < String.length (source self))%nat ->
        current_char self' = String.get (pos self) (source self)
        /\ is_Some (current_char self')
        /\ pos self' = S (pos self)
        /\ column self' = column self + 1)
    /\ ((String.length (source self) <= pos self)%nat ->
        current_char self' = None
        /\ pos self' = pos self
        /\ column self' = column self).
Proof.
  unfold advance.
  destruct (String.length (source self) <=? pos self)%nat eqn:E;
    eexists; (split; [reflexivity|]); cbn; splits; auto.
  - apply Nat.leb_le in E. lia.
  - intros _. splits; auto.
    destruct (string_drop_inside _ _ E) as [c Hc].
    rewrite get_string_drop, Hc. simpl. eauto.
  - apply Nat.leb_gt in E. lia.
Qed.

(** C5 fails as stated: on the source made of a newline and [x], the
    current character after [init_scanner] is the newline; [advance]
    consumes it and leaves the line at 1 and the column at 3, where the
    claim has line 2 and column 1. *)
Lemma C5_advance_ignores_newlines :
  let s0 := start (String newline "x") in
  current_char s0 = Some newline
  /\ line s0 = 1 /\ column s0 = 2
  /\ exists s1,
       advance s0 = Ok tt s1
       /\ current_char s1 = Some "x"%char
       /\ line s1 = 1 /\ column s1 = 3
       /\ ~ (line s1 = line s0 + 1 /\ column s1 = 1).
Proof.
  cbv zeta. splits; try reflexivity.
  eexists. splits; try (vm_compute; reflexivity).
  vm_compute. intros [H _]. discriminate H.
Qed.

(** ** Occurrences of identifiers *)

Lemma extend_entry_app o l1 l2 :
  extend_entry (extend_entry o l1) l2 = extend_entry o (l1 ++ l2).
Proof.
  destruct l1 as [|a l1]; [reflexivity|].
  destruct l2 as [|b l2]; [now rewrite app_nil_r; destruct o|].
  destruct o as [e|]; simpl; [now rewrite <- app_assoc|reflexivity].
Qed.

Lemma record_token_lookup t tok w :
  record_token t tok !! w = extend_entry (t !! w) (locations_of w [tok]).
Proof.
  unfold record_token, locations_of. cbn [List.filter].
  destruct (TokenType_eqb (Token.type tok) IDENTIFIER) eqn:Hty.
  - apply TokenType_eqb_eq in Hty. rewrite Hty. simpl.
    destruct (String.eqb (lexeme tok) w) eqn:Hw.
    + apply String.eqb_eq in Hw. subst w. simpl.
      destruct (t !! lexeme tok) as [e|] eqn:E.
      * rewrite (record_occurrence_old _ _ _ _ E). apply lookup_insert_eq.
      * rewrite (record_occurrence_new _ _ _ E). apply lookup_insert_eq.
    + apply String.eqb_neq in Hw. simpl.
      destruct (t !! lexeme tok) as [e|] eqn:E.
      * rewrite (record_occurrence_old _ _ _ _ E). now apply lookup_insert_ne.
      * rewrite (record_occurrence_new _ _ _ E). now apply lookup_insert_ne.
  - apply TokenType_eqb_neq in Hty. simpl.
    destruct (Token.type tok); try reflexivity. contradiction.
Qed.

Lemma locations_of_cons w tok ts :
  locations_of w (tok :: ts) = (locations_of w [tok] ++ locations_of w ts)%list.
Proof.
  unfold locations_of. cbn [List.filter]. destruct (_ && _); reflexivity.
Qed.

Lemma fold_record_token_lookup ts t w :
  fold_left record_token ts t !! w
  = extend_entry (t !! w) (locations_of w ts).
Proof.
  revert t. induction ts as [|tok ts IH]; intros t; [reflexivity|].
  simpl fold_left. rewrite IH, record_token_lookup, extend_entry_app.
  now rewrite <- locations_of_cons.
Qed.

(** One call of [read_identifier]. *)
Lemma read_identifier_records self :
  exists tok self',
    read_identifier self = Ok tok self'
    /\ (Token.type tok = IDENTIFIER ->
        let w := lexeme tok in
        let L := (Token.line tok, Token.column tok) in
        Token.value tok = VStr w
        /\ keywords !! w = None
        /\ L = (line self, column self)
        /\ (symbol_table self !! w = None ->
            symbol_table self' !! w
            = Some {| first_seen := L; occurrences := [L] |})
        /\ (forall e, symbol_table self !! w = Some e ->
            symbol_table self' !! w
            = Some {| first_seen := first_seen e;
                      occurrences := occurrences e ++ [L] |})
        /\ (forall w', w' <> w ->
            symbol_table self' !! w' = symbol_table self !! w')).
Proof.
  pose proof (read_identifier_spec self) as P.
  destruct (read_identifier self) as [tok self'|e self'|]; simpl in P;
    [|contradiction..].
  exists tok, self'. split; [reflexivity|].
  destruct P as (_ & _ & Ht & _ & w & _ & _ & ->).
  simpl. intros Hty. unfold lexeme. simpl.
  assert (Hkw : keywords !! w = None).
  { destruct (keywords !! w) as [ty|] eqn:E; [|reflexivity].
    apply keywords_types in E. simpl in Hty. tauto. }
  unfold record_token in Ht. simpl in Ht. rewrite Hty in Ht.
  unfold lexeme in Ht. simpl in Ht. rewrite Ht.
  splits; auto.
  - intros Hnone. rewrite (record_occurrence_new _ _ _ Hnone).
    apply lookup_insert_eq.
  - intros e He. rewrite (record_occurrence_old _ _ _ _ He).
    apply lookup_insert_eq.
  - intros w' Hne. destruct (symbol_table self !! w) as [e|] eqn:E.
    + rewrite (record_occurrence_old _ _ _ _ E). now apply lookup_insert_ne.
    + rewrite (record_occurrence_new _ _ _ E). now apply lookup_insert_ne.
Qed.

Lemma maximal_prefix_unique p w r w' r' :
  string_forall p w = true -> string_forall p w' = true ->
  match r with "" => true | String c _ => negb (p c) end = true ->
  match r' with "" => true | String c _ => negb (p c) end = true ->
  w ++ r = w' ++ r' ->
  w = w' /\ r = r'.
Proof.
  revert w'. induction w as [|c w IH]; intros [|c' w'] Hw Hw' Hr Hr' Heq.
  - auto.
  - exfalso. rewrite append_nil, append_cons in Heq. subst r.
    simpl in Hw'. apply andb_true_iff in Hw'. destruct Hw' as [Hc _].
    rewrite Hc in Hr. discriminate.
  - exfalso. rewrite append_nil, append_cons in Heq. subst r'.
    simpl in Hw. apply andb_true_iff in Hw. destruct Hw as [Hc _].
    rewrite Hc in Hr'. discriminate.
  - rewrite !append_cons in Heq. injection Heq as <- Heq.
    simpl in Hw, Hw'. apply andb_true_iff in Hw. apply andb_true_iff in Hw'.
    destruct (IH w') as [-> ->]; tauto.
Qed.

Lemma get_next_token_at_letter s c r :
  pending s = String c r -> isalpha c || (c =c "_") = true ->
  get_next_token s = read_identifier s.
Proof.
  intros Hp Hal.
  destruct (identchar_plain c (isalpha_identchar c Hal)) as [Hsp Hsl].
  unfold get_next_token, bind at 1.
  unfold fuel_of, while; fold (@while unit Token).
  rewrite cur_is_pending, Hp.
  unfold bind at 1, get. rewrite current_char_pending, Hp.
  cbv beta iota delta [shead]. rewrite Hsp, Hsl, Hal.
  cbn [andb orb]. cbv beta iota.
  unfold bind. destruct (read_identifier s); reflexivity.
Qed.

(** A word at the cursor that is not a keyword. *)
Lemma scan_of_an_identifier s c w rest :
  pending s = String c w ++ rest ->
  isalpha c || (c =c "_") = true ->
  string_forall identchar w = true ->
  match rest with "" => true | String d _ => negb (identchar d) end = true ->
  keywords !! String c w = None ->
  exists s',
    get_next_token s
    = Ok (Token.mk IDENTIFIER (VStr (String c w)) (line s) (column s)) s'
    /\ pending s' = rest
    /\ symbol_table s'
       = record_occurrence (String c w) (line s, column s) (symbol_table s).
Proof.
  intros Hp Hc Hw Hrest Hkw. rewrite append_cons in Hp.
  rewrite (get_next_token_at_letter _ _ _ Hp Hc).
  pose proof (read_identifier_spec s) as P.
  destruct (read_identifier s) as [tok s'|e s'|]; simpl in P;
    [|contradiction..].
  destruct P as (_ & _ & Ht & Hcur & w' & Hp' & Hw' & ->).
  rewrite cur_is_pending in Hcur.
  destruct (maximal_prefix_unique identchar w' (pending s') (String c w) rest)
    as [-> Hrest'].
  - exact Hw'.
  - simpl. now rewrite (isalpha_identchar c Hc), Hw.
  - destruct (pending s'); [reflexivity|]. now rewrite Hcur.
  - exact Hrest.
  - rewrite <- Hp', Hp. now rewrite append_cons.
  - rewrite Hkw in *. exists s'. splits; auto.
Qed.

(** C6: a word [w] that is not a keyword, scanned at the location [L] of
    the cursor, is returned as the [IDENTIFIER] token [w] located at [L],
    and it is recorded: if the table has no entry for [w] (the first scan
    of [w]), the scan creates one with [first_seen = L] and the occurrence
    list [[L]]; if it has one, the scan appends [L] to its occurrence list
    and leaves [first_seen] as it was; no other entry changes.  This is the
    work of [read_identifier], which always returns a token and records it
    in this way whenever it is an [IDENTIFIER].  Hence, over any run of
    scans, the entry of [w] is the one the run started with, extended by
    the locations of the [IDENTIFIER] tokens [w] in the order of the scans:
    when there was none, [first_seen] is the location of the first scan
    and the occurrence list holds the locations of all of them. *)
Theorem C6_identifier_occurrences :
  (forall s c w rest,
     pending s = String c w ++ rest ->
     isalpha c || (c =c "_") = true ->
     string_forall identchar w = true ->
     match rest with "" => true | String d _ => negb (identchar d) end = true ->
     keywords !! String c w = None ->
     let L := (line s, column s) in
     exists s',
       get_next_token s
       = Ok (Token.mk IDENTIFIER (VStr (String c w)) (line s) (column s)) s'
       /\ pending s' = rest
       /\ (symbol_table s !! String c w = None ->
           symbol_table s' !! String c w
           = Some {| first_seen := L; occurrences := [L] |})
       /\ (forall e, symbol_table s !! String c w = Some e ->
           symbol_table s' !! String c w
           = Some {| first_seen := first_seen e;
                     occurrences := occurrences e ++ [L] |})
       /\ (forall w', w' <> String c w ->
           symbol_table s' !! w' = symbol_table s !! w'))
  /\ (forall self,
        exists tok self',
          read_identifier self = Ok tok self'
          /\ (Token.type tok = IDENTIFIER ->
              let w := lexeme tok in
              let L := (Token.line tok, Token.column tok) in
              Token.value tok = VStr w
              /\ keywords !! w = None
              /\ L = (line self, column self)
              /\ (symbol_table self !! w = None ->
                  symbol_table self' !! w
                  = Some {| first_seen := L; occurrences := [L] |})
              /\ (forall e, symbol_table self !! w = Some e ->
                  symbol_table self' !! w
                  = Some {| first_seen := first_seen e;
                            occurrences := occurrences e ++ [L] |})
              /\ (forall w', w' <> w ->
                  symbol_table self' !! w' = symbol_table self !! w')))
  /\ (forall self ts self1 w,
        scanned self ts self1 ->
        symbol_table self1 !! w
        = extend_entry (symbol_table self !! w) (locations_of w ts)).
Proof.
  split; [|split].
  - intros s c w rest Hp Hc Hw Hrest Hkw L.
    destruct (scan_of_an_identifier s c w rest Hp Hc Hw Hrest Hkw)
      as (s' & Hget & Hp' & Ht).
    exists s'. rewrite Ht. splits; auto.
    + intros Hnone. rewrite (record_occurrence_new _ _ _ Hnone).
      apply lookup_insert_eq.
    + intros e He. rewrite (record_occurrence_old _ _ _ _ He).
      apply lookup_insert_eq.
    + intros w' Hne.
      destruct (symbol_table s !! String c w) as [e|] eqn:E.
      * rewrite (record_occurrence_old _ _ _ _ E). now apply lookup_insert_ne.
      * rewrite (record_occurrence_new _ _ _ E). now apply lookup_insert_ne.
  - apply read_identifier_records.
  - intros self ts self1 w Hsc.
    rewrite (scanned_table _ _ _ Hsc). apply fold_record_token_lookup.
Qed.

Lemma C6_witness :
  pending (start "total = 0") = String "t" "otal" ++ " = 0"
  /\ keywords !! "total" = None
  /\ symbol_table (start "total = 0") !! "total" = None
  /\ exists s',
       get_next_token (start "total = 0")
       = Ok (Token.mk IDENTIFIER (VStr "total") 1 2) s'
       /\ pending s' = " = 0"
       /\ symbol_table s' !! "total"
          = Some {| first_seen := (1, 2); occurrences := [(1, 2)] |}.
Proof.
  split; [reflexivity|]. split; [reflexivity|]. split; [reflexivity|].
  destruct (proj1 C6_identifier_occurrences (start "total = 0")
              "t"%char "otal" " = 0")
    as (s' & Hget & Hp & Hnew & _);
    [reflexivity..|].
  exists s'. split; [exact Hget|]. split; [exact Hp|].
  apply Hnew. reflexivity.
Defined.

(** The same on a run: three scans of [x] and one of [y], with a keyword in
    between. *)
Example occurrences_of_x_and_y :
  exists toks self',
    tokenize "x int x y x" new = Ok (toks, []) self'
    /\ symbol_table self' !! "x"
       = Some {| first_seen := (1, 2);
                 occurrences := [(1, 2); (1, 8); (1, 12)] |}
    /\ symbol_table self' !! "y"
       = Some {| first_seen := (1, 10); occurrences := [(1, 10)] |}
    /\ symbol_table self' !! "int" = None.
Proof.
  destruct (tokenize "x int x y x" new) as [[toks out] s|e s|] eqn:H;
    vm_compute in H; try discriminate.
  injection H as <- <- <-. eexists _, _. splits; reflexivity.
Qed.

(** ** String and character literals *)

Lemma with_prefix_nil r : with_prefix "" r = r.
Proof. now destruct r. Qed.

Lemma with_prefix_app a b r :
  with_prefix (a ++ b) r = with_prefix a (with_prefix b r).
Proof. destruct r; simpl; auto. now rewrite append_assoc. Qed.

Lemma string_literal_cons c t :
  string_literal (String c t) =
    if c =c dquote then Closed "" t
    else if c =c backslash then
      match t with
      | "" => BadEscape
      | String e t' =>
          if is_escape dquote (Some e)
          then with_prefix (String backslash (String e "")) (string_literal t')
          else BadEscape
      end
    else with_prefix (String c "") (string_literal t).
Proof. reflexivity. Qed.

Lemma read_string_literal s q l :
  pending s = String q l ->
  opost (read_string s)
    (fun tok s' =>
       exists v rest,
         string_literal l = Closed v rest
         /\ tok = Token.mk STRING (VStr v) (line s) (column s)
         /\ pending s' = rest /\ line s' = line s)
    (fun e s' =>
       (string_literal l = BadEscape
        /\ exists el ec, e = LexicalError "Invalid escape sequence" el ec)
       \/ (string_literal l = Unterminated
           /\ e = LexicalError "Unterminated string literal" (line s) (column s))).
Proof.
  intros Hp. unfold read_string.
  oadvance Hp as s0 Hp0 Hs0 Hl0 Ht0 Hc0.
  apply opost_bind.
  eapply opost_mono;
    [ apply (opost_while
        (fun res s1 =>
           source s1 = source s /\ line s1 = line s
           /\ string_literal l = with_prefix res (string_literal (pending s1)))
        (fun (r : ctl string Empty_set) s1 =>
           match r with
           | Next res =>
               source s1 = source s /\ line s1 = line s
               /\ string_literal l = with_prefix res (string_literal (pending s1))
               /\ cur_is (fun c => negb (c =c dquote)) s1 = false
           | Leave e => False
           end)
        (fun e s' =>
           (string_literal l = BadEscape
            /\ exists el ec, e = LexicalError "Invalid escape sequence" el ec)
           \/ (string_literal l = Unterminated
               /\ e = LexicalError "Unterminated string literal"
                        (line s) (column s))))
    | | ].
  - intros res s1 (Hs & Hl & Hlit) Hc.
    rewrite cur_is_pending in Hc.
    destruct (pending s1) as [|d r1] eqn:Hp1; [discriminate|].
    apply negb_true_iff in Hc. rewrite string_literal_cons, Hc in Hlit.
    ostep. rewrite current_char_pending, Hp1. cbv beta iota delta [shead].
    destruct (d =c backslash) eqn:Hbs.
    + oadvance Hp1 as s2 Hp2 Hs2 Hl2 Ht2 Hc2. ostep.
      rewrite current_char_pending, Hp2.
      destruct r1 as [|e r2]; cbv beta iota delta [shead].
      * ostep. left. rewrite Hlit. simpl. eauto.
      * destruct (is_escape dquote (Some e)).
        -- oadvance Hp2 as s3 Hp3 Hs3 Hl3 Ht3 Hc3. ostep.
           rewrite Hp3. splits; try congruence.
           ++ rewrite Hlit. unfold snoc. rewrite append_assoc.
              rewrite with_prefix_app. reflexivity.
           ++ simpl. lia.
        -- ostep. left. rewrite Hlit. simpl. eauto.
    + oadvance Hp1 as s2 Hp2 Hs2 Hl2 Ht2 Hc2. ostep.
      rewrite Hp2. splits; try congruence.
      * rewrite Hlit. unfold snoc. now rewrite with_prefix_app.
      * simpl. lia.
  - intros res s1 (Hs & Hl & Hlit) Hc. auto.
  - rewrite Hp0. splits; try congruence. now rewrite with_prefix_nil.
  - apply fuel_of_enough. congruence.
  - intros [res|[]] s1 (Hs & Hl & Hlit & Hc).
    rewrite cur_is_pending in Hc.
    ostep. rewrite current_char_pending.
    destruct (pending s1) as [|d r1] eqn:Hp1; cbv beta iota delta [shead].
    + ostep. right. rewrite Hlit, Hl. auto.
    + apply negb_false_iff in Hc.
      rewrite string_literal_cons, Hc in Hlit. simpl in Hlit.
      oadvance Hp1 as s2 Hp2 Hs2 Hl2 Ht2 Hc2. ostep. ostep.
      exists (res ++ ""), r1. splits; try congruence.
      rewrite append_nil_r. congruence.
  - auto.
Qed.

Lemma read_char_literal_literal s q l :
  pending s = String q l ->
  opost (read_char_literal s)
    (fun tok s' =>
       exists v rest,
         char_literal l = Closed v rest
         /\ tok = Token.mk CHAR_LITERAL (VStr v) (line s) (column s)
         /\ pending s' = rest /\ line s' = line s)
    (fun e s' =>
       (char_literal l = BadEscape
        /\ exists el ec, e = LexicalError "Invalid escape sequence" el ec)
       \/ (char_literal l = Unterminated
           /\ e = LexicalError "Unterminated character literal"
                    (line s) (column s))).
Proof.
  intros Hp. unfold read_char_literal.
  oadvance Hp as s0 Hp0 Hs0 Hl0 Ht0 Hc0.
  ostep. rewrite current_char_pending, Hp0.
  destruct l as [|c t]; cbv beta iota delta [shead].
  { ostep. right. rewrite Hl0. auto. }
  unfold char_literal.
  destruct (c =c backslash).
  - apply opost_bind.
    oadvance Hp0 as s1 Hp1 Hs1 Hl1 Ht1 Hc1. ostep.
    rewrite current_char_pending, Hp1.
    destruct t as [|e t']; cbv beta iota delta [shead].
    { ostep. left. eauto. }
    destruct (is_escape squote (Some e)); [|ostep; left; eauto].
    ostep.
    oadvance Hp1 as s2 Hp2 Hs2 Hl2 Ht2 Hc2. ostep.
    rewrite current_char_pending, Hp2.
    destruct t' as [|d rest]; cbv beta iota delta [shead opt_is].
    { ostep. right. split; [reflexivity|]. f_equal. congruence. }
    destruct (d =c squote).
    + oadvance Hp2 as s3 Hp3 Hs3 Hl3 Ht3 Hc3. ostep. ostep.
      eexists _, _. splits; [reflexivity| |assumption|congruence].
      f_equal. congruence.
    + ostep. right. split; [reflexivity|]. f_equal. congruence.
  - ostep.
    oadvance Hp0 as s1 Hp1 Hs1 Hl1 Ht1 Hc1. ostep.
    rewrite current_char_pending, Hp1.
    destruct t as [|d rest]; cbv beta iota delta [shead opt_is].
    { ostep. right. split; [reflexivity|]. f_equal. congruence. }
    destruct (d =c squote).
    + oadvance Hp1 as s2 Hp2 Hs2 Hl2 Ht2 Hc2. ostep. ostep.
      eexists _, _. splits; [reflexivity| |assumption|congruence].
      f_equal. congruence.
    + ostep. right. split; [reflexivity|]. f_equal. congruence.
Qed.

Lemma literal_outcome_intro ty unterminated s r (o : outcome Token) :
  opost o
    (fun tok s' =>
       exists v rest,
         r = Closed v rest
         /\ tok = Token.mk ty (VStr v) (line s) (column s)
         /\ pending s' = rest /\ line s' = line s)
    (fun e s' =>
       (r = BadEscape
        /\ exists el ec, e = LexicalError "Invalid escape sequence" el ec)
       \/ (r = Unterminated
           /\ e = LexicalError unterminated (line s) (column s))) ->
  literal_outcome ty unterminated s r o.
Proof.
  destruct o as [tok s'|e s'|]; simpl; [| |contradiction].
  - intros (v & rest & -> & -> & Hp & Hl). simpl. eauto.
  - intros [[-> (el & ec & ->)]|[-> ->]]; simpl; eauto.
Qed.

(** C7, as the code has it.  Both kinds of literal are read as
    [string_literal] and [char_literal] describe it.  Inside a string a
    backslash must be followed by one of [n], [t], the double quote or a
    backslash; inside a character literal by one of [n], [t], the single
    quote or a backslash: each kind escapes its own quote and rejects the
    other one.  Any other character after the backslash, or the end of the
    input, raises "Invalid escape sequence".  A character literal is one
    character or one recognised escape followed by the closing quote;
    anything else raises "Unterminated character literal". *)
Theorem C7_escape_rules :
  (forall s q l, pending s = String q l ->
     literal_outcome STRING "Unterminated string literal" s
       (string_literal l) (read_string s))
  /\ (forall s q l, pending s = String q l ->
        literal_outcome CHAR_LITERAL "Unterminated character literal" s
          (char_literal l) (read_char_literal s))
  /\ (forall q e,
        is_escape q (Some e) = true
        <-> e = "n"%char \/ e = "t"%char \/ e = q \/ e = backslash)
  /\ (forall q, is_escape q None = false).
Proof.
  splits.
  - intros s q l Hp. apply literal_outcome_intro.
    apply (read_string_literal _ _ _ Hp).
  - intros s q l Hp. apply literal_outcome_intro.
    apply (read_char_literal_literal _ _ _ Hp).
  - intros q e. unfold is_escape. rewrite !orb_true_iff, !Ascii.eqb_eq. tauto.
  - reflexivity.
Qed.

(** C7 fails as stated: the escaped double quote, which a string literal
    accepts, is an invalid escape in a character literal, and the escaped
    single quote, which a character literal accepts, is an invalid escape
    in a string. *)
Lemma C7_each_literal_escapes_its_own_quote :
  let bs := String backslash "" in
  let dq := String dquote "" in
  let sq := String squote "" in
  result (read_char_literal (start (sq ++ bs ++ dq ++ sq)))
    = Some (inr (LexicalError "Invalid escape sequence" 1 4))
  /\ result (read_string (start (dq ++ bs ++ dq ++ dq)))
     = Some (inl (Token.mk STRING (VStr (bs ++ dq)) 1 2))
  /\ result (read_string (start (dq ++ bs ++ sq ++ dq)))
     = Some (inr (LexicalError "Invalid escape sequence" 1 4))
  /\ result (read_char_literal (start (sq ++ bs ++ sq ++ sq)))
     = Some (inl (Token.mk CHAR_LITERAL (VStr (bs ++ sq)) 1 2)).
Proof. vm_compute. auto. Qed.

Lemma string_literal_plain body rest :
  string_forall string_char body = true ->
  string_literal (body ++ String dquote rest) = Closed body rest.
Proof.
  induction body as [|c body IH]; intros H.
  - reflexivity.
  - simpl in H. apply andb_true_iff in H. destruct H as [Hc Hb].
    unfold string_char in Hc. apply andb_true_iff in Hc.
    destruct Hc as [Hq Hbs].
    apply negb_true_iff in Hq. apply negb_true_iff in Hbs.
    rewrite append_cons, string_literal_cons, Hq, Hbs, (IH Hb).
    reflexivity.
Qed.

(** C10, as the code has it: a string literal may contain raw newline
    characters, and any other character than the double quote and the
    backslash; they are stored in the value of the [STRING] token and the
    scan runs on to the closing quote.  [read_string] never changes the
    line counter, so the token and the cursor right after the literal carry
    the line of the opening quote. *)
Theorem C10_raw_newlines_in_strings s q body rest :
  pending s = String q (body ++ String dquote rest) ->
  string_forall string_char body = true ->
  string_char newline = true
  /\ exists s',
       read_string s = Ok (Token.mk STRING (VStr body) (line s) (column s)) s'
       /\ pending s' = rest
       /\ line s' = line s.
Proof.
  intros Hp Hbody. split; [reflexivity|].
  pose proof (read_string_literal _ _ _ Hp) as P.
  rewrite (string_literal_plain _ _ Hbody) in P.
  destruct (read_string s) as [tok s'|e s'|]; simpl in P.
  - destruct P as (v & r & [= <- <-] & -> & Hp' & Hl). eauto.
  - destruct P as [[H _]|[H _]]; discriminate.
  - contradiction.
Qed.

Lemma C10_witness :
  pending (start string_over_two_lines_then_x)
    = String dquote (("a" ++ String newline "b")
                       ++ String dquote (String newline "x"))
  /\ string_forall string_char ("a" ++ String newline "b") = true
  /\ string_char newline = true
  /\ exists s',
       read_string (start string_over_two_lines_then_x)
       = Ok (Token.mk STRING (VStr ("a" ++ String newline "b"))
               (line (start string_over_two_lines_then_x))
               (column (start string_over_two_lines_then_x))) s'
       /\ pending s' = String newline "x"
       /\ line s' = line (start string_over_two_lines_then_x).
Proof.
  split; [reflexivity|]. split; [reflexivity|].
  apply (C10_raw_newlines_in_strings
           (start string_over_two_lines_then_x) dquote
           ("a" ++ String newline "b") (String newline "x"));
    reflexivity.
Defined.

(** C10 fails as stated: after the string literal that spans lines 1 and
    2, the identifier [x] stands on line 3; it is reported on line 2, which
    is not the line of the opening quote either, because the newline after
    the literal is counted. *)
Lemma C10_later_tokens_leave_the_opening_line :
  exists literal x eof,
    returned (tokenize string_over_two_lines_then_x new)
    = Some [literal; x; eof]
    /\ literal = Token.mk STRING (VStr ("a" ++ String newline "b")) 1 2
    /\ x = Token.mk IDENTIFIER (VStr "x") 2 2
    /\ Token.line x <> Token.line literal.
Proof.
  eexists _, _, _. split; [vm_compute; reflexivity|].
  split; [reflexivity|]. split; [reflexivity|]. discriminate.
Qed.

(** ** Rounding to binary64 *)

(** [round_half_even p q] is within a half of [p / q], and even when it is
    exactly a half away. *)
Lemma round_half_even_spec p q :
  0 <= p -> 0 < q ->
  0 <= round_half_even p q
  /\ 2 * Z.abs (round_half_even p q * q - p) <= q
  /\ (2 * Z.abs (round_half_even p q * q - p) = q ->
      Z.even (round_half_even p q) = true).
Proof.
  intros Hp Hq. unfold round_half_even.
  pose proof (Z.div_mod p q ltac:(lia)) as E.
  pose proof (Z.mod_pos_bound p q Hq) as B.
  assert (Hd : 0 <= p / q) by (apply Z.div_pos; lia).
  set (d := p / q) in *. set (r := p mod q) in *.
  destruct (Z.compare_spec (2 * r) q) as [H|H|H].
  - destruct (Z.even d) eqn:Ev.
    + split; [lia|]. split; [|auto].
      replace (d * q - p) with (- r) by lia. lia.
    + split; [lia|]. split.
      * replace ((d + 1) * q - p) with (q - r) by lia. lia.
      * intros _. rewrite Z.even_add, Ev. reflexivity.
  - split; [lia|]. replace (d * q - p) with (- r) by lia. split; lia.
  - split; [lia|]. replace ((d + 1) * q - p) with (q - r) by lia.
    split; lia.
Qed.

Lemma nearest_integer m n D P :
  0 < D -> 2 * Z.abs (m * D - P) <= D ->
  Z.abs (m * D - P) <= Z.abs (n * D - P)
  /\ (Z.abs (m * D - P) = Z.abs (n * D - P) ->
      n = m \/ 2 * Z.abs (m * D - P) = D).
Proof.
  intros HD Hm.
  destruct (Z.lt_trichotomy n m) as [Hlt|[->|Hgt]].
  - assert ((m - n - 1) * D >= 0) by nia.
    replace (n * D - P) with (m * D - P - D - (m - n - 1) * D) by lia.
    lia.
  - split; [lia|auto].
  - assert ((n - m - 1) * D >= 0) by nia.
    replace (n * D - P) with (m * D - P + D + (n - m - 1) * D) by lia.
    lia.
Qed.

Lemma round_half_even_lower a p q :
  0 <= p -> 0 < q -> a * q <= p -> a <= round_half_even p q.
Proof.
  intros Hp Hq Ha.
  destruct (round_half_even_spec p q Hp Hq) as (_ & H & _).
  set (m := round_half_even p q) in *.
  destruct (Z_le_gt_dec a m) as [|Hgt]; [assumption|exfalso].
  assert ((a - m - 1) * q >= 0) by nia. lia.
Qed.

Lemma round_half_even_upper b p q :
  0 <= p -> 0 < q -> p <= b * q -> round_half_even p q <= b.
Proof.
  intros Hp Hq Hb.
  destruct (round_half_even_spec p q Hp Hq) as (_ & H & _).
  set (m := round_half_even p q) in *.
  destruct (Z_le_gt_dec m b) as [|Hgt]; [assumption|exfalso].
  assert ((m - b - 1) * q >= 0) by nia. lia.
Qed.

Lemma pow2_pos j : 0 <= j -> 0 < 2 ^ j.
Proof. intros. apply Z.pow_pos_nonneg; lia. Qed.

Lemma pow2_add a b : 0 <= a -> 0 <= b -> 2 ^ (a + b) = 2 ^ a * 2 ^ b.
Proof. intros. apply Z.pow_add_r; assumption. Qed.

(** With the exponent [ulp_exponent P q] the mantissa has at most 53 bits,
    and exactly 53 unless the exponent is the least one. *)
Lemma ulp_exponent_spec P q :
  0 <= P -> 0 < q ->
  0 <= ulp_exponent P q
  /\ P < q * 2 ^ (53 + ulp_exponent P q)
  /\ (0 < ulp_exponent P q -> q * 2 ^ (52 + ulp_exponent P q) <= P).
Proof.
  intros HP Hq. unfold ulp_exponent.
  pose proof (Z.log2_nonneg P) as HlP. pose proof (Z.log2_nonneg q) as Hlq.
  pose proof (Z.log2_spec q Hq) as [Hq1 Hq2].
  assert (HP2 : P < 2 ^ Z.succ (Z.log2 P)).
  { destruct (Z.eq_dec P 0) as [->|]; [simpl; lia|].
    apply Z.log2_spec. lia. }
  assert (HP1 : 0 < P -> 2 ^ Z.log2 P <= P) by (intros; now apply Z.log2_spec).
  set (lP := Z.log2 P) in *. set (lq := Z.log2 q) in *.
  set (j0 := Z.max 0 (lP - lq - 53)).
  assert (Hj0 : 0 <= j0) by lia.
  assert (Hup : P < q * 2 ^ (54 + j0)).
  { apply Z.lt_le_trans with (1 := HP2).
    apply Z.le_trans with (2 ^ lq * 2 ^ (54 + j0)).
    - rewrite <- pow2_add by lia. apply Z.pow_le_mono_r; lia.
    - apply Z.mul_le_mono_nonneg_r; [|assumption].
      pose proof (pow2_pos (54 + j0)). lia. }
  assert (Hlow : 0 < j0 -> q * 2 ^ (52 + j0) <= P).
  { intros Hpos. assert (0 < P).
    { destruct (Z.eq_dec P 0) as [E|]; [|lia]. exfalso.
      subst P. change (Z.log2 0) with 0 in lP. lia. }
    apply Z.le_trans with (2 := HP1 ltac:(assumption)).
    apply Z.le_trans with (2 ^ Z.succ lq * 2 ^ (52 + j0)).
    - apply Z.mul_le_mono_nonneg_r; [|lia].
      pose proof (pow2_pos (52 + j0)). lia.
    - rewrite <- pow2_add by lia. apply Z.pow_le_mono_r; lia. }
  destruct (Z.ltb_spec P (q * 2 ^ (53 + j0))) as [Ht|Ht].
  - auto.
  - split; [lia|]. split.
    + replace (53 + (j0 + 1)) with (54 + j0) by lia. assumption.
    + intros _. replace (52 + (j0 + 1)) with (53 + j0) by lia. assumption.
Qed.

Lemma nearest_on_grid P q j m m' j' :
  0 <= P -> 0 < q -> 0 <= j ->
  (0 < j -> q * 2 ^ (52 + j) <= P) ->
  2 * Z.abs (m * (q * 2 ^ j) - P) <= q * 2 ^ j ->
  0 <= m' < 2 ^ 53 -> 0 <= j' ->
  Z.abs (m * 2 ^ j * q - P) <= Z.abs (m' * 2 ^ j' * q - P)
  /\ (Z.abs (m * 2 ^ j * q - P) = Z.abs (m' * 2 ^ j' * q - P) ->
      m' * 2 ^ j' = m * 2 ^ j
      \/ 2 * Z.abs (m * (q * 2 ^ j) - P) = q * 2 ^ j).
Proof.
  intros HP Hq Hj Hnorm Hm Hm' Hj'.
  pose proof (pow2_pos j Hj) as Hpj.
  assert (HD : 0 < q * 2 ^ j) by nia.
  replace (m * 2 ^ j * q) with (m * (q * 2 ^ j)) by ring.
  destruct (Z_le_gt_dec j j') as [Hle|Hgt].
  - replace j' with (j + (j' - j)) by lia. rewrite pow2_add by lia.
    replace (m' * (2 ^ j * 2 ^ (j' - j)) * q)
      with (m' * 2 ^ (j' - j) * (q * 2 ^ j)) by ring.
    destruct (nearest_integer m (m' * 2 ^ (j' - j)) _ P HD Hm) as [H1 H2].
    split; [assumption|]. intros E. destruct (H2 E) as [Hn|]; [left|right].
    + rewrite <- Hn. ring.
    + assumption.
  - specialize (Hnorm ltac:(lia)).
    destruct (nearest_integer m (2 ^ 52) _ P HD Hm) as [H1 _].
    assert (Hk' : m' * 2 ^ j' * q < q * 2 ^ (52 + j)).
    { assert (2 ^ j' <= 2 ^ (j - 1)) by (apply Z.pow_le_mono_r; lia).
      pose proof (pow2_pos j' Hj').
      replace (52 + j) with (53 + (j - 1)) by lia.
      rewrite pow2_add by lia.
      assert (m' * 2 ^ j' < 2 ^ 53 * 2 ^ (j - 1)) by nia.
      nia. }
    replace (2 ^ 52 * (q * 2 ^ j)) with (q * 2 ^ (52 + j)) in H1
      by (rewrite pow2_add by lia; ring).
    split; [lia|]. intros E. exfalso. lia.
Qed.

(** The rounded number is finite exactly below the overflow threshold. *)
Lemma binary64_finite_iff P q :
  0 <= P -> 0 < q ->
  round_half_even P (q * 2 ^ ulp_exponent P q) * 2 ^ ulp_exponent P q
  < 2 ^ 2098
  <-> P < (2 ^ 54 - 1) * 2 ^ 2044 * q.
Proof.
  intros HP Hq.
  destruct (ulp_exponent_spec P q HP Hq) as (Hj & Hup & Hnorm).
  set (j := ulp_exponent P q) in *.
  pose proof (pow2_pos j Hj) as Hpj.
  assert (HD : 0 < q * 2 ^ j) by nia.
  destruct (round_half_even_spec P (q * 2 ^ j) HP HD) as (Hm0 & Hm & Hev).
  assert (Hm53 : round_half_even P (q * 2 ^ j) <= 2 ^ 53).
  { apply round_half_even_upper; try assumption.
    rewrite pow2_add in Hup by lia. lia. }
  set (m := round_half_even P (q * 2 ^ j)) in *.
  replace (2 ^ 2098) with (2 ^ 54 * 2 ^ 2044) by reflexivity.
  pose proof (pow2_pos 2044 ltac:(lia)) as HT.
  destruct (Z_lt_le_dec j 2045) as [Hlt|Hge].
  - assert (Hle : 2 ^ j <= 2 ^ 2044) by (apply Z.pow_le_mono_r; lia).
    rewrite pow2_add in Hup by lia.
    set (T := 2 ^ 2044) in *. set (A := 2 ^ j) in *. clearbody T A.
    assert (q * A <= q * T) by nia.
    split; intros _; nia.
  - destruct (Z.eq_dec j 2045) as [E|Hne].
    + assert (EA : 2 ^ j = 2 * 2 ^ 2044) by (rewrite E; reflexivity).
      rewrite EA in *. set (T := 2 ^ 2044) in *. clearbody T.
      split; intros Hyp.
      * assert (Hm' : m <= 2 ^ 53 - 1) by nia.
        destruct (Z.eq_dec m (2 ^ 53 - 1)) as [Em|Hm''].
        -- destruct (Z.eq_dec (2 * Z.abs (m * (q * (2 * T)) - P))
                       (q * (2 * T))) as [Etie|Hnt].
           ++ apply Hev in Etie. rewrite Em in Etie. discriminate.
           ++ rewrite Em in Hm, Hnt. lia.
        -- assert ((2 ^ 53 - 2 - m) * (q * T) >= 0) by nia. lia.
      * destruct (Z_lt_le_dec m (2 ^ 53)) as [|Hbig]; [nia|exfalso].
        assert ((m - 2 ^ 53) * (q * T) >= 0) by nia. lia.
    + specialize (Hnorm ltac:(lia)).
      assert (Hm52 : 2 ^ 52 <= m).
      { apply round_half_even_lower; try assumption.
        rewrite pow2_add in Hnorm by lia. lia. }
      assert (Hge' : 2 ^ 2046 <= 2 ^ j) by (apply Z.pow_le_mono_r; lia).
      replace (2 ^ 2046) with (4 * 2 ^ 2044) in Hge' by reflexivity.
      rewrite pow2_add in Hnorm by lia.
      set (T := 2 ^ 2044) in *. set (A := 2 ^ j) in *. clearbody T A.
      assert (q * (4 * T) <= q * A) by nia.
      split; intros Hyp; exfalso; nia.
Qed.

Lemma binary64_mantissa P q :
  0 <= P -> 0 < q ->
  let j := ulp_exponent P q in
  let m := round_half_even P (q * 2 ^ j) in
  m * 2 ^ j < 2 ^ 2098 ->
  exists mc jc,
    m * 2 ^ j = mc * 2 ^ jc
    /\ 0 <= mc < 2 ^ 53 /\ 0 <= jc <= 2045
    /\ (2 ^ 52 <= mc \/ jc = 0)
    /\ (2 * Z.abs (m * (q * 2 ^ j) - P) = q * 2 ^ j -> Z.even mc = true).
Proof.
  intros HP Hq j m Hfin.
  destruct (ulp_exponent_spec P q HP Hq) as (Hj & Hup & Hnorm).
  fold j in Hj, Hup, Hnorm.
  pose proof (pow2_pos j Hj) as Hpj.
  assert (HD : 0 < q * 2 ^ j) by nia.
  destruct (round_half_even_spec P (q * 2 ^ j) HP HD) as (Hm0 & Hm & Hev).
  assert (Hm53 : m <= 2 ^ 53).
  { apply round_half_even_upper; try assumption.
    rewrite pow2_add in Hup by lia. lia. }
  assert (Hm52 : 0 < j -> 2 ^ 52 <= m).
  { intros Hpos. apply round_half_even_lower; try assumption.
    specialize (Hnorm Hpos). rewrite pow2_add in Hnorm by lia. lia. }
  fold m in Hm0, Hm, Hev.
  assert (Hjmax : 0 < j -> 2 ^ 52 <= m -> m * 2 ^ j < 2 ^ 2098 -> j <= 2045).
  { intros _ H52 H. destruct (Z_le_gt_dec j 2045) as [|Hgt]; [assumption|].
    exfalso.
    assert (Hge' : 2 ^ 2046 <= 2 ^ j) by (apply Z.pow_le_mono_r; lia).
    replace (2 ^ 2098) with (2 ^ 52 * 2 ^ 2046) in H by reflexivity.
    set (T := 2 ^ 2046) in *. set (A := 2 ^ j) in *. clearbody T A. nia. }
  destruct (Z.eq_dec m (2 ^ 53)) as [E|Hne].
  - exists (2 ^ 52), (j + 1). rewrite E. split.
    + rewrite pow2_add by lia. change (2 ^ 53) with (2 ^ 52 * 2 ^ 1). ring.
    + split; [lia|]. split.
      * split; [lia|].
        destruct (Z_le_gt_dec (j + 1) 2045) as [|Hgt]; [assumption|exfalso].
        assert (Hge' : 2 ^ 2045 <= 2 ^ j) by (apply Z.pow_le_mono_r; lia).
        rewrite E in Hfin.
        replace (2 ^ 2098) with (2 ^ 53 * 2 ^ 2045) in Hfin by reflexivity.
        set (T := 2 ^ 2045) in *. set (A := 2 ^ j) in *. clearbody T A. nia.
      * split; [left; lia|reflexivity].
  - exists m, j. split; [reflexivity|]. split; [lia|]. split.
    + destruct (Z.eq_dec j 0); [lia|]. split; [lia|].
      apply Hjmax; [lia|apply Hm52; lia|assumption].
    + split; [|assumption].
      destruct (Z.eq_dec j 0); [right; assumption|left; apply Hm52; lia].
Qed.

Lemma Qabs_diff a d p q :
  (Qabs ((a # d) - (p # q)) == Z.abs (a * Zpos q - p * Zpos d) # (d * q))%Q.
Proof.
  unfold Qminus, Qplus, Qopp, Qabs. cbn [Qnum Qden].
  replace (a * Z.pos q + - p * Z.pos d) with (a * Z.pos q - p * Z.pos d)
    by ring.
  reflexivity.
Qed.

Lemma Qle_same_den a b d : ((a # d) <= (b # d))%Q <-> a <= b.
Proof.
  unfold Qle. cbn [Qnum Qden]. split; intros H.
  - apply Z.mul_le_mono_pos_r in H; [assumption|reflexivity].
  - apply Z.mul_le_mono_pos_r; [reflexivity|assumption].
Qed.

Lemma Qeq_same_den a b d : ((a # d) == (b # d))%Q <-> a = b.
Proof.
  unfold Qeq. cbn [Qnum Qden]. split; intros H.
  - apply Z.mul_cancel_r in H; [assumption|discriminate].
  - now rewrite H.
Qed.

Lemma pos_units : Z.pos (2 ^ 1074) = 2 ^ 1074.
Proof. apply Pos2Z.inj_pow. Qed.

Lemma number_units m e :
  -1074 <= e ->
  (inject_Z m * Qpower 2 e == (m * 2 ^ (e + 1074)) # (2 ^ 1074))%Q.
Proof.
  intros He.
  replace e with ((e + 1074) + (- 1074)) at 1 by ring.
  rewrite Qpower_plus by discriminate.
  change (2%Q) with (inject_Z 2) at 1.
  rewrite <- Zpower_Qpower by lia.
  assert (E : (Qpower 2 (- 1074) == 1 # (2 ^ 1074))%Q).
  { change (Qpower 2 (-1074)) with (/ Qpower_positive 2 1074)%Q.
    rewrite Qpower_decomp_positive.
    unfold Qinv. cbn [Qnum Qden]. 
    rewrite <- Pos2Z.inj_pow. cbn [Z.pow_pos]. reflexivity. }
  rewrite E. unfold Qmult, inject_Z, Qeq. cbn [Qnum Qden].
  rewrite !Pos.mul_1_l. ring.
Qed.

Lemma binary64_number_units m e z :
  binary64_number m e z ->
  exists j, 0 <= j /\ (z == (m * 2 ^ j) # (2 ^ 1074))%Q.
Proof.
  intros (Hm & He & Hz). exists (e + 1074). split; [lia|].
  rewrite Hz. apply number_units. lia.
Qed.

Lemma units_binary64_number m j :
  0 <= m < 2 ^ 53 -> 0 <= j <= 2045 ->
  binary64_number m (j - 1074) ((m * 2 ^ j) # (2 ^ 1074)).
Proof.
  intros Hm Hj. split; [assumption|]. split; [lia|].
  rewrite number_units by lia.
  replace (j - 1074 + 1074) with j by ring. reflexivity.
Qed.

(** [binary64] rounds to nearest, ties to even. *)
Theorem binary64_rounds p q :
  0 <= p -> 0 < q -> rounds_to (p # Z.to_pos q) (binary64 p q).
Proof.
  intros Hp Hq. unfold binary64. cbv zeta.
  set (P := p * 2 ^ 1074).
  assert (HP : 0 <= P).
  { unfold P. pose proof (pow2_pos 1074 ltac:(lia)). nia. }
  pose proof (binary64_finite_iff P q HP Hq) as Hfin.
  pose proof (binary64_mantissa P q HP Hq) as Hman. cbv zeta in Hman.
  destruct (ulp_exponent_spec P q HP Hq) as (Hj & Hup & Hnorm).
  set (j := ulp_exponent P q) in *.
  pose proof (pow2_pos j Hj) as Hpj.
  assert (HD : 0 < q * 2 ^ j) by nia.
  destruct (round_half_even_spec P (q * 2 ^ j) HP HD) as (Hm0 & Hm & Hev).
  set (m := round_half_even P (q * 2 ^ j)) in *.
  assert (Hthr : forall T : Z,
             (p # Z.to_pos q < inject_Z T)%Q <-> P < T * 2 ^ 1074 * q).
  { intros T. unfold Qlt, inject_Z. cbn [Qnum Qden].
    rewrite Z2Pos.id by assumption. unfold P.
    pose proof (pow2_pos 1074 ltac:(lia)) as HU.
    set (U := 2 ^ 1074) in *. clearbody U. split; intros H; nia. }
  assert (Hconst : (2 ^ 1024 - 2 ^ 970) * 2 ^ 1074 = (2 ^ 54 - 1) * 2 ^ 2044)
    by reflexivity.
  destruct (Z.leb_spec (2 ^ 2098) (m * 2 ^ j)) as [Hinf|Hlt].
  - cbv beta iota delta [rounds_to]. apply Qnot_lt_le. intros H. apply Hthr in H.
    rewrite Hconst in H. apply Hfin in H. lia.
  - cbv beta iota delta [rounds_to]. split.
    { apply Hthr. rewrite Hconst. now apply Hfin. }
    split; [apply Qcanon.Qred_involutive|].
    destruct (Hman Hlt) as (mc & jc & Hk & Hmc & Hjc & Hnormal & Heven).
    exists mc, (jc - 1074). split.
    { destruct (units_binary64_number mc jc Hmc Hjc) as (H1 & H2 & H3).
      split; [assumption|]. split; [assumption|].
      rewrite Qred_correct, Hk. exact H3. }
    split; [unfold normal; lia|].
    intros m' e' z Hz.
    pose proof Hz as (Hm' & _ & _).
    destruct (binary64_number_units _ _ _ Hz) as (j' & Hj' & Ez).
    destruct (nearest_on_grid P q j m m' j' HP Hq Hj Hnorm Hm Hm' Hj')
      as [Hnear Htie].
    assert (Hy : (Qabs (Qred (m * 2 ^ j # 2 ^ 1074) - (p # Z.to_pos q))
                  == Z.abs (m * 2 ^ j * q - P) # (2 ^ 1074 * Z.to_pos q))%Q).
    { rewrite Qred_correct, Qabs_diff, Z2Pos.id, pos_units by assumption.
      reflexivity. }
    assert (Hz' : (Qabs (z - (p # Z.to_pos q))
                   == Z.abs (m' * 2 ^ j' * q - P) # (2 ^ 1074 * Z.to_pos q))%Q).
    { rewrite Ez, Qabs_diff, Z2Pos.id, pos_units by assumption.
      reflexivity. }
    rewrite Hy, Hz'. split.
    + apply Qle_same_den. exact Hnear.
    + intros E. apply Qeq_same_den in E.
      destruct (Htie E) as [Hsame|Ht].
      * left. rewrite Ez, Qred_correct, Hsame. reflexivity.
      * right. apply Heven. exact Ht.
Qed.

(** The integers up to [2 ^ 53] are their own floats. *)
Lemma binary64_exact n :
  0 <= n <= 2 ^ 53 -> binary64 n 1 = Finite (inject_Z n).
Proof.
  intros Hn. pose proof (binary64_rounds n 1 (proj1 Hn) eq_refl) as R.
  change (n # Z.to_pos 1)%Q with (inject_Z n) in R.
  destruct (binary64 n 1) as [y|].
  - destruct R as (_ & Hred & m & e & _ & _ & Hnear).
    assert (Hself : exists m' e', binary64_number m' e' (inject_Z n)).
    { destruct (Z.eq_dec n (2 ^ 53)) as [->|Hne].
      - exists (2 ^ 52), 1. split; [lia|]. split; [lia|]. reflexivity.
      - exists n, 0. split; [lia|]. split; [lia|].
        change (Qpower 2 0) with 1%Q. now rewrite Qmult_1_r. }
    destruct Hself as (m' & e' & Hself).
    destruct (Hnear m' e' _ Hself) as [Hle _].
    assert (E : (y == inject_Z n)%Q).
    { clear -Hle. destruct y as [yn yd].
      unfold Qabs, Qminus, Qplus, Qopp, Qle, Qeq, inject_Z in *.
      cbn [Qnum Qden] in *. lia. }
    rewrite <- Hred. f_equal. rewrite (Qred_complete _ _ E).
    apply Qcanon.Qred_identity. apply Z.gcd_1_r.
  - exfalso. cbv beta iota delta [rounds_to] in R. unfold Qle, inject_Z in R. cbn [Qnum Qden] in R.
    lia.
Qed.

Lemma Qabs_cases u :
  (0 <= u /\ Qabs u == u)%Q \/ (u < 0 /\ Qabs u == - u)%Q.
Proof.
  destruct (Qlt_le_dec u 0) as [H|H].
  - right. split; [assumption|]. apply Qabs_neg. lra.
  - left. split; [assumption|]. now apply Qabs_pos.
Qed.

Lemma between_is_nearer a b c x :
  (a < c)%Q -> (c < b)%Q -> (Qabs (a - x) == Qabs (b - x))%Q ->
  (Qabs (c - x) < Qabs (a - x))%Q.
Proof.
  intros Hac Hcb E.
  destruct (Qabs_cases (a - x)) as [[Ha Ea]|[Ha Ea]];
    destruct (Qabs_cases (b - x)) as [[Hb Eb]|[Hb Eb]];
    destruct (Qabs_cases (c - x)) as [[Hc Ec]|[Hc Ec]];
    rewrite Ea, Eb in E; rewrite Ea, Ec; lra.
Qed.

Lemma Qlt_same_den a b d : ((a # d) < (b # d))%Q <-> a < b.
Proof.
  unfold Qlt. cbn [Qnum Qden]. split; intros H.
  - apply Z.mul_lt_mono_pos_r in H; [assumption|reflexivity].
  - apply Z.mul_lt_mono_pos_r; [reflexivity|assumption].
Qed.

Lemma even_mantissas_apart m1 j1 m2 j2 :
  0 <= m1 < 2 ^ 53 -> 0 <= m2 < 2 ^ 53 ->
  0 <= j1 <= 2045 -> 0 <= j2 <= 2045 ->
  Z.even m1 = true -> Z.even m2 = true ->
  m1 * 2 ^ j1 < m2 * 2 ^ j2 ->
  exists m j,
    0 <= m < 2 ^ 53 /\ 0 <= j <= 2045
    /\ m1 * 2 ^ j1 < m * 2 ^ j < m2 * 2 ^ j2.
Proof.
  intros Hm1 Hm2 Hj1 Hj2 Ev1 Ev2 Hlt.
  apply Z.even_spec in Ev1. destruct Ev1 as [a ->].
  apply Z.even_spec in Ev2. destruct Ev2 as [b ->].
  destruct (Z_le_gt_dec j1 j2) as [Hle|Hgt].
  - exists (2 * a + 1), j1.
    replace j2 with (j1 + (j2 - j1)) in * by lia.
    rewrite pow2_add in * by lia.
    pose proof (pow2_pos j1 ltac:(lia)) as H1.
    pose proof (pow2_pos (j2 - j1) ltac:(lia)) as H2.
    set (A := 2 ^ j1) in *. set (B := 2 ^ (j2 - j1)) in *. clearbody A B.
    assert (2 * a < 2 * (b * B)) by nia.
    assert (2 * a + 1 < 2 * (b * B)) by lia.
    split; [lia|]. split; [lia|]. nia.
  - exists (2 * b - 1), j2.
    replace j1 with (j2 + (j1 - j2)) in * by lia.
    rewrite pow2_add in * by lia.
    pose proof (pow2_pos j2 ltac:(lia)) as H1.
    pose proof (pow2_pos (j1 - j2) ltac:(lia)) as H2.
    set (A := 2 ^ j2) in *. set (B := 2 ^ (j1 - j2)) in *. clearbody A B.
    assert (2 * (a * B) < 2 * b) by nia.
    assert (2 * (a * B) < 2 * b - 1) by lia.
    assert (0 <= a * B) by nia.
    split; [lia|]. split; [lia|]. nia.
Qed.

(** Between two binary64 numbers with even mantissas lies a third one. *)
Lemma no_second_nearest x y1 m1 e1 y2 m2 e2 :
  binary64_number m1 e1 y1 -> binary64_number m2 e2 y2 ->
  Z.even m1 = true -> Z.even m2 = true ->
  (y1 < y2)%Q -> (Qabs (y1 - x) == Qabs (y2 - x))%Q ->
  exists m e z,
    binary64_number m e z /\ (Qabs (z - x) < Qabs (y1 - x))%Q.
Proof.
  intros H1 H2 Ev1 Ev2 Hlt E.
  pose proof H1 as (Hm1 & He1 & Hy1). pose proof H2 as (Hm2 & He2 & Hy2).
  rewrite number_units in Hy1, Hy2 by lia.
  assert (Hk : m1 * 2 ^ (e1 + 1074) < m2 * 2 ^ (e2 + 1074)).
  { apply (Qlt_same_den _ _ (2 ^ 1074)). now rewrite <- Hy1, <- Hy2. }
  destruct (even_mantissas_apart m1 (e1 + 1074) m2 (e2 + 1074))
    as (m & j & Hm & Hj & Hb1 & Hb2); try assumption; try lia.
  exists m, (j - 1074), (m * 2 ^ j # 2 ^ 1074)%Q.
  split; [now apply units_binary64_number|].
  apply between_is_nearer with (b := y2); [| |exact E].
  - rewrite Hy1. now apply Qlt_same_den.
  - rewrite Hy2. now apply Qlt_same_den.
Qed.

(** The float of a rational is unique. *)
Theorem rounds_to_unique x v v' : rounds_to x v -> rounds_to x v' -> v = v'.
Proof.
  assert (Hfin : forall y y' m e m' e',
             binary64_number m e y -> binary64_number m' e' y' ->
             (forall m0 e0 z, binary64_number m0 e0 z ->
                (Qabs (y - x) <= Qabs (z - x))%Q
                /\ ((Qabs (y - x) == Qabs (z - x))%Q ->
                    (z == y)%Q \/ Z.even m = true)) ->
             (forall m0 e0 z, binary64_number m0 e0 z ->
                (Qabs (y' - x) <= Qabs (z - x))%Q
                /\ ((Qabs (y' - x) == Qabs (z - x))%Q ->
                    (z == y')%Q \/ Z.even m' = true)) ->
             (y == y')%Q).
  { intros y y' m e m' e' Hy Hy' N N'.
    destruct (N _ _ _ Hy') as [Hle Htie].
    destruct (N' _ _ _ Hy) as [Hle' Htie'].
    assert (E : (Qabs (y - x) == Qabs (y' - x))%Q) by now apply Qle_antisym.
    destruct (Htie E) as [Hs|Ev]; [now symmetry|].
    destruct (Htie' (Qeq_sym _ _ E)) as [Hs|Ev']; [assumption|].
    destruct (Q_dec y y') as [[Hlt|Hgt]|Heq]; [| |assumption]; exfalso.
    - destruct (no_second_nearest x y m e y' m' e' Hy Hy' Ev Ev' Hlt E)
        as (m0 & e0 & z & Hz & Hnear).
      destruct (N _ _ _ Hz) as [Hz' _]. apply (Qlt_irrefl (Qabs (z - x))).
      now apply Qlt_le_trans with (1 := Hnear).
    - destruct (no_second_nearest x y' m' e' y m e Hy' Hy Ev' Ev Hgt
                  (Qeq_sym _ _ E))
        as (m0 & e0 & z & Hz & Hnear).
      destruct (N' _ _ _ Hz) as [Hz' _]. apply (Qlt_irrefl (Qabs (z - x))).
      now apply Qlt_le_trans with (1 := Hnear). }
  destruct v as [y|], v' as [y'|]; simpl.
  - intros (_ & Hr & m & e & Hy & _ & N) (_ & Hr' & m' & e' & Hy' & _ & N').
    f_equal. rewrite <- Hr, <- Hr'. apply Qred_complete.
    exact (Hfin y y' m e m' e' Hy Hy' N N').
  - intros (Hlt & _) Hge. exfalso. apply (Qlt_irrefl x).
    now apply Qlt_le_trans with (1 := Hlt).
  - intros Hge (Hlt & _). exfalso. apply (Qlt_irrefl x).
    now apply Qlt_le_trans with (1 := Hlt).
  - reflexivity.
Qed.

(** ** Numbers *)

Lemma isdecimal_facts c :
  isdecimal c = true ->
  isdigit c = true /\ (c =c ".") = false /\ isspace c = false
  /\ (c =c "/") = false /\ isalpha c = false /\ (c =c "_") = false
  /\ (c =c dquote) = false /\ (c =c squote) = false.
Proof.
  destruct c as [[] [] [] [] [] [] [] []]; vm_compute; intros H;
    (discriminate H || (splits; reflexivity)).
Qed.

Lemma digits_value_decimal ds acc :
  string_forall isdecimal ds = true ->
  exists n, digits_value acc ds = Some n.
Proof.
  revert acc. induction ds as [|c ds IH]; intros acc H; simpl.
  - eauto.
  - simpl in H. apply andb_true_iff in H. destruct H as [Hc Hd].
    rewrite Hc. apply IH, Hd.
Qed.

Lemma split_dot_decimal ds f :
  string_forall isdecimal ds = true ->
  split_dot (ds ++ String "." f) = (ds, Some f).
Proof.
  induction ds as [|c ds IH]; intros H.
  - reflexivity.
  - simpl in H. apply andb_true_iff in H. destruct H as [Hc Hd].
    rewrite append_cons. simpl.
    destruct (isdecimal_facts c Hc) as (_ & -> & _).
    now rewrite (IH Hd).
Qed.

(** The digits are read as the Standard Library reads a decimal numeral. *)
Ltac digit_case IH Hd k D :=
  let u := fresh "u" in
  let Hu := fresh "Hu" in
  let Hv := fresh "Hv" in
  destruct (IH k Hd) as (u & Hu & Hv); exists (D u);
  split; [rewrite Hu; reflexivity|];
  cbn [Pos.of_uint_acc]; rewrite <- Hv; f_equal; simpl; lia.

Lemma digits_value_acc ds :
  forall acc,
    string_forall isdecimal ds = true ->
    exists u,
      NilEmpty.uint_of_string ds = Some u
      /\ digits_value (Z.pos acc) ds = Some (Z.pos (Pos.of_uint_acc u acc)).
Proof.
  induction ds as [|c ds IH]; intros acc H.
  - exists Decimal.Nil. split; reflexivity.
  - simpl in H. apply andb_true_iff in H. destruct H as [Hc Hd].
    cbn [digits_value NilEmpty.uint_of_string]. rewrite Hc.
    destruct c as [[] [] [] [] [] [] [] []]; try discriminate Hc;
      first [ digit_case IH Hd (10 * acc)%positive Decimal.D0
            | digit_case IH Hd (1 + 10 * acc)%positive Decimal.D1
            | digit_case IH Hd (2 + 10 * acc)%positive Decimal.D2
            | digit_case IH Hd (3 + 10 * acc)%positive Decimal.D3
            | digit_case IH Hd (4 + 10 * acc)%positive Decimal.D4
            | digit_case IH Hd (5 + 10 * acc)%positive Decimal.D5
            | digit_case IH Hd (6 + 10 * acc)%positive Decimal.D6
            | digit_case IH Hd (7 + 10 * acc)%positive Decimal.D7
            | digit_case IH Hd (8 + 10 * acc)%positive Decimal.D8
            | digit_case IH Hd (9 + 10 * acc)%positive Decimal.D9 ].
Qed.

Ltac first_digit ds Hd k D :=
  let u := fresh "u" in
  let Hu := fresh "Hu" in
  let Hv := fresh "Hv" in
  destruct (digits_value_acc ds k Hd) as (u & Hu & Hv); exists (D u);
  split; [rewrite Hu; reflexivity|exact Hv].

Lemma digits_value_uint ds :
  string_forall isdecimal ds = true ->
  exists u,
    NilEmpty.uint_of_string ds = Some u
    /\ digits_value 0 ds = Some (Z.of_uint u).
Proof.
  induction ds as [|c ds IH]; intros H.
  - exists Decimal.Nil. split; reflexivity.
  - simpl in H. apply andb_true_iff in H. destruct H as [Hc Hd].
    cbn [digits_value NilEmpty.uint_of_string]. rewrite Hc.
    destruct c as [[] [] [] [] [] [] [] []]; try discriminate Hc;
      first [ destruct (IH Hd) as (u & Hu & Hv); exists (Decimal.D0 u);
              split; [rewrite Hu; reflexivity|exact Hv]
            | first_digit ds Hd 1%positive Decimal.D1
            | first_digit ds Hd 2%positive Decimal.D2
            | first_digit ds Hd 3%positive Decimal.D3
            | first_digit ds Hd 4%positive Decimal.D4
            | first_digit ds Hd 5%positive Decimal.D5
            | first_digit ds Hd 6%positive Decimal.D6
            | first_digit ds Hd 7%positive Decimal.D7
            | first_digit ds Hd 8%positive Decimal.D8
            | first_digit ds Hd 9%positive Decimal.D9 ].
Qed.

Lemma numeral_uint ds :
  ds <> "" ->
  string_forall isdecimal ds = true ->
  exists u,
    NilZero.uint_of_string ds = Some u
    /\ numeral ds = Some (Z.of_uint u)
    /\ 0 <= Z.of_uint u.
Proof.
  intros Hne Hd. destruct (digits_value_uint ds Hd) as (u & Hu & Hv).
  exists u. destruct ds; [contradiction|].
  split; [exact Hu|]. split; [exact Hv|]. apply N2Z.is_nonneg.
Qed.

Lemma numeral_not_decimal ds :
  string_forall isdecimal ds = false -> numeral ds = None.
Proof.
  intros H. destruct ds; [reflexivity|]. unfold numeral.
  revert H. generalize 0. generalize (String a ds). clear.
  intros ds. induction ds as [|c ds IH]; intros acc H; [discriminate|].
  simpl in *. destruct (isdecimal c); [apply IH, H|reflexivity].
Qed.

Lemma py_int_numeral ds :
  (String.length ds <= int_max_str_digits)%nat -> py_int ds = numeral ds.
Proof.
  intros H. unfold py_int.
  destruct (Nat.ltb_spec int_max_str_digits (String.length ds)); [lia|].
  reflexivity.
Qed.

Lemma py_int_too_long ds :
  (int_max_str_digits < String.length ds)%nat -> py_int ds = None.
Proof.
  intros H. unfold py_int.
  destruct (Nat.ltb_spec int_max_str_digits (String.length ds)); [|lia].
  reflexivity.
Qed.

Lemma py_int_not_decimal ds :
  string_forall isdecimal ds = false -> py_int ds = None.
Proof.
  intros H. unfold py_int. rewrite (numeral_not_decimal _ H).
  now destruct (_ <? _)%nat.
Qed.

Lemma py_float_trailing_dot ds n :
  string_forall isdecimal ds = true ->
  numeral ds = Some n ->
  py_float (ds ++ ".") = Some (binary64 n 1).
Proof.
  intros Hd Hn. unfold py_float. rewrite (split_dot_decimal _ _ Hd).
  rewrite append_nil_r, Hn. reflexivity.
Qed.

Lemma read_number_trailing_dot s ds rest n :
  pending s = ds ++ String "." rest ->
  string_forall isdecimal ds = true ->
  numeral ds = Some n ->
  match rest with "" => true | String c _ => negb (number_char c) end = true ->
  exists s',
    read_number s
    = Ok (Token.mk FLOAT_LITERAL (VFloat (binary64 n 1)) (line s) (column s)) s'
    /\ pending s' = rest.
Proof.
  intros Hp Hds Hn Hrest.
  assert (P : opost (read_number s)
            (fun tok s' =>
               tok = Token.mk FLOAT_LITERAL (VFloat (binary64 n 1))
                       (line s) (column s)
               /\ pending s' = rest)
            (fun _ _ => False)).
  { unfold read_number. apply opost_bind.
    eapply opost_mono;
      [ apply (opost_while
          (fun (st : string * bool) s1 =>
             source s1 = source s /\ line s1 = line s
             /\ ((snd st = false
                  /\ exists todo,
                       ds = fst st ++ todo
                       /\ pending s1 = todo ++ String "." rest)
                 \/ (snd st = true /\ fst st = ds ++ "."
                     /\ pending s1 = rest)))
          (fun (r : ctl (string * bool) Empty_set) s1 =>
             match r with
             | Next st =>
                 line s1 = line s /\ st = (ds ++ ".", true)
                 /\ pending s1 = rest
             | Leave e => False
             end)
          (fun _ _ => False))
      | | ].
    - intros [res isf] s1 (Hs & Hl & Hst) Hc. simpl in Hst.
      change (cur_is number_char s1 = true) in Hc.
      rewrite cur_is_pending in Hc.
      destruct Hst as [(-> & todo & Hds' & Hp1)|(-> & -> & Hp1)].
      + ostep. rewrite current_char_pending, Hp1.
        destruct todo as [|c todo].
        * rewrite append_nil in *. cbv beta iota delta [shead].
          change ("." =c ".") with true. cbv iota.
          oadvance Hp1 as s2 Hp2 Hs2 Hl2 Ht2 Hc2. ostep.
          simpl fst. simpl snd. splits; try congruence.
          -- right. rewrite append_nil_r in Hds'. subst res.
             splits; auto.
          -- rewrite Hp2. simpl. lia.
        * rewrite append_cons in *. cbv beta iota delta [shead].
          assert (Hc' : isdecimal c = true).
          { rewrite Hds' in Hds. clear -Hds.
            induction res as [|d res IH].
            - rewrite append_nil in Hds. simpl in Hds.
              now apply andb_true_iff in Hds.
            - rewrite append_cons in Hds. simpl in Hds.
              apply andb_true_iff in Hds. tauto. }
          destruct (isdecimal_facts c Hc') as (_ & -> & _).
          oadvance Hp1 as s2 Hp2 Hs2 Hl2 Ht2 Hc2. ostep.
          simpl fst. simpl snd. splits; try congruence.
          -- left. split; [reflexivity|]. exists todo.
             rewrite append_snoc. auto.
          -- rewrite Hp2. simpl. lia.
      + exfalso. rewrite Hp1 in Hc. destruct rest as [|c r]; [discriminate|].
        rewrite Hc in Hrest. discriminate.
    - intros [res isf] s1 (Hs & Hl & Hst) Hc. simpl in Hst.
      change (cur_is number_char s1 = false) in Hc.
      rewrite cur_is_pending in Hc.
      destruct Hst as [(-> & todo & Hds' & Hp1)|(-> & -> & Hp1)].
      + exfalso. rewrite Hp1 in Hc. destruct todo as [|c todo].
        * rewrite append_nil in Hc. discriminate.
        * rewrite append_cons in Hc.
          assert (Hc' : isdecimal c = true).
          { rewrite Hds' in Hds. clear -Hds.
            induction res as [|d res IH].
            - rewrite append_nil in Hds. simpl in Hds.
              now apply andb_true_iff in Hds.
            - rewrite append_cons in Hds. simpl in Hds.
              apply andb_true_iff in Hds. tauto. }
          destruct (isdecimal_facts c Hc') as (Hd & _).
          unfold number_char in Hc. rewrite Hd in Hc. discriminate.
      + auto.
    - simpl. splits; auto. left. split; [reflexivity|].
      exists ds. rewrite append_nil. auto.
    - apply fuel_of_enough. reflexivity.
    - intros [[res isf]|[]] s1 (Hl & [= -> ->] & Hp1).
      ostep. rewrite (py_float_trailing_dot _ _ Hds Hn). ostep.
      split; [congruence|assumption].
    - auto. }
  destruct (read_number s) as [tok s'|e s'|]; simpl in P; try contradiction.
  destruct P as [-> Hp']. eauto.
Qed.

Lemma get_next_token_at_digit s d r :
  pending s = String d r -> isdecimal d = true ->
  get_next_token s = read_number s.
Proof.
  intros Hp Hd.
  destruct (isdecimal_facts d Hd) as (Hdg & _ & Hsp & Hsl & Hal & Hus & _).
  unfold get_next_token, bind at 1.
  unfold fuel_of, while; fold (@while unit Token).
  rewrite cur_is_pending, Hp.
  unfold bind at 1, get. rewrite current_char_pending, Hp.
  cbv beta iota delta [shead]. rewrite Hsp, Hsl, Hal, Hus, Hdg.
  cbn [andb orb]. cbv beta iota.
  unfold bind. destruct (read_number s); reflexivity.
Qed.

(** C9: digits followed by one decimal point and then by the end of the
    input, or by a character that is neither a digit nor a point, are read
    without error as one [FLOAT_LITERAL] token; the scan stops after the
    point.  The value is the float of the number [n] that the digits denote
    as a decimal numeral: the binary64 number nearest to [n], ties to even
    ([inf] when [n] is too large), which is [n] itself up to [2 ^ 53]
    (["5."] gives 5.0). *)
Theorem C9_trailing_decimal_point s ds rest :
  pending s = ds ++ String "." rest ->
  ds <> "" ->
  string_forall isdecimal ds = true ->
  match rest with "" => true | String c _ => negb (number_char c) end = true ->
  exists u x s',
    NilZero.uint_of_string ds = Some u
    /\ get_next_token s
       = Ok (Token.mk FLOAT_LITERAL (VFloat x) (line s) (column s)) s'
    /\ pending s' = rest
    /\ rounds_to (inject_Z (Z.of_uint u)) x
    /\ (Z.of_uint u <= 2 ^ 53 -> x = Finite (inject_Z (Z.of_uint u))).
Proof.
  intros Hp Hne Hds Hrest.
  destruct (numeral_uint ds Hne Hds) as (u & Hu & Hn & Hpos).
  destruct (read_number_trailing_dot _ _ _ _ Hp Hds Hn Hrest)
    as (s' & Hread & Hp').
  exists u, (binary64 (Z.of_uint u) 1), s'. splits; auto.
  - destruct ds as [|d ds']; [contradiction|].
    rewrite append_cons in Hp. simpl in Hds. apply andb_true_iff in Hds.
    rewrite (get_next_token_at_digit _ _ _ Hp) by tauto. exact Hread.
  - apply (binary64_rounds (Z.of_uint u) 1 Hpos). reflexivity.
  - intros Hle. apply binary64_exact. split; assumption.
Qed.

Lemma C9_witness :
  pending (start "5.;") = "5" ++ String "." ";"
  /\ "5" <> ""
  /\ string_forall isdecimal "5" = true
  /\ exists s',
       get_next_token (start "5.;")
       = Ok (Token.mk FLOAT_LITERAL (VFloat (Finite (inject_Z 5))) 1 2) s'
       /\ pending s' = ";".
Proof.
  split; [reflexivity|]. split; [discriminate|]. split; [reflexivity|].
  destruct (C9_trailing_decimal_point (start "5.;") "5" ";")
    as (u & x & s' & Hu & Hget & Hp & _ & Hx);
    [reflexivity|discriminate|reflexivity|reflexivity|].
  injection Hu as <-.
  rewrite (Hx ltac:(vm_compute; discriminate)) in Hget.
  exists s'. split; assumption.
Defined.

(** The example of the claim, through the driver, and the float of some
    other literals: [2 ^ 53 + 1] is a tie and goes to the even mantissa,
    a tenth is not a binary fraction, and 400 digits overflow. *)
Example five_point :
  returned (tokenize "5." new)
  = Some [ Token.mk FLOAT_LITERAL (VFloat (Finite (inject_Z 5))) 1 2;
           Token.mk EOF VNone 1 3 ].
Proof. vm_compute. reflexivity. Qed.

Example float_of_literals :
  py_float "9007199254740993." = Some (Finite (inject_Z 9007199254740992))
  /\ py_float "0.1"
     = Some (Finite (3602879701896397 # 36028797018963968))
  /\ py_float (string_of_list_ascii (repeat "9"%char 400) ++ ".") = Some Inf.
Proof. vm_compute. auto. Qed.

Lemma C3_witness :
  (exists a', tokenize sample_code new = Ok (returned_tokens sample_code, []) a')
  /\ Forall (fun t => verbatim (Token.type t) = true \/ Token.type t = EOF)
       (returned_tokens sample_code)
  /\ lexemes (returned_tokens sample_code) = strip Code sample_code
  /\ strip Code sample_code = "if(x<=y)x=y;".
Proof.
  assert (H : exists a',
             tokenize sample_code new = Ok (returned_tokens sample_code, []) a').
  { eexists. vm_compute. reflexivity. }
  assert (F : Forall (fun t => verbatim (Token.type t) = true \/ Token.type t = EOF)
                (returned_tokens sample_code)).
  { vm_compute.
    repeat (constructor; [first [left; reflexivity|right; reflexivity]|]).
    constructor. }
  split; [exact H|]. split; [exact F|].
  destruct H as [a' H]. split; [|reflexivity].
  exact (C3_round_trip_of_verbatim_tokens sample_code new _ a' H F).
Defined.

(** C3 fails as stated: the source made of the string literal ["a"] has no
    whitespace and no comment, and the values of its tokens concatenate to
    [a], without the quotes; the integer literal [007] comes back as the
    number 7, which has no text of three characters. *)
Lemma C3_literal_tokens_do_not_carry_their_lexeme :
  strip Code quoted_a = quoted_a
  /\ returned (tokenize quoted_a new)
     = Some [ Token.mk STRING (VStr "a") 1 2; Token.mk EOF VNone 1 4 ]
  /\ lexemes (returned_tokens quoted_a) = "a"
  /\ lexemes (returned_tokens quoted_a) <> quoted_a
  /\ returned (tokenize "007" new)
     = Some [ Token.mk INTEGER (VInt 7) 1 2; Token.mk EOF VNone 1 4 ].
Proof.
  splits; try (vm_compute; reflexivity).
  vm_compute. discriminate.
Qed.

(** * Further properties of the analyzer *)

(** ** Cursor *)

(** X1: [peek] is the lookahead of [advance]: it returns the character that
    [advance] will make current, and it returns the end sentinel exactly
    when the scan position is at or past the end of the source. *)
Theorem X1_peek_is_what_advance_loads self :
  (exists self', advance self = Ok tt self' /\ current_char self' = peek self)
  /\ (peek self = None <-> (String.length (source self) <= pos self)%nat).
Proof.
  split.
  - unfold advance, peek.
    destruct (String.length (source self) <=? pos self)%nat;
      eexists; split; reflexivity.
  - unfold peek.
    destruct (String.length (source self) <=? pos self)%nat eqn:E.
    + apply Nat.leb_le in E. tauto.
    + destruct (string_drop_inside _ _ E) as [c Hc].
      rewrite get_string_drop, Hc. simpl. apply Nat.leb_gt in E.
      split; [discriminate|lia].
Qed.

(** ** The token list *)

Lemma scanned_progress s ts s1 :
  scanned s ts s1 ->
  (length ts + String.length (pending s1) <= String.length (pending s))%nat
  /\ Forall (fun t => Token.type t <> EOF /\ Token.type t <> ERROR) ts.
Proof.
  induction 1 as [s|s t s1 ts s2 Hget Hty Hsc [IHl IHf]].
  - split; [simpl; lia|constructor].
  - destruct (token_post_of _ _ _ Hget) as (_ & _ & _ & _ & Hlt & _ & Herr).
    destruct (Hlt Hty) as [Hlt' _]. split; [simpl; lia|].
    constructor; auto.
Qed.

(** X4: a list returned by a successful [tokenize] is never empty: it ends
    with one [EOF] token, no token before it is [EOF] or [ERROR], and it
    has at most one token more than the source has characters. *)
Theorem X4_shape_of_the_token_list src a toks a' :
  tokenize src a = Ok (toks, []) a' ->
  exists ts eof,
    toks = (ts ++ [eof])%list
    /\ Token.type eof = EOF
    /\ Forall (fun t => Token.type t <> EOF /\ Token.type t <> ERROR) ts
    /\ (length toks <= S (String.length src))%nat.
Proof.
  intros H. destruct (tokenize_success _ _ _ _ H)
    as (s0 & ts & s1 & eof & Hinit & Hsc & Hget & Hty & ->).
  destruct (init_scanner_spec src a) as (s0' & Hinit' & Hp & _).
  rewrite Hinit in Hinit'. injection Hinit' as <-.
  destruct (scanned_progress _ _ _ Hsc) as [Hlen Hall].
  exists ts, eof. splits; auto.
  rewrite length_app. simpl. rewrite Hp in Hlen. lia.
Qed.

Lemma X4_witness :
  exists a',
    tokenize "a+1" new = Ok (returned_tokens "a+1", []) a'
    /\ exists ts eof,
         returned_tokens "a+1" = (ts ++ [eof])%list
         /\ Token.type eof = EOF
         /\ Forall (fun t => Token.type t <> EOF /\ Token.type t <> ERROR) ts
         /\ (length (returned_tokens "a+1") <= S (String.length "a+1"))%nat.
Proof.
  assert (H : exists a', tokenize "a+1" new = Ok (returned_tokens "a+1", []) a').
  { eexists. vm_compute. reflexivity. }
  destruct H as [a' H]. exists a'. split; [exact H|].
  exact (X4_shape_of_the_token_list "a+1" new _ a' H).
Defined.

(** X5: [tokenize] always comes back.  Either it returns a non-empty token
    list and prints nothing, or it returns the empty list and prints
    exactly one line, or it lets a [ValueError] escape (from [int] or
    [float], while reading a number); it never fails with a [KeyError] on
    its operator table.  So the empty list is returned exactly when an
    error line was printed. *)
Theorem X5_outcomes_of_tokenize src a :
  (exists toks a', tokenize src a = Ok (toks, []) a' /\ toks <> [])
  \/ (exists message l c a',
        tokenize src a
        = Ok ([], ["Lexical Error: " ++ str_of_error message l c]) a'
        /\ lexical_error_kind message)
  \/ (exists a', tokenize src a = Raise ValueError a').
Proof.
  destruct (init_scanner_spec src a) as (s0 & Hinit & _).
  rewrite (tokenize_unfold _ _ _ Hinit).
  destruct (scan_ends s0) as (ts & s1 & Hsc & [(eof & s' & Hget & Hty)
                                               |(e & s' & Hget)]).
  - left. rewrite (scan_all_ok _ _ _ _ _ Hsc Hget Hty).
    eexists _, _. split; [reflexivity|]. now destruct ts.
  - rewrite (scan_all_raise _ _ _ _ _ Hsc Hget).
    destruct (error_post_of _ _ _ Hget) as (_ & _ & _ & He).
    destruct e as [message l c| |]; simpl in He.
    + right. left. eauto 10.
    + right. right. eauto.
    + contradiction.
Qed.

(** ** The symbol table and the token list *)

(** X14: after a successful [tokenize], the entry of every lexeme [w] is
    the entry the analyzer had before, extended by the locations of the
    [IDENTIFIER] tokens [w] of the returned list, in order.  For a fresh
    analyzer the table therefore has an entry for [w] exactly when the list
    has an [IDENTIFIER] token [w], its [first_seen] is the location of the
    first such token, and its occurrence list holds the locations of all
    of them. *)
Theorem X14_table_mirrors_the_tokens src a toks a' w :
  tokenize src a = Ok (toks, []) a' ->
  symbol_table a' !! w
  = extend_entry (symbol_table a !! w) (locations_of w toks).
Proof.
  intros H. rewrite (tokenize_table_success _ _ _ _ H).
  apply fold_record_token_lookup.
Qed.

Lemma X14_witness :
  exists a',
    tokenize "n = n + m" new = Ok (returned_tokens "n = n + m", []) a'
    /\ symbol_table a' !! "n"
       = extend_entry (symbol_table new !! "n")
           (locations_of "n" (returned_tokens "n = n + m"))
    /\ locations_of "n" (returned_tokens "n = n + m") = [(1, 2); (1, 6)].
Proof.
  assert (H : exists a',
             tokenize "n = n + m" new
             = Ok (returned_tokens "n = n + m", []) a').
  { eexists. vm_compute. reflexivity. }
  destruct H as [a' H]. exists a'. split; [exact H|]. split.
  - exact (X14_table_mirrors_the_tokens "n = n + m" new _ a' "n" H).
  - reflexivity.
Defined.

(** X15: a [tokenize] that ends with a lexical error returns the empty
    list, but the identifiers scanned before the error stay recorded: the
    table is the one the analyzer had, with the tokens scanned before the
    error recorded on top. *)
Theorem X15_failed_session_keeps_its_identifiers
    src a s0 ts s1 message l c s2 :
  init_scanner src a = Ok tt s0 ->
  scanned s0 ts s1 ->
  get_next_token s1 = Raise (LexicalError message l c) s2 ->
  returned (tokenize src a) = Some []
  /\ final (tokenize src a) = Some s2
  /\ symbol_table s2 = fold_left record_token ts (symbol_table a)
  /\ forall w,
       symbol_table s2 !! w
       = extend_entry (symbol_table a !! w) (locations_of w ts).
Proof.
  intros Hinit Hsc Hget.
  rewrite (tokenize_unfold _ _ _ Hinit), (scan_all_raise _ _ _ _ _ Hsc Hget).
  destruct (init_scanner_spec src a) as (s0' & Hinit' & _ & _ & Ht0 & _).
  rewrite Hinit in Hinit'. injection Hinit' as <-.
  destruct (error_post_of _ _ _ Hget) as (_ & Ht & _).
  assert (Hfold : symbol_table s2 = fold_left record_token ts (symbol_table a)).
  { now rewrite Ht, (scanned_table _ _ _ Hsc), Ht0. }
  splits; auto. intros w. rewrite Hfold. apply fold_record_token_lookup.
Qed.

Lemma X15_witness :
  let ts := [Token.mk IDENTIFIER (VStr "x") 1 2] in
  let s2 := final_state "x @" in
  returned (tokenize "x @" new) = Some []
  /\ final (tokenize "x @" new) = Some s2
  /\ symbol_table s2 = fold_left record_token ts (symbol_table new)
  /\ forall w,
       symbol_table s2 !! w
       = extend_entry (symbol_table new !! w) (locations_of w ts).
Proof.
  cbv zeta.
  eapply (X15_failed_session_keeps_its_identifiers
            "x @" new (start "x @") [Token.mk IDENTIFIER (VStr "x") 1 2] _
            "Invalid character: @" 1 4 (final_state "x @")).
  - vm_compute. reflexivity.
  - eapply scanned_cons; [vm_compute; reflexivity|discriminate|].
    apply scanned_nil.
  - vm_compute. reflexivity.
Defined.

(** ** An invariant of the entries *)

Lemma record_occurrence_ok w loc t :
  table_ok t -> table_ok (record_occurrence w loc t).
Proof.
  intros Hok w' e'. destruct (t !! w) as [e|] eqn:E.
  - rewrite (record_occurrence_old _ _ _ _ E).
    destruct (decide (w = w')) as [->|Hne].
    + rewrite lookup_insert_eq. intros [= <-].
      specialize (Hok _ _ E). unfold entry_ok in *. simpl.
      destruct (occurrences e); [discriminate|exact Hok].
    + rewrite lookup_insert_ne by exact Hne. apply Hok.
  - rewrite (record_occurrence_new _ _ _ E).
    destruct (decide (w = w')) as [->|Hne].
    + rewrite lookup_insert_eq. intros [= <-]. reflexivity.
    + rewrite lookup_insert_ne by exact Hne. apply Hok.
Qed.

Lemma fold_record_token_ok ts t :
  table_ok t -> table_ok (fold_left record_token ts t).
Proof.
  revert t. induction ts as [|tok ts IH]; intros t Hok; [exact Hok|].
  simpl. apply IH. unfold record_token.
  destruct (Token.type tok); try exact Hok. now apply record_occurrence_ok.
Qed.

Lemma tokenize_final_table src a a' :
  final (tokenize src a) = Some a' ->
  exists ts, symbol_table a' = fold_left record_token ts (symbol_table a).
Proof.
  destruct (init_scanner_spec src a) as (s0 & Hinit & _ & _ & Ht0 & _).
  rewrite (tokenize_unfold _ _ _ Hinit).
  destruct (scan_ends s0) as (ts & s1 & Hsc & [(eof & s' & Hget & Hty)
                                               |(e & s' & Hget)]).
  - rewrite (scan_all_ok _ _ _ _ _ Hsc Hget Hty). simpl. intros [= <-].
    destruct (token_post_of _ _ _ Hget) as (_ & Ht & _).
    exists (ts ++ [eof])%list. rewrite fold_left_app. simpl.
    now rewrite Ht, (scanned_table _ _ _ Hsc), Ht0.
  - rewrite (scan_all_raise _ _ _ _ _ Hsc Hget).
    destruct (error_post_of _ _ _ Hget) as (_ & Ht & _).
    assert (Hfold : symbol_table s'
                    = fold_left record_token ts (symbol_table a)).
    { now rewrite Ht, (scanned_table _ _ _ Hsc), Ht0. }
    destruct e; simpl; intros [= <-]; eauto.
Qed.

(** X16: in every entry of the symbol table the occurrence list is not
    empty and starts with [first_seen].  The empty table of a new analyzer
    has the property, and every call of [tokenize] keeps it, whether it
    returns tokens, reports a lexical error or raises. *)
Theorem X16_first_seen_heads_the_occurrences src a a' :
  table_ok (symbol_table a) ->
  final (tokenize src a) = Some a' ->
  table_ok (symbol_table a').
Proof.
  intros Hok H. destruct (tokenize_final_table _ _ _ H) as (ts & ->).
  now apply fold_record_token_ok.
Qed.

Lemma X16_witness :
  table_ok (symbol_table new)
  /\ exists a',
       final (tokenize "x y x" new) = Some a'
       /\ table_ok (symbol_table a').
Proof.
  assert (H0 : table_ok (symbol_table new)).
  { intros w e H. vm_compute in H. discriminate H. }
  split; [exact H0|].
  eexists. split; [vm_compute; reflexivity|].
  eapply (X16_first_seen_heads_the_occurrences "x y x" new);
    [exact H0|vm_compute; reflexivity].
Defined.

(** ** One round of the scanner, evaluated *)

Lemma get_next_token_at_end s :
  pending s = "" ->
  get_next_token s = Ok (Token.mk EOF VNone (line s) (column s)) s.
Proof.
  intros Hp. unfold get_next_token, bind at 1.
  unfold fuel_of, while. rewrite cur_is_pending, Hp. reflexivity.
Qed.

(* Enter the first round of the loop of [get_next_token] at the current
   character given by [Hp : pending s = String c rest]. *)
Ltac first_round Hp :=
  unfold get_next_token, bind at 1;
  unfold fuel_of, while; fold (@while unit Token);
  rewrite cur_is_pending, Hp; unfold bind at 1, get;
  rewrite current_char_pending, Hp; cbv beta iota delta [shead];
  rewrite ?(peek_pending _ _ _ Hp).

Lemma operator_char_facts c ty :
  operators !! char_str c = Some ty ->
  isspace c = false /\ isalpha c || (c =c "_") = false /\ isdigit c = false
  /\ (c =c dquote) = false /\ (c =c squote) = false.
Proof.
  destruct c as [[] [] [] [] [] [] [] []]; intros H; vm_compute in H;
    first [discriminate H | vm_compute; splits; reflexivity].
Qed.

(** X2: [EOF] is sticky.  Once [get_next_token] has returned an [EOF]
    token, every further call returns the [EOF] token again, with value
    [None] and the same location, and leaves the analyzer as it is. *)
Theorem X2_eof_is_sticky s eof s' :
  get_next_token s = Ok eof s' ->
  Token.type eof = EOF ->
  get_next_token s' = Ok (Token.mk EOF VNone (line s') (column s')) s'.
Proof.
  intros Hget Hty.
  destruct (token_post_of _ _ _ Hget) as (_ & _ & _ & Heof & _).
  destruct (Heof Hty) as (_ & Hp & _).
  now apply get_next_token_at_end.
Qed.

Lemma X2_witness :
  exists eof s',
    get_next_token (start "  ") = Ok eof s'
    /\ Token.type eof = EOF
    /\ get_next_token s' = Ok (Token.mk EOF VNone (line s') (column s')) s'.
Proof.
  eexists _, _.
  assert (H : forall eof s',
             get_next_token (start "  ") = Ok eof s' ->
             Token.type eof = EOF ->
             get_next_token (start "  ") = Ok eof s'
             /\ Token.type eof = EOF
             /\ get_next_token s'
                = Ok (Token.mk EOF VNone (line s') (column s')) s').
  { intros eof s' H1 H2. split; [exact H1|]. split; [exact H2|].
    exact (X2_eof_is_sticky (start "  ") eof s' H1 H2). }
  apply H; vm_compute; reflexivity.
Defined.

Lemma strip_open_block body :
  has_close body = false -> strip BlockComment body = "".
Proof.
  induction body as [|c body IH]; intros H; [reflexivity|].
  simpl in H. apply orb_false_iff in H. destruct H as [Hc Hb].
  simpl. rewrite Hc. auto.
Qed.

(** X3: a block comment that is never closed is not an error: the scanner
    reads on to the end of the input, and [tokenize] returns the [EOF]
    token alone and prints nothing. *)
Theorem X3_unclosed_block_comment body a :
  has_close body = false ->
  exists eof a',
    tokenize ("/*" ++ body) a = Ok ([eof], []) a'
    /\ Token.type eof = EOF.
Proof.
  intros Hb.
  destruct (init_scanner_spec ("/*" ++ body) a) as (s0 & Hinit & Hp & _).
  rewrite (tokenize_unfold _ _ _ Hinit).
  destruct (only_eof_when_stripped_empty s0) as (eof & s' & Hget & Hty & _).
  { rewrite Hp.
    change ("/*" ++ body) with (String "/" (String "*" body)).
    cbn [strip]. change (isspace "/") with false. cbn.
    now apply strip_open_block. }
  rewrite (scan_all_ok s0 [] s0 eof s' (scanned_nil s0) Hget Hty).
  eauto.
Qed.

Lemma X3_witness :
  has_close " never * closed /" = false
  /\ exists eof a',
       tokenize ("/*" ++ " never * closed /") new = Ok ([eof], []) a'
       /\ Token.type eof = EOF.
Proof.
  split; [reflexivity|].
  apply (X3_unclosed_block_comment " never * closed /" new). reflexivity.
Defined.

(** ** Operators and invalid characters *)

(** X8: a character of the operator table that starts neither a comment
    nor a two-character operator is read as one token of the type the
    table gives, with the character as value, and only that character is
    consumed.  The reported column is the column of the character, except
    at the very end of the input, where it is one less. *)
Theorem X8_single_character_operators s c rest ty :
  pending s = String c rest ->
  operators !! char_str c = Some ty ->
  opens_comment c rest = false ->
  opens_comparison c rest = false ->
  exists s',
    get_next_token s
    = Ok (Token.mk ty (VStr (char_str c)) (line s)
            (operator_column (column s) rest)) s'
    /\ pending s' = rest.
Proof.
  intros Hp Hty Hcm Htwo.
  destruct (operator_char_facts _ _ Hty) as (Hsp & Hal & Hdg & Hdq & Hsq).
  destruct (advance_pending _ _ _ Hp) as (s1 & Hadv & Hp1 & _ & Hl1 & _ & Hc1).
  exists s1. split; [|exact Hp1].
  first_round Hp.
  unfold opens_comment in Hcm. unfold opens_comparison in Htwo.
  rewrite Hsp, Hcm, Hal, Hdg, Hdq, Hsq, Htwo.
  rewrite bool_decide_eq_true_2 by (rewrite Hty; eauto).
  unfold bind. rewrite Hadv. unfold operator_of. rewrite Hty. simpl.
  rewrite Hl1, Hc1. unfold operator_column.
  destruct rest; do 2 f_equal; lia.
Qed.

Lemma X8_witness :
  pending (start "/2") = String "/" "2"
  /\ operators !! char_str "/" = Some DIVIDE
  /\ exists s',
       get_next_token (start "/2")
       = Ok (Token.mk DIVIDE (VStr (char_str "/")) (line (start "/2"))
               (operator_column (column (start "/2")) "2")) s'
       /\ pending s' = "2".
Proof.
  split; [reflexivity|]. split; [reflexivity|].
  apply (X8_single_character_operators (start "/2") "/" "2" DIVIDE);
    reflexivity.
Defined.

Lemma comparison_lookup c :
  (c =c "=") || (c =c "!") || (c =c "<") || (c =c ">") = true ->
  operators !! String c "=" = Some (comparison_of c)
  /\ isspace c = false /\ (c =c "/") = false
  /\ isalpha c || (c =c "_") = false /\ isdigit c = false
  /\ (c =c dquote) = false /\ (c =c squote) = false.
Proof.
  intros H. repeat (apply orb_true_iff in H; destruct H as [H|H]);
    apply Ascii.eqb_eq in H; subst c; vm_compute; splits; reflexivity.
Qed.

(** X6: one of [=], [!], [<], [>] followed by [=] is read as one
    two-character operator ([==], [!=], [<=], [>=]), never as two tokens:
    both characters are consumed, and the value is the two characters.  The
    reported column is that of the first character, except when the
    operator ends the input, where it is one less. *)
Theorem X6_two_character_operators s c rest :
  pending s = String c (String "=" rest) ->
  (c =c "=") || (c =c "!") || (c =c "<") || (c =c ">") = true ->
  exists s',
    get_next_token s
    = Ok (Token.mk (comparison_of c) (VStr (String c "=")) (line s)
            (operator_column (column s) rest)) s'
    /\ pending s' = rest.
Proof.
  intros Hp Hc.
  destruct (comparison_lookup c Hc)
    as (Hty & Hsp & Hsl & Hal & Hdg & Hdq & Hsq).
  destruct (advance_pending _ _ _ Hp) as (s1 & Hadv & Hp1 & _ & Hl1 & _ & Hc1).
  destruct (advance_pending _ _ _ Hp1)
    as (s2 & Hadv2 & Hp2 & _ & Hl2 & _ & Hc2).
  exists s2. split; [|exact Hp2].
  first_round Hp.
  rewrite Hsp, Hsl, Hal, Hdg, Hdq, Hsq, Hc.
  cbn [andb orb shead opt_is]. change ("=" =c "=") with true.
  cbv beta iota zeta.
  unfold bind. rewrite Hadv, Hadv2. unfold operator_of, snoc, char_str.
  rewrite append_cons, append_nil, Hty.
  cbv beta iota delta [ret get String.length Z.of_nat Pos.of_succ_nat Pos.succ].
  rewrite Hl2, Hl1, Hc2, Hc1. unfold operator_column.
  destruct rest; do 2 f_equal; lia.
Qed.

Lemma X6_witness :
  pending (start "<=y") = String "<" (String "=" "y")
  /\ exists s',
       get_next_token (start "<=y")
       = Ok (Token.mk (comparison_of "<") (VStr (String "<" "="))
               (line (start "<=y"))
               (operator_column (column (start "<=y")) "y")) s'
       /\ pending s' = "y".
Proof.
  split; [reflexivity|].
  apply (X6_two_character_operators (start "<=y") "<" "y"); reflexivity.
Defined.

(** X7: a character that is not whitespace, does not start an identifier,
    a number, a string or a character literal, and is not in the operator
    table (nor a [!] followed by [=]) raises "Invalid character" with that
    character in the message, at the line and column of the cursor, and
    consumes nothing.  This is so for [@], for a [!] that is not followed
    by [=], and for a [.] that is not preceded by a digit. *)
Theorem X7_invalid_character s c rest :
  pending s = String c rest ->
  starts_nothing c rest = true ->
  get_next_token s
  = Raise (LexicalError ("Invalid character: " ++ char_str c)
             (line s) (column s)) s.
Proof.
  intros Hp H. unfold starts_nothing in H.
  repeat (apply andb_true_iff in H; destruct H as [H ?]).
  repeat match goal with
         | H : negb _ = true |- _ => apply negb_true_iff in H
         end.
  match goal with
  | H : bool_decide _ = true |- _ => apply bool_decide_eq_true in H
  end.
  assert (Hsl : (c =c "/") = false).
  { destruct (c =c "/") eqn:E; [|reflexivity].
    apply Ascii.eqb_eq in E. subst c. discriminate. }
  first_round Hp.
  unfold opens_comparison in *.
  repeat match goal with
         | H : _ = false |- _ => rewrite H
         end.
  rewrite bool_decide_eq_false_2; [reflexivity|].
  match goal with
  | H : operators !! _ = None |- _ => rewrite H
  end.
  intros [? ?]. discriminate.
Qed.

Lemma X7_witness :
  (pending (start "!x") = String "!" "x"
   /\ starts_nothing "!" "x" = true
   /\ get_next_token (start "!x")
      = Raise (LexicalError ("Invalid character: " ++ char_str "!")
                 (line (start "!x")) (column (start "!x"))) (start "!x"))
  /\ starts_nothing "@" "" = true
  /\ starts_nothing "." "5" = true.
Proof.
  split; [|split; reflexivity].
  split; [reflexivity|]. split; [reflexivity|].
  apply (X7_invalid_character (start "!x") "!" "x"); reflexivity.
Defined.

(** ** Numbers, in full *)

Lemma number_pushes_snoc p c r :
  number_pushes (snoc p c) r = number_pushes p (number_push c r).
Proof.
  unfold snoc. induction p as [|d p IH];
    repeat (rewrite append_cons || rewrite append_nil); simpl; congruence.
Qed.

Lemma length_snoc p c : String.length (snoc p c) = S (String.length p).
Proof. unfold snoc. rewrite length_append. simpl. lia. Qed.

Lemma number_pushes_text p w f rest :
  number_pushes p (NumberText w f rest) = NumberText (p ++ w) f rest.
Proof.
  induction p as [|d p IH]; [reflexivity|].
  simpl. rewrite IH. reflexivity.
Qed.

Lemma number_pushes_point p n :
  number_pushes p (SecondPoint n) = SecondPoint (String.length p + n).
Proof.
  induction p as [|d p IH]; [reflexivity|].
  simpl. rewrite IH. reflexivity.
Qed.

Lemma number_scan_cons f c t :
  number_scan f (String c t) =
    if c =c "." then
      if f then SecondPoint 0 else number_push c (number_scan true t)
    else if isdigit c then number_push c (number_scan f t)
    else NumberText "" f (String c t).
Proof. reflexivity. Qed.

Lemma read_number_scan s :
  opost (read_number s)
    (fun tok s' =>
       exists w f,
         number_scan false (pending s) = NumberText w f (pending s')
         /\ line s' = line s
         /\ if f then
              exists q, py_float w = Some q
                /\ tok = Token.mk FLOAT_LITERAL (VFloat q) (line s) (column s)
            else
              exists n, py_int w = Some n
                /\ tok = Token.mk INTEGER (VInt n) (line s) (column s))
    (fun e s' =>
       (exists n,
          number_scan false (pending s) = SecondPoint n
          /\ e = LexicalError "Invalid float literal" (line s)
                   (column s + Z.of_nat n))
       \/ (exists w f rest,
             number_scan false (pending s) = NumberText w f rest
             /\ e = ValueError
             /\ if f then py_float w = None else py_int w = None)).
Proof.
  unfold read_number. apply opost_bind.
  eapply opost_mono;
    [ apply (opost_while
        (fun (st : string * bool) s1 =>
           source s1 = source s /\ line s1 = line s
           /\ number_scan false (pending s)
              = number_pushes (fst st) (number_scan (snd st) (pending s1))
           /\ (pending s1 <> "" ->
               column s1 = column s + Z.of_nat (String.length (fst st))))
        (fun (r : ctl (string * bool) Empty_set) s1 =>
           match r with
           | Next st =>
               line s1 = line s
               /\ number_scan false (pending s)
                  = NumberText (fst st) (snd st) (pending s1)
           | Leave e => False
           end)
        (fun e s' =>
           (exists n,
              number_scan false (pending s) = SecondPoint n
              /\ e = LexicalError "Invalid float literal" (line s)
                       (column s + Z.of_nat n))
           \/ (exists w f rest,
                 number_scan false (pending s) = NumberText w f rest
                 /\ e = ValueError
                 /\ if f then py_float w = None else py_int w = None)))
    | | ].
  - intros [res isf] s1 (Hs & Hl & Hscan & Hcol) Hc.
    cbn [fst snd] in *.
    change (cur_is number_char s1 = true) in Hc.
    rewrite cur_is_pending in Hc.
    destruct (pending s1) as [|c r1] eqn:Hp1; [discriminate|].
    specialize (Hcol ltac:(discriminate)).
    rewrite number_scan_cons in Hscan.
    ostep. rewrite current_char_pending, Hp1. cbv beta iota delta [shead].
    unfold number_char in Hc.
    destruct (c =c ".") eqn:Hdot.
    + destruct isf.
      * ostep. left. exists (String.length res).
        rewrite Hscan, number_pushes_point, Hl, Hcol.
        split; [f_equal; lia|reflexivity].
      * oadvance Hp1 as s2 Hp2 Hs2 Hl2 Ht2 Hc2. ostep. cbn [fst snd].
        rewrite Hp2. splits; try congruence.
        -- now rewrite number_pushes_snoc.
        -- intros Hne. rewrite Hc2, Hcol, length_snoc.
           destruct r1; [contradiction|lia].
        -- simpl. lia.
    + rewrite orb_false_r in Hc. rewrite Hc in Hscan.
      oadvance Hp1 as s2 Hp2 Hs2 Hl2 Ht2 Hc2. ostep. cbn [fst snd].
      rewrite Hp2. splits; try congruence.
      * now rewrite number_pushes_snoc.
      * intros Hne. rewrite Hc2, Hcol, length_snoc.
        destruct r1; [contradiction|lia].
      * simpl. lia.
  - intros [res isf] s1 (Hs & Hl & Hscan & Hcol) Hc.
    cbn [fst snd] in *. split; [exact Hl|].
    change (cur_is number_char s1 = false) in Hc.
    rewrite cur_is_pending in Hc. rewrite Hscan.
    destruct (pending s1) as [|c r1] eqn:Hp1.
    + simpl. rewrite number_pushes_text. now rewrite append_nil_r.
    + rewrite number_scan_cons. unfold number_char in Hc.
      apply orb_false_iff in Hc. destruct Hc as [-> ->].
      rewrite number_pushes_text. now rewrite append_nil_r.
  - cbn [fst snd]. splits; auto. intros _. simpl. lia.
  - apply fuel_of_enough. reflexivity.
  - intros [[res isf]|[]] s1 (Hl & Hscan). cbn [fst snd] in Hscan.
    ostep. destruct isf.
    + destruct (py_float res) as [q|] eqn:E.
      * ostep. exists res, true. splits; auto. exists q. split; congruence.
      * ostep. right. exists res, true, (pending s1). auto.
    + destruct (py_int res) as [n|] eqn:E.
      * ostep. exists res, false. splits; auto. exists n. split; congruence.
      * ostep. right. exists res, false, (pending s1). auto.
  - auto.
Qed.

Lemma isdigit_facts c :
  isdigit c = true ->
  isspace c = false /\ (c =c "/") = false
  /\ isalpha c || (c =c "_") = false /\ (c =c ".") = false
  /\ (c =c newline) = false.
Proof.
  destruct c as [[] [] [] [] [] [] [] []]; vm_compute; intros H;
    (discriminate H || (splits; reflexivity)).
Qed.

Lemma get_next_token_at_isdigit s c r :
  pending s = String c r -> isdigit c = true ->
  get_next_token s = read_number s.
Proof.
  intros Hp Hd.
  destruct (isdigit_facts c Hd) as (Hsp & Hsl & Hal & _).
  first_round Hp. rewrite Hsp, Hsl, Hal, Hd.
  cbn [andb orb]. cbv beta iota.
  unfold bind. destruct (read_number s); reflexivity.
Qed.

Lemma number_scan_digits f ds l :
  string_forall isdigit ds = true ->
  number_scan f (ds ++ l) = number_pushes ds (number_scan f l).
Proof.
  induction ds as [|c ds IH]; intros H; [reflexivity|].
  simpl in H. apply andb_true_iff in H. destruct H as [Hc Hd].
  rewrite append_cons, number_scan_cons, Hc.
  destruct (isdigit_facts c Hc) as (_ & _ & _ & -> & _).
  simpl. now rewrite IH.
Qed.

Lemma number_scan_stop f l :
  match l with "" => true | String c _ => negb (number_char c) end = true ->
  number_scan f l = NumberText "" f l.
Proof.
  destruct l as [|c t]; [reflexivity|]. intros H.
  apply negb_true_iff in H. unfold number_char in H.
  apply orb_false_iff in H. destruct H as [Hd Hp].
  now rewrite number_scan_cons, Hp, Hd.
Qed.

Lemma decimal_isdigit ds :
  string_forall isdecimal ds = true -> string_forall isdigit ds = true.
Proof.
  induction ds as [|c ds IH]; [reflexivity|]. simpl. intros H.
  apply andb_true_iff in H. destruct H as [Hc Hd].
  unfold isdigit. rewrite Hc. simpl. auto.
Qed.

(** X10: a run of decimal digits that is followed by the end of the
    input, or by a character that is neither a digit nor a point, is
    converted by [int].  A run of at most 4300 digits is read as one
    [INTEGER] token whose value is the number that the digits denote as a
    decimal numeral (leading zeros do not change it), located at the
    cursor, and nothing after the digits is consumed.  A longer run makes
    [int] raise [ValueError]. *)
Theorem X10_integer_literals s ds rest :
  pending s = ds ++ rest ->
  ds <> "" ->
  string_forall isdecimal ds = true ->
  match rest with "" => true | String c _ => negb (number_char c) end = true ->
  exists u,
    NilZero.uint_of_string ds = Some u
    /\ ((String.length ds <= 4300)%nat ->
        exists s',
          get_next_token s
          = Ok (Token.mk INTEGER (VInt (Z.of_uint u)) (line s) (column s)) s'
          /\ pending s' = rest)
    /\ ((4300 < String.length ds)%nat ->
        exists s', get_next_token s = Raise ValueError s').
Proof.
  intros Hp Hne Hds Hrest.
  destruct (numeral_uint ds Hne Hds) as (u & Hu & Hn & _).
  assert (Hscan : number_scan false (pending s) = NumberText ds false rest).
  { rewrite Hp, (number_scan_digits _ _ _ (decimal_isdigit _ Hds)).
    rewrite (number_scan_stop _ _ Hrest), number_pushes_text.
    now rewrite append_nil_r. }
  assert (Hget : get_next_token s = read_number s).
  { destruct ds as [|d ds']; [contradiction|]. rewrite append_cons in Hp.
    apply (get_next_token_at_isdigit _ _ _ Hp).
    simpl in Hds. apply andb_true_iff in Hds. destruct Hds as [Hd _].
    unfold isdigit. now rewrite Hd. }
  pose proof (read_number_scan s) as P. rewrite Hget.
  exists u. split; [exact Hu|]. split; intros Hlen.
  - assert (Hint : py_int ds = Some (Z.of_uint u)).
    { rewrite py_int_numeral by exact Hlen. exact Hn. }
    destruct (read_number s) as [tok s'|e s'|]; simpl in P.
    + destruct P as (w & f & Hw & _ & Htok). rewrite Hscan in Hw.
      injection Hw as <- <- Hrest'. destruct Htok as (m & Hm & ->).
      rewrite Hint in Hm. injection Hm as <-. exists s'. auto.
    + exfalso. destruct P as [(k & Hk & _)|(w & f & r & Hw & _ & Hnone)];
        rewrite Hscan in *; [discriminate|].
      injection Hw as <- <- _. congruence.
    + contradiction.
  - assert (Hint : py_int ds = None) by (apply py_int_too_long; exact Hlen).
    destruct (read_number s) as [tok s'|e s'|]; simpl in P.
    + exfalso. destruct P as (w & f & Hw & _ & Htok). rewrite Hscan in Hw.
      injection Hw as <- <- _. destruct Htok as (m & Hm & _). congruence.
    + destruct P as [(k & Hk & _)|(w & f & r & Hw & -> & _)];
        rewrite Hscan in *; [discriminate|]. eauto.
    + contradiction.
Qed.

Lemma X10_witness :
  pending (start "007;") = "007" ++ ";"
  /\ exists s',
       get_next_token (start "007;") = Ok (Token.mk INTEGER (VInt 7) 1 2) s'
       /\ pending s' = ";".
Proof.
  split; [reflexivity|].
  destruct (X10_integer_literals (start "007;") "007" ";")
    as (u & Hu & Hok & _);
    [reflexivity|discriminate|reflexivity|reflexivity|].
  injection Hu as <-. apply Hok. cbn. lia.
Defined.

(** X9: a second decimal point in a number raises "Invalid float literal":
    digits, a point, digits (possibly none) and a second point make the
    scanner raise at the line of the number and at the column of the
    cursor when it stands on the second point. *)
Theorem X9_second_decimal_point s ds1 ds2 rest :
  pending s = ds1 ++ String "." (ds2 ++ String "." rest) ->
  ds1 <> "" ->
  string_forall isdigit ds1 = true ->
  string_forall isdigit ds2 = true ->
  exists s',
    get_next_token s
    = Raise (LexicalError "Invalid float literal" (line s)
               (column s
                + Z.of_nat (String.length ds1 + 1 + String.length ds2))) s'.
Proof.
  intros Hp Hne Hd1 Hd2.
  assert (Hscan : number_scan false (pending s)
                  = SecondPoint (String.length ds1 + 1 + String.length ds2)).
  { rewrite Hp, (number_scan_digits _ _ _ Hd1), number_scan_cons.
    change ("." =c ".") with true. cbv iota.
    rewrite (number_scan_digits _ _ _ Hd2), number_scan_cons.
    change ("." =c ".") with true. cbv iota.
    rewrite number_pushes_point.
    change (number_push "." (SecondPoint (String.length ds2 + 0)))
      with (SecondPoint (S (String.length ds2 + 0))).
    rewrite number_pushes_point. f_equal. lia. }
  assert (Hget : get_next_token s = read_number s).
  { destruct ds1 as [|d ds']; [contradiction|]. rewrite append_cons in Hp.
    apply (get_next_token_at_isdigit _ _ _ Hp).
    simpl in Hd1. now apply andb_true_iff in Hd1. }
  pose proof (read_number_scan s) as P. rewrite Hget.
  destruct (read_number s) as [tok s'|e s'|]; simpl in P.
  - exfalso. destruct P as (w & f & Hw & _). rewrite Hscan in Hw. discriminate.
  - destruct P as [(k & Hk & ->)|(w & f & r & Hw & _)];
      rewrite Hscan in *; [|discriminate].
    injection Hk as <-. eauto.
  - contradiction.
Qed.

Lemma X9_witness :
  pending (start "1.2.3") = "1" ++ String "." ("2" ++ String "." "3")
  /\ exists s',
       get_next_token (start "1.2.3")
       = Raise (LexicalError "Invalid float literal" (line (start "1.2.3"))
                  (column (start "1.2.3")
                   + Z.of_nat (String.length "1" + 1 + String.length "2")))
           s'.
Proof.
  split; [reflexivity|].
  apply (X9_second_decimal_point (start "1.2.3") "1" "2" "3");
    [reflexivity|discriminate|reflexivity|reflexivity].
Defined.

(** X11: [str.isdigit] accepts digits that [int] rejects (the superscript
    digits).  A source that starts with a run of such digits, not all of
    them decimal, makes [read_number] call [int] on a text it cannot
    convert: the [ValueError] is not a [LexicalError], [tokenize] does not
    catch it, and it reaches the caller. *)
Theorem X11_value_error_escapes ds rest a :
  ds <> "" ->
  string_forall isdigit ds = true ->
  string_forall isdecimal ds = false ->
  match rest with "" => true | String c _ => negb (number_char c) end = true ->
  exists a', tokenize (ds ++ rest) a = Raise ValueError a'.
Proof.
  intros Hne Hdig Hdec Hrest.
  destruct (init_scanner_spec (ds ++ rest) a) as (s0 & Hinit & Hp & _).
  rewrite (tokenize_unfold _ _ _ Hinit).
  assert (Hscan : number_scan false (pending s0) = NumberText ds false rest).
  { rewrite Hp, (number_scan_digits _ _ _ Hdig).
    rewrite (number_scan_stop _ _ Hrest), number_pushes_text.
    now rewrite append_nil_r. }
  assert (Hint : py_int ds = None) by now apply py_int_not_decimal.
  assert (Hget : get_next_token s0 = read_number s0).
  { destruct ds as [|d ds']; [contradiction|]. rewrite append_cons in Hp.
    apply (get_next_token_at_isdigit _ _ _ Hp).
    simpl in Hdig. now apply andb_true_iff in Hdig. }
  pose proof (read_number_scan s0) as P.
  destruct (read_number s0) as [tok s'|e s'|] eqn:Hread; simpl in P.
  - exfalso. destruct P as (w & f & Hw & _ & Htok). rewrite Hscan in Hw.
    injection Hw as <- <- _. destruct Htok as (m & Hm & _). congruence.
  - destruct P as [(k & Hk & _)|(w & f & r & Hw & -> & _)];
      rewrite Hscan in *; [discriminate|].
    rewrite (scan_all_raise s0 [] s0 _ _ (scanned_nil s0) Hget). eauto.
  - contradiction.
Qed.

Lemma X11_witness :
  let two := String (ascii_of_nat 178) "" in
  string_forall isdigit ("1" ++ two) = true
  /\ string_forall isdecimal ("1" ++ two) = false
  /\ exists a', tokenize (("1" ++ two) ++ " ") new = Raise ValueError a'.
Proof.
  cbv zeta. split; [reflexivity|]. split; [reflexivity|].
  apply (X11_value_error_escapes ("1" ++ String (ascii_of_nat 178) "") " " new);
    [discriminate|reflexivity|reflexivity|reflexivity].
Defined.

(** ** Identifiers and keywords, in full *)

(** X12: an identifier or keyword is the longest run of letters, digits
    and underscores that starts at a letter or an underscore.  The run is
    a keyword token only when the whole run is a keyword; otherwise it is
    one [IDENTIFIER] token, even if it begins with a keyword.  The token is
    located where the run starts, and the scan stops right after the
    run. *)
Theorem X12_longest_word s c w rest :
  pending s = String c w ++ rest ->
  isalpha c || (c =c "_") = true ->
  string_forall identchar w = true ->
  match rest with "" => true | String d _ => negb (identchar d) end = true ->
  exists s',
    get_next_token s
    = Ok (Token.mk (default IDENTIFIER (keywords !! String c w))
            (VStr (String c w)) (line s) (column s)) s'
    /\ pending s' = rest.
Proof.
  intros Hp Hc Hw Hrest. rewrite append_cons in Hp.
  rewrite (get_next_token_at_letter _ _ _ Hp Hc).
  pose proof (read_identifier_spec s) as P.
  destruct (read_identifier s) as [tok s'|e s'|]; simpl in P;
    [|contradiction..].
  destruct P as (_ & _ & _ & Hcur & w' & Hp' & Hw' & ->).
  rewrite cur_is_pending in Hcur.
  destruct (maximal_prefix_unique identchar w' (pending s') (String c w) rest)
    as [-> Hrest'].
  - exact Hw'.
  - simpl. now rewrite (isalpha_identchar c Hc), Hw.
  - destruct (pending s'); [reflexivity|]. now rewrite Hcur.
  - exact Hrest.
  - rewrite <- Hp', Hp. now rewrite append_cons.
  - eauto.
Qed.

Lemma X12_witness :
  pending (start "iffy(") = String "i" "ffy" ++ "("
  /\ (exists s',
        get_next_token (start "iffy(")
        = Ok (Token.mk (default IDENTIFIER (keywords !! String "i" "ffy"))
                (VStr (String "i" "ffy")) (line (start "iffy("))
                (column (start "iffy("))) s'
        /\ pending s' = "(")
  /\ default IDENTIFIER (keywords !! "iffy") = IDENTIFIER
  /\ default IDENTIFIER (keywords !! "if") = IF.
Proof.
  split; [reflexivity|]. split; [|split; reflexivity].
  apply (X12_longest_word (start "iffy(") "i" "ffy" "("); reflexivity.
Defined.

(** ** Counting lines *)

Lemma newlines_app a b : newlines (a ++ b) = newlines a + newlines b.
Proof.
  induction a as [|c a IH]; [reflexivity|].
  rewrite append_cons. simpl. rewrite IH. lia.
Qed.

Lemma counted_refl s : counted s s.
Proof. exists "". split; [reflexivity|simpl; lia]. Qed.

Lemma counted_trans s1 s2 s3 : counted s1 s2 -> counted s2 s3 -> counted s1 s3.
Proof.
  intros (p & Hp & Hl) (q & Hq & Hm). exists (p ++ q). split.
  - now rewrite Hp, Hq, append_assoc.
  - rewrite newlines_app. lia.
Qed.

Lemma counted_prefix s s' w :
  pending s = w ++ pending s' -> newlines w = 0 -> line s' = line s ->
  counted s s'.
Proof. intros Hp Hn Hl. exists w. split; [exact Hp|lia]. Qed.

Lemma counted_char s s' c :
  pending s = String c (pending s') ->
  line s' = line s + (if c =c newline then 1 else 0) ->
  counted s s'.
Proof.
  intros Hp Hl. exists (String c ""). split; [exact Hp|]. simpl. lia.
Qed.

Lemma newlines_none p w :
  (forall c, p c = true -> (c =c newline) = false) ->
  string_forall p w = true -> newlines w = 0.
Proof.
  intros Hp. induction w as [|c w IH]; [reflexivity|]. simpl. intros H.
  apply andb_true_iff in H. destruct H as [Hc Hw].
  rewrite (Hp c Hc), IH; auto.
Qed.

Lemma not_space_not_newline c : isspace c = false -> (c =c newline) = false.
Proof.
  intros H. destruct (c =c newline) eqn:E; [|reflexivity].
  apply Ascii.eqb_eq in E. subst c. discriminate.
Qed.

Lemma skip_whitespace_lines s :
  opost (skip_whitespace s) (fun _ s' => counted s s') (fun _ _ => False).
Proof.
  unfold skip_whitespace. apply opost_bind.
  eapply opost_mono;
    [ apply (opost_while
        (fun _ s1 => source s1 = source s /\ counted s s1)
        (fun (_ : ctl unit Empty_set) s1 => counted s s1)
        (fun _ _ => False))
    | | ].
  - intros [] s1 (Hs & Hcnt) Hc. rewrite cur_is_pending in Hc.
    destruct (pending s1) as [|c r1] eqn:Hp1; [discriminate|].
    ostep. rewrite current_char_pending, Hp1. cbv beta iota delta [shead opt_is].
    apply opost_bind_when; intros Hnl.
    + unfold count_newline. ostep.
      oadvance Hp1 as s2 Hp2 Hs2 Hl2 Ht2 Hc2. ostep.
      simpl in Hs2, Hl2. splits; [congruence| |rewrite Hp2; simpl; lia].
      eapply counted_trans; [exact Hcnt|].
      apply (counted_char _ _ c); [congruence|]. rewrite Hnl. exact Hl2.
    + oadvance Hp1 as s2 Hp2 Hs2 Hl2 Ht2 Hc2. ostep.
      splits; [congruence| |rewrite Hp2; simpl; lia].
      eapply counted_trans; [exact Hcnt|].
      apply (counted_char _ _ c); [congruence|]. rewrite Hnl. lia.
  - intros [] s1 (Hs & Hcnt) Hc. exact Hcnt.
  - split; [reflexivity|apply counted_refl].
  - apply fuel_of_enough. reflexivity.
  - intros [[]|[]] s1 H. ostep. exact H.
  - auto.
Qed.

Lemma skip_comment_lines s :
  opost (skip_comment s) (fun _ s' => counted s s') (fun _ _ => False).
Proof.
  unfold skip_comment.
  destruct (opt_is "/" (current_char s) && opt_is "/" (peek s)) eqn:Hline.
  { apply opost_bind.
    eapply opost_mono;
      [ apply (opost_while
          (fun _ s1 => source s1 = source s /\ counted s s1)
          (fun (_ : ctl unit Empty_set) s1 => counted s s1)
          (fun _ _ => False))
      | | ].
    - intros [] s1 (Hs & Hcnt) Hc. rewrite cur_is_pending in Hc.
      destruct (pending s1) as [|c r1] eqn:Hp1; [discriminate|].
      apply negb_true_iff in Hc.
      oadvance Hp1 as s2 Hp2 Hs2 Hl2 Ht2 Hc2. ostep.
      splits; [congruence| |rewrite Hp2; simpl; lia].
      eapply counted_trans; [exact Hcnt|].
      apply (counted_char _ _ c); [congruence|]. rewrite Hc. lia.
    - intros [] s1 (Hs & Hcnt) Hc. exact Hcnt.
    - split; [reflexivity|apply counted_refl].
    - apply fuel_of_enough. reflexivity.
    - intros [[]|[]] s1 H. ostep. exact H.
    - auto. }
  destruct (opt_is "/" (current_char s) && opt_is "*" (peek s)) eqn:Hblock;
    [|ostep; apply counted_refl].
  apply andb_true_iff in Hblock. destruct Hblock as [Hcur Hpk].
  rewrite current_char_pending in Hcur. apply opt_is_true in Hcur.
  destruct (pending s) as [|c rest] eqn:Hp; [discriminate|].
  injection Hcur as ->.
  rewrite (peek_pending _ _ _ Hp) in Hpk. apply opt_is_true in Hpk.
  destruct rest as [|c2 rest2]; [discriminate|]. injection Hpk as ->.
  oadvance Hp as s1 Hp1 Hs1 Hl1 Ht1 Hc1.
  oadvance Hp1 as s2 Hp2 Hs2 Hl2 Ht2 Hc2.
  assert (H02 : counted s s2).
  { exists "/*". split; [rewrite Hp, Hp2; reflexivity|].
    simpl. rewrite Hl2, Hl1. lia. }
  apply opost_bind.
  eapply opost_mono;
    [ apply (opost_while
        (fun _ s3 => source s3 = source s /\ counted s s3)
        (fun (_ : ctl unit unit) s3 => counted s s3)
        (fun _ _ => False))
    | | ].
  - intros [] s3 (Hs & Hcnt) Hc. rewrite cur_is_pending in Hc.
    destruct (pending s3) as [|c r3] eqn:Hp3; [discriminate|].
    ostep. rewrite current_char_pending, (peek_pending _ _ _ Hp3), Hp3.
    change (shead (String c r3)) with (Some c).
    destruct (opt_is "*" (Some c) && opt_is "/" (shead r3)) eqn:Hclose.
    + apply andb_true_iff in Hclose. destruct Hclose as [Hst Hsl].
      apply opt_is_true in Hst. injection Hst as ->.
      apply opt_is_true in Hsl.
      destruct r3 as [|c' r4]; [discriminate|]. injection Hsl as ->.
      oadvance Hp3 as s4 Hp4 Hs4 Hl4 Ht4 Hc4.
      oadvance Hp4 as s5 Hp5 Hs5 Hl5 Ht5 Hc5. ostep.
      eapply counted_trans; [exact Hcnt|].
      exists "*/". split; [rewrite Hp3, Hp5; reflexivity|].
      simpl. rewrite Hl5, Hl4. lia.
    + apply opost_bind_when; intros Hnl.
      * unfold count_newline. ostep.
        oadvance Hp3 as s4 Hp4 Hs4 Hl4 Ht4 Hc4. ostep.
        simpl in Hs4, Hl4. splits; [congruence| |rewrite Hp4; simpl; lia].
        eapply counted_trans; [exact Hcnt|].
        apply (counted_char _ _ c); [congruence|].
        simpl in Hnl. rewrite Hnl. exact Hl4.
      * oadvance Hp3 as s4 Hp4 Hs4 Hl4 Ht4 Hc4. ostep.
        splits; [congruence| |rewrite Hp4; simpl; lia].
        eapply counted_trans; [exact Hcnt|].
        apply (counted_char _ _ c); [congruence|].
        simpl in Hnl. rewrite Hnl. lia.
  - intros [] s3 (Hs & Hcnt) Hc. exact Hcnt.
  - split; [congruence|exact H02].
  - apply fuel_of_enough. congruence.
  - intros [[]|[]] s3 H; ostep; exact H.
  - auto.
Qed.

Lemma number_scan_text l :
  forall f w f' rest,
    number_scan f l = NumberText w f' rest ->
    l = w ++ rest /\ string_forall number_char w = true.
Proof.
  induction l as [|c t IH]; intros f w f' rest H.
  - simpl in H. injection H as <- _ <-. auto.
  - rewrite number_scan_cons in H. unfold number_char.
    destruct (c =c ".") eqn:Hdot.
    + destruct f; [discriminate|].
      destruct (number_scan true t) as [w1 f1 r1|] eqn:E; [|discriminate].
      simpl in H. injection H as <- _ <-.
      destruct (IH _ _ _ _ E) as [-> Hall]. split; [reflexivity|].
      simpl. now rewrite Hdot, orb_true_r.
    + destruct (isdigit c) eqn:Hd.
      * destruct (number_scan f t) as [w1 f1 r1|] eqn:E; [|discriminate].
        simpl in H. injection H as <- _ <-.
        destruct (IH _ _ _ _ E) as [-> Hall]. split; [reflexivity|].
        simpl. now rewrite Hd.
      * injection H as <- _ <-. auto.
Qed.

Lemma number_char_not_newline c :
  number_char c = true -> (c =c newline) = false.
Proof.
  unfold number_char. intros H. apply orb_true_iff in H.
  destruct H as [H|H].
  - now destruct (isdigit_facts c H) as (_ & _ & _ & _ & ->).
  - apply Ascii.eqb_eq in H. now subst c.
Qed.

Lemma identchar_not_newline c : identchar c = true -> (c =c newline) = false.
Proof.
  intros H. apply not_space_not_newline. now apply identchar_plain.
Qed.

Lemma line_post_counted s s1 tok s' :
  counted s s1 -> line_post s1 tok s' -> line_post s tok s'.
Proof.
  intros Hc (Hl & Hq & Hk). unfold line_post. splits; auto.
  intros H. eapply counted_trans; [exact Hc|auto].
Qed.

(** The dispatch on a character that starts a token, for lines. *)
Lemma scan_token_lines s c rest :
  pending s = String c rest ->
  isspace c = false ->
  opost
    ((if isalpha c || (c =c "_") then
        do t <- read_identifier; ret (Leave (A := unit) t)
      else if isdigit c then
        do t <- read_number; ret (Leave t)
      else if c =c dquote then
        do t <- read_string; ret (Leave t)
      else if c =c squote then
        do t <- read_char_literal; ret (Leave t)
      else if ((c =c "=") || (c =c "!") || (c =c "<") || (c =c ">"))
              && opt_is "=" (peek s)
      then
        let op := snoc (char_str c) "=" in
        advance ;;
        advance ;;
        do ty <- operator_of op;
        do s' <- get;
        ret (Leave (Token.mk ty (VStr op) (line s')
                      (column s' - Z.of_nat (String.length op))))
      else if bool_decide (is_Some (operators !! char_str c))
      then
        advance ;;
        do ty <- operator_of (char_str c);
        do s' <- get;
        ret (Leave (Token.mk ty (VStr (char_str c)) (line s')
                      (column s' - 1)))
      else
        raise (LexicalError ("Invalid character: " ++ char_str c)
                 (line s) (column s))) s)
    (fun r s' =>
       match r with
       | Leave tok => line_post s tok s'
       | Next _ => False
       end)
    (fun _ _ => True).
Proof.
  intros Hp Hsp.
  pose proof (not_space_not_newline c Hsp) as Hnl.
  destruct (isalpha c || (c =c "_")) eqn:Hid.
  { apply opost_bind. eapply opost_mono; [apply read_identifier_spec| |auto].
    intros tok s' (Hs & Hl & Ht & Hcur & w & Hw & Hall & ->). ostep.
    unfold line_post. cbn [Token.line Token.type]. splits.
    - congruence.
    - intros _. apply (counted_prefix _ _ w); auto.
      apply (newlines_none identchar); auto. apply identchar_not_newline.
    - unfold lexeme. cbn [Token.value]. intros Hty.
      destruct (keywords !! w) as [ty|] eqn:E; [|reflexivity].
      apply keywords_types in E. simpl in Hty. tauto. }
  destruct (isdigit c) eqn:Hdg.
  { apply opost_bind. eapply opost_mono; [apply read_number_scan| |auto].
    intros tok s' (w & f & Hscan & Hl & Htok). ostep.
    destruct (number_scan_text _ _ _ _ _ Hscan) as [Hw Hall].
    assert (Hcnt : counted s s').
    { apply (counted_prefix _ _ w); auto.
      apply (newlines_none number_char); auto.
      apply number_char_not_newline. }
    unfold line_post.
    destruct f; destruct Htok as (v & _ & ->); cbn [Token.line Token.type];
      splits; auto; discriminate. }
  destruct (c =c dquote) eqn:Hdq.
  { apply opost_bind. eapply opost_mono; [apply (read_string_spec _ _ _ Hp)| |auto].
    intros tok s' (_ & _ & Hl & _ & Hty & Htl & _). ostep.
    unfold line_post, no_quotes. rewrite Hty. splits.
    - congruence.
    - intros [H _]. congruence.
    - discriminate. }
  destruct (c =c squote) eqn:Hsq.
  { apply opost_bind.
    eapply opost_mono; [apply (read_char_literal_spec _ _ _ Hp)| |auto].
    intros tok s' (_ & _ & Hl & _ & Hty & Htl & _). ostep.
    unfold line_post, no_quotes. rewrite Hty. splits.
    - congruence.
    - intros [_ H]. congruence.
    - discriminate. }
  rewrite (peek_pending _ _ _ Hp).
  destruct (((c =c "=") || (c =c "!") || (c =c "<") || (c =c ">"))
            && opt_is "=" (shead rest)) eqn:Htwo.
  { apply andb_true_iff in Htwo. destruct Htwo as [Hc Heq].
    apply opt_is_true in Heq.
    destruct rest as [|d r2]; [discriminate|]. injection Heq as ->.
    destruct (operator_of_two c Hc) as [ty Hty].
    destruct (operators_types _ _ Hty) as [Hv Hni].
    cbv zeta.
    oadvance Hp as s1 Hp1 Hs1 Hl1 Ht1 Hc1.
    oadvance Hp1 as s2 Hp2 Hs2 Hl2 Ht2 Hc2.
    apply opost_bind. apply (opost_operator_of _ ty); [exact Hty|].
    ostep. ostep. unfold line_post. cbn [Token.line Token.type]. splits.
    - reflexivity.
    - intros _. exists (String c "="). split; [now rewrite Hp, Hp2|].
      simpl. rewrite Hnl, Hl2, Hl1. lia.
    - intros H. contradiction. }
  destruct (bool_decide (is_Some (operators !! char_str c))) eqn:Hop;
    [|ostep; exact I].
  apply bool_decide_eq_true in Hop. destruct Hop as [ty Hty].
  destruct (operators_types _ _ Hty) as [Hv Hni].
  oadvance Hp as s1 Hp1 Hs1 Hl1 Ht1 Hc1.
  apply opost_bind. apply (opost_operator_of _ ty); [exact Hty|].
  ostep. ostep. unfold line_post. cbn [Token.line Token.type]. splits.
  - reflexivity.
  - intros _. apply (counted_char _ _ c); [congruence|]. rewrite Hnl. lia.
  - intros H. contradiction.
Qed.

Lemma get_next_token_lines s :
  opost (get_next_token s) (line_post s) (fun _ _ => True).
Proof.
  unfold get_next_token. apply opost_bind.
  eapply opost_mono;
    [ apply (opost_while
        (fun (_ : unit) s1 => source s1 = source s /\ counted s s1)
        (fun (r : ctl unit Token) s' =>
           match r with
           | Leave tok => line_post s tok s'
           | Next _ => counted s s'
           end)
        (fun _ _ => True))
    | | ].
  - intros [] s1 (Hs & Hcnt) Hc. rewrite cur_is_pending in Hc.
    destruct (pending s1) as [|c r1] eqn:Hp1; [discriminate|].
    ostep. rewrite current_char_pending, Hp1. cbv beta iota delta [shead].
    destruct (isspace c) eqn:Hsp.
    { apply opost_bind.
      pose proof (skip_whitespace_spec s1) as P1.
      pose proof (skip_whitespace_lines s1) as P2.
      destruct (skip_whitespace s1) as [[] s2|e s2|]; simpl in P1, P2;
        try contradiction.
      destruct P1 as (Hs2 & _ & _ & _ & Hlt). simpl.
      rewrite cur_is_pending, Hp1 in Hlt. specialize (Hlt Hsp).
      splits; [congruence| |exact Hlt].
      eapply counted_trans; eassumption. }
    destruct ((c =c "/") && (opt_is "/" (peek s1) || opt_is "*" (peek s1)))
      eqn:Hcm.
    { rewrite (peek_pending _ _ _ Hp1) in Hcm.
      apply andb_true_iff in Hcm. destruct Hcm as [Hsl Hnext].
      apply Ascii.eqb_eq in Hsl. subst c.
      destruct r1 as [|c2 r2]; [discriminate|].
      assert (Hc2 : c2 = "/"%char \/ c2 = "*"%char).
      { simpl in Hnext. apply orb_true_iff in Hnext.
        destruct Hnext as [H|H]; apply Ascii.eqb_eq in H; auto. }
      apply opost_bind.
      pose proof (skip_comment_spec _ _ _ Hp1 Hc2) as P1.
      pose proof (skip_comment_lines s1) as P2.
      destruct (skip_comment s1) as [[] s2|e s2|]; simpl in P1, P2;
        try contradiction.
      destruct P1 as (Hs2 & _ & _ & Hlt). simpl.
      splits; [congruence| |rewrite Hp1 in Hlt; exact Hlt].
      eapply counted_trans; eassumption. }
    eapply opost_mono; [apply (scan_token_lines _ _ _ Hp1 Hsp)| |auto].
    intros [[]|tok] s2 H; [contradiction|].
    eapply line_post_counted; eassumption.
  - intros [] s1 (Hs & Hcnt) Hc. exact Hcnt.
  - split; [reflexivity|apply counted_refl].
  - apply fuel_of_enough. reflexivity.
  - intros [[]|tok] s1 H.
    + ostep. ostep. unfold line_post. cbn [Token.line Token.type].
      splits; auto; try discriminate.
    + ostep. exact H.
  - auto.
Qed.

Lemma line_post_of s tok s' :
  get_next_token s = Ok tok s' -> line_post s tok s'.
Proof.
  intros H. pose proof (get_next_token_lines s) as P. now rewrite H in P.
Qed.

Lemma scanned_counted s ts s1 :
  scanned s ts s1 -> Forall no_quotes ts -> counted s s1.
Proof.
  induction 1 as [s|s t s1 ts s2 Hget Hty Hsc IH]; intros Hall.
  - apply counted_refl.
  - inversion Hall as [|? ? Hq Hrest]; subst.
    destruct (line_post_of _ _ _ Hget) as (_ & Hc & _).
    eapply counted_trans; [exact (Hc Hq)|exact (IH Hrest)].
Qed.

(** X13: as long as no string or character literal has been scanned, the
    line of a token is right: it is the line the run of scans started
    with, plus the number of newline characters in the text consumed up to
    and including the token (the token itself, not being a literal,
    contains none).  Newlines in whitespace, at the end of [//] comments
    and inside block comments are all counted. *)
Theorem X13_lines_without_literals s ts s1 tok s' :
  scanned s ts s1 ->
  Forall no_quotes ts ->
  get_next_token s1 = Ok tok s' ->
  no_quotes tok ->
  exists consumed,
    pending s = consumed ++ pending s'
    /\ Token.line tok = line s + newlines consumed.
Proof.
  intros Hsc Hall Hget Hq.
  destruct (line_post_of _ _ _ Hget) as (Hl & Hc & _).
  destruct (counted_trans _ _ _ (scanned_counted _ _ _ Hsc Hall) (Hc Hq))
    as (consumed & Hp & Hline).
  exists consumed. split; [exact Hp|congruence].
Qed.

Lemma X13_witness :
  exists s1 s' consumed,
    scanned (start words_on_lines_1_and_4)
      [Token.mk IDENTIFIER (VStr "a") 1 2] s1
    /\ get_next_token s1 = Ok (Token.mk IDENTIFIER (VStr "b") 4 2) s'
    /\ pending (start words_on_lines_1_and_4) = consumed ++ pending s'
    /\ Token.line (Token.mk IDENTIFIER (VStr "b") 4 2)
       = line (start words_on_lines_1_and_4) + newlines consumed.
Proof.
  assert (H1 : exists s1,
             scanned (start words_on_lines_1_and_4)
               [Token.mk IDENTIFIER (VStr "a") 1 2] s1
             /\ exists s',
                  get_next_token s1
                  = Ok (Token.mk IDENTIFIER (VStr "b") 4 2) s').
  { eexists. split.
    - eapply scanned_cons; [vm_compute; reflexivity|discriminate|].
      apply scanned_nil.
    - eexists. vm_compute. reflexivity. }
  destruct H1 as (s1 & Hsc & s' & Hget).
  destruct (X13_lines_without_literals
              (start words_on_lines_1_and_4)
              [Token.mk IDENTIFIER (VStr "a") 1 2] s1
              (Token.mk IDENTIFIER (VStr "b") 4 2) s' Hsc)
    as (consumed & Hp & Hl).
  - repeat constructor; discriminate.
  - exact Hget.
  - split; discriminate.
  - exists s1, s', consumed. auto.
Defined.

Lemma scanned_identifiers s ts s1 :
  scanned s ts s1 ->
  Forall (fun t => Token.type t = IDENTIFIER -> keywords !! lexeme t = None) ts.
Proof.
  induction 1 as [s|s t s1 ts s2 Hget Hty Hsc IH]; constructor; auto.
  now destruct (line_post_of _ _ _ Hget) as (_ & _ & Hk).
Qed.

Lemma locations_of_keyword w ty ts :
  keywords !! w = Some ty ->
  Forall (fun t => Token.type t = IDENTIFIER -> keywords !! lexeme t = None) ts ->
  locations_of w ts = [].
Proof.
  intros Hw. induction 1 as [|t ts Ht _ IH]; [reflexivity|].
  rewrite locations_of_cons, IH, app_nil_r.
  unfold locations_of. cbn [List.filter].
  destruct (TokenType_eqb (Token.type t) IDENTIFIER) eqn:Hty; [|reflexivity].
  destruct (String.eqb (lexeme t) w) eqn:He; [|reflexivity].
  apply TokenType_eqb_eq in Hty. apply String.eqb_eq in He.
  rewrite He in Ht. rewrite (Ht Hty) in Hw. discriminate.
Qed.

(** X17: keywords are never recorded.  Whatever [tokenize] is given and
    however it ends, the entry of a keyword in the symbol table is what it
    was before the call; in the table of an analyzer that started empty
    there is never an entry for a keyword. *)
Theorem X17_keywords_are_never_recorded src a a' w ty :
  keywords !! w = Some ty ->
  final (tokenize src a) = Some a' ->
  symbol_table a' !! w = symbol_table a !! w.
Proof.
  intros Hw.
  destruct (init_scanner_spec src a) as (s0 & Hinit & _ & _ & Ht0 & _).
  rewrite (tokenize_unfold _ _ _ Hinit).
  destruct (scan_ends s0) as (ts & s1 & Hsc & Hend).
  assert (Hs1 : symbol_table s1 !! w = symbol_table a !! w).
  { rewrite (scanned_table _ _ _ Hsc), fold_record_token_lookup, Ht0.
    now rewrite (locations_of_keyword _ _ _ Hw (scanned_identifiers _ _ _ Hsc)). }
  destruct Hend as [(eof & s' & Hget & Hty)|(e & s' & Hget)].
  - rewrite (scan_all_ok _ _ _ _ _ Hsc Hget Hty). simpl. intros [= <-].
    destruct (token_post_of _ _ _ Hget) as (_ & Ht & _).
    rewrite Ht, record_token_other by congruence. exact Hs1.
  - rewrite (scan_all_raise _ _ _ _ _ Hsc Hget).
    destruct (error_post_of _ _ _ Hget) as (_ & Ht & _).
    destruct e; simpl; intros [= <-]; now rewrite Ht.
Qed.

Lemma X17_witness :
  keywords !! "while" = Some WHILE
  /\ final (tokenize "while (x) return" new)
     = Some (final_state "while (x) return")
  /\ symbol_table (final_state "while (x) return") !! "while"
     = symbol_table new !! "while".
Proof.
  split; [reflexivity|]. split; [vm_compute; reflexivity|].
  apply (X17_keywords_are_never_recorded
           "while (x) return" new (final_state "while (x) return")
           "while" WHILE);
    [reflexivity|vm_compute; reflexivity].
Defined.
